(** * Nonslip lead monitor: the lead pipeline of the Python sources,
      embedded in Rocq.

    Definitions, one module per source file or layer:
    - [PyStr]: the Python string operations the pipeline relies on
      ([str.lower], [in] on strings, [str.title], [str.strip], [str.join]);
    - [PyDict]: lead records as Python dicts with string keys, the object
      store in which the filters mutate them, and calls that may raise;
    - [Matcher]: the first-match keyword loop;
    - [Historical]: historical_data_collector.py (the two filters);
    - [Py]: a state-and-exception monad for the methods with effects;
    - [Monitor]: lead_monitor.py;
    - [Production]: production_monitor.py;
    - [Osha]: osha_scraper.py;
    - [Permits]: permit_scrapers.py ([clean_text]);
    - [HistoricalRun]: the collectors and the summary of
      historical_data_collector.py;
    - [Cased]: the county filter and the slip-and-fall filter over an
      arbitrary case mapping;
    - [Props], [MoreProps]: the notions in which the properties are stated.
    The theorems follow, grouped by the property they settle.

    Strings are sequences of 8-bit characters; [lower], [title] and the
    white-space test act on the ASCII range, which is where every keyword,
    county and city of the configuration lives: on ASCII text they are
    [str.lower], [str.title] and [str.isspace]. Where a configured name
    has a letter that [str.lower] also produces from a character outside
    ASCII (the "k" of "Norfolk", "brookline", "walking" and
    "housekeeping" is the lower case of the Kelvin sign as well), the
    filter is given in [Cased], with the case mapping of the language as
    a parameter. [time.sleep] only delays and is left out. *)

From Stdlib Require Import Ascii.
From stdpp Require Import base decidable option list strings pretty gmap fin_maps functions.

(* ===================================================================== *)
(** * Python strings *)
(* ===================================================================== *)

Module PyStr.

(** The double-quote character, which the HTML templates contain. *)
Definition dq : string := String "034"%char EmptyString.

(** The line feed inside the triple-quoted templates. *)
Definition nl : string := String "010"%char EmptyString.

Definition is_upper (c : ascii) : bool :=
  let n := nat_of_ascii c in (65 <=? n) && (n <=? 90).

Definition is_lower (c : ascii) : bool :=
  let n := nat_of_ascii c in (97 <=? n) && (n <=? 122).

Definition to_lower (c : ascii) : ascii :=
  if is_upper c then ascii_of_nat (nat_of_ascii c + 32) else c.

Definition to_upper (c : ascii) : ascii :=
  if is_lower c then ascii_of_nat (nat_of_ascii c - 32) else c.

(** [s.lower()] *)
Fixpoint lower (s : string) : string :=
  match s with
  | EmptyString => EmptyString
  | String c s' => String (to_lower c) (lower s')
  end.

(** [s.title()]: a cased character is upper-cased when the character
    before it is not cased, and lower-cased otherwise. *)
Fixpoint title_from (prev_cased : bool) (s : string) : string :=
  match s with
  | EmptyString => EmptyString
  | String c s' =>
      if is_lower c || is_upper c
      then String (if prev_cased then to_lower c else to_upper c)
                  (title_from true s')
      else String c (title_from false s')
  end.

Definition title (s : string) : string := title_from false s.

(** [s.startswith(p)] *)
Fixpoint prefixb (p s : string) : bool :=
  match p, s with
  | EmptyString, _ => true
  | String _ _, EmptyString => false
  | String a p', String b s' => bool_decide (a = b) && prefixb p' s'
  end.

(** [p in s] on strings. *)
Fixpoint substringb (p s : string) : bool :=
  prefixb p s ||
  match s with
  | EmptyString => false
  | String _ s' => substringb p s'
  end.

(** [sep.join(parts)] *)
Fixpoint join (sep : string) (parts : list string) : string :=
  match parts with
  | [] => EmptyString
  | [x] => x
  | x :: rest => x +:+ sep +:+ join sep rest
  end.

(** The pieces of an f-string, put together. *)
Definition cat (parts : list string) : string :=
  foldr String.append EmptyString parts.

(** White space as [str.isspace] sees it in the 8-bit range covered here:
    tab, line feed, vertical tab, form feed, carriage return, the four
    separators 28..31 and the space. *)
Definition is_space (c : ascii) : bool :=
  let n := nat_of_ascii c in
  ((9 <=? n) && (n <=? 13)) || ((28 <=? n) && (n <=? 32)).

Fixpoint lstrip (s : string) : string :=
  match s with
  | EmptyString => EmptyString
  | String c s' => if is_space c then lstrip s' else s
  end.

Fixpoint rstrip (s : string) : string :=
  match s with
  | EmptyString => EmptyString
  | String c s' =>
      match rstrip s' with
      | EmptyString => if is_space c then EmptyString else String c EmptyString
      | r => String c r
      end
  end.

(** [s.strip()] *)
Definition strip (s : string) : string := rstrip (lstrip s).

(** What [p in s] means: [p] occurs as a contiguous block of [s]. *)
Definition Substring (p s : string) : Prop :=
  ∃ pre post, s = pre +:+ p +:+ post.

(** Case-insensitive occurrence: some block of [s] equals [p] up to the
    case of its letters. *)
Definition CISubstring (p s : string) : Prop :=
  ∃ pre mid post, s = pre +:+ mid +:+ post ∧ lower mid = lower p.

End PyStr.

Import PyStr.

(* ===================================================================== *)
(** * Python dicts and the object store *)
(* ===================================================================== *)

Module PyDict.

(** The values the lead dicts hold: text, or [None]. *)
Inductive value : Type :=
  | VStr (s : string)
  | VNone.

#[global] Instance value_eq_dec : EqDecision value.
Proof. solve_decision. Defined.

(** [str(v)], also what an f-string prints for [v]. *)
Definition py_str (v : value) : string :=
  match v with
  | VStr s => s
  | VNone => "None"
  end.

(** Truth value of [v] in a condition: [None] and the empty text are false. *)
Definition truthy (v : value) : bool :=
  match v with
  | VStr EmptyString => false
  | VStr _ => true
  | VNone => false
  end.

(** A lead is a dict with string keys. Two dicts are equal in Python when
    they hold the same keys with equal values, whatever the insertion
    order: that is equality of finite maps. *)
Abbreviation lead := (gmap string value).

(** [d.get(k, dflt)] *)
Definition get_default (d : lead) (k : string) (dflt : value) : value :=
  default dflt (d !! k).

(** [d.get(k)] *)
Definition get (d : lead) (k : string) : value := get_default d k VNone.

(** Object identities and the store: each dict object has an identity, and
    the store gives its current contents. A list of leads is a list of
    identities, so a dict reachable from two lists is one object. *)
Abbreviation loc := nat.
Abbreviation heap := (loc → lead).

(** [lead[k] = v] on the object [l]. *)
Definition store (h : heap) (l : loc) (k : string) (v : value) : heap :=
  <[l := <[k := v]> (h l)]> h.

(** [lead in leads]: an element that is the same object or compares equal. *)
Definition py_in (h : heap) (l : loc) (ls : list loc) : bool :=
  existsb (λ l', bool_decide (l' = l) || bool_decide (h l' = h l)) ls.

(** Freshly created dicts get the identities [0, 1, ...] in creation order. *)
Definition heap_of (ds : list lead) : heap := λ l, default ∅ (ds !! l).
Definition locs_of (ds : list lead) : list loc := seq 0 (length ds).

(** The dicts a list of identities denotes in a store. *)
Definition deref (h : heap) (ls : list loc) : list lead := h <$> ls.

(** A Python call either returns or raises. *)
Inductive result (A : Type) : Type :=
  | Ok (a : A)
  | Raise (e : string).
Arguments Ok {A} a.
Arguments Raise {A} e.

#[global] Instance result_eq_dec {A} `{EqDecision A} : EqDecision (result A).
Proof. solve_decision. Defined.

End PyDict.

Import PyDict.

(* ===================================================================== *)
(** * Keyword matching, as the three industry filters do it *)
(* ===================================================================== *)

Module Matcher.

(** [for keyword in keywords: if keyword.lower() in text: ...; break]:
    the keyword the loop stops at, if any. *)
Fixpoint first_match (keywords : list string) (text : string) : option string :=
  match keywords with
  | [] => None
  | keyword :: rest =>
      if substringb (lower keyword) text then Some keyword
      else first_match rest text
  end.

End Matcher.

Import Matcher.

(* ===================================================================== *)
(** * historical_data_collector.py *)
(* ===================================================================== *)

Module Historical.

Definition TARGET_COUNTIES : list string := ["Middlesex"; "Norfolk"; "Worcester"].

Definition TARGET_INDUSTRIES : list string :=
  [ "restaurant"; "food service"; "dining"; "cafe"; "bar";
    "healthcare"; "hospital"; "medical center"; "clinic"; "health";
    "school"; "university"; "college"; "education"; "academy";
    "hotel"; "motel"; "resort"; "lodging"; "inn";
    "country club"; "golf club"; "club";
    "assisted living"; "nursing home"; "senior living"; "retirement"; "55+";
    "fitness center"; "gym"; "health club"; "wellness" ].

(** The text the industry filter searches: title, description and search
    query, joined by spaces and lower-cased. *)
Definition industry_fields (d : lead) : string :=
  join " " [ py_str (get_default d "title" (VStr ""));
             py_str (get_default d "description" (VStr ""));
             py_str (get_default d "search_query" (VStr "")) ].

Definition industry_text (d : lead) : string := lower (industry_fields d).

(** The keyword loop of [filter_by_target_industries] for the lead [l]:
    at the first keyword found in [text] the lead is stamped and appended,
    and the loop is left. *)
Fixpoint industry_loop (keywords : list string) (text : string) (l : loc)
    (st : heap * list loc) : heap * list loc :=
  match keywords with
  | [] => st
  | keyword :: rest =>
      if substringb (lower keyword) text
      then (store st.1 l "matched_keyword" (VStr keyword), st.2 ++ [l])
      else industry_loop rest text l st
  end.

Definition industry_step (st : heap * list loc) (l : loc) : heap * list loc :=
  industry_loop TARGET_INDUSTRIES (industry_text (st.1 l)) l st.

(** [filter_by_target_industries(leads)]: the store after the call, and
    the list [filtered] it returns. *)
Definition filter_by_target_industries (h : heap) (leads : list loc)
    : heap * list loc :=
  foldl industry_step (h, []) leads.

(** The text the county filter searches: title and description. *)
Definition county_fields (d : lead) : string :=
  join " " [ py_str (get_default d "title" (VStr ""));
             py_str (get_default d "description" (VStr "")) ].

Definition county_text (d : lead) : string := lower (county_fields d).

(** The dict literal [cities], in its insertion order. *)
Definition cities : list (string * list string) :=
  [ ("Middlesex", ["cambridge"; "lowell"; "newton"; "somerville";
                   "framingham"; "waltham"; "malden"; "medford"]);
    ("Norfolk", ["quincy"; "brookline"; "weymouth"; "needham"; "milton";
                 "braintree"]);
    ("Worcester", ["worcester"; "leominster"; "fitchburg"; "shrewsbury";
                   "marlborough"]) ].

(** [for county in TARGET_COUNTIES: if county.lower() in text: ...; break] *)
Fixpoint county_loop (counties : list string) (text : string) (l : loc)
    (st : heap * list loc) : heap * list loc :=
  match counties with
  | [] => st
  | county :: rest =>
      if substringb (lower county) text
      then (store st.1 l "county" (VStr county), st.2 ++ [l])
      else county_loop rest text l st
  end.

(** [for city in city_list: if city in text: ...; break]: the inner loop,
    whose [break] leaves this loop only. *)
Fixpoint city_loop (county : string) (city_list : list string) (text : string)
    (l : loc) (st : heap * list loc) : heap * list loc :=
  match city_list with
  | [] => st
  | city :: rest =>
      if substringb city text
      then
        let h1 := store st.1 l "county" (VStr county) in
        let h2 := store h1 l "city" (VStr (title city)) in
        (h2, if py_in h2 l st.2 then st.2 else st.2 ++ [l])
      else city_loop county rest text l st
  end.

(** [for county, city_list in cities.items(): ...]: the outer loop, which
    goes on to the next county after the inner loop is left. *)
Fixpoint cities_loop (table : list (string * list string)) (text : string)
    (l : loc) (st : heap * list loc) : heap * list loc :=
  match table with
  | [] => st
  | (county, city_list) :: rest =>
      cities_loop rest text l (city_loop county city_list text l st)
  end.

Definition county_step (st : heap * list loc) (l : loc) : heap * list loc :=
  let text := county_text (st.1 l) in
  cities_loop cities text l (county_loop TARGET_COUNTIES text l st).

(** [filter_by_target_counties(leads)]: the store after the call, and the
    list [filtered] it returns. *)
Definition filter_by_target_counties (h : heap) (leads : list loc)
    : heap * list loc :=
  foldl county_step (h, []) leads.

End Historical.

(* ===================================================================== *)
(** * Calls that may raise and that act on a state *)
(* ===================================================================== *)

Module Py.

(** A computation over a state [S]: it returns or raises, and in both
    cases leaves the state its effects produced. *)
Definition M (S A : Type) : Type := S → result A * S.

Definition ret {S A} (a : A) : M S A := λ s, (Ok a, s).

Definition raise {S A} (e : string) : M S A := λ s, (Raise e, s).

Definition bind {S A B} (m : M S A) (k : A → M S B) : M S B :=
  λ s, match m s with
       | (Ok a, s') => k a s'
       | (Raise e, s') => (Raise e, s')
       end.

(** The outcome of a call into a library or a remote service. *)
Definition lift {S A} (r : result A) : M S A := λ s, (r, s).

Definition modify {S} (f : S → S) : M S unit := λ s, (Ok tt, f s).

Definition gets {S A} (f : S → A) : M S A := λ s, (Ok (f s), s).

(** [try: body   except Exception as e: handler(e)] *)
Definition try_except {S A} (body : M S A) (handler : string → M S A) : M S A :=
  λ s, match body s with
       | (Ok a, s') => (Ok a, s')
       | (Raise e, s') => handler e s'
       end.

(** [for x in xs: body(x)] *)
Fixpoint for_each {S A} (xs : list A) (body : A → M S unit) : M S unit :=
  match xs with
  | [] => ret tt
  | x :: rest => bind (body x) (λ _, for_each rest body)
  end.

#[global] Instance M_ret {S} : MRet (M S) := λ A, ret.
#[global] Instance M_bind {S} : MBind (M S) := λ A B k m, bind m k.

End Py.

Import Py.


(* ===================================================================== *)
(** * lead_monitor.py *)
(* ===================================================================== *)

Module Monitor.

Definition TARGET_COUNTIES : list string := ["Middlesex"; "Norfolk"; "Worcester"].

Definition TARGET_INDUSTRIES : list string :=
  [ "restaurant"; "food service"; "healthcare"; "hospital"; "school";
    "university"; "college"; "hotel"; "country club"; "assisted living";
    "nursing home"; "senior living"; "55+"; "fitness center"; "gym" ].

Definition EMAIL_RECIPIENT : string := "Dhead20@gmail.com".

(** The MIME message [send_email] builds. *)
Record message : Type := Message {
  msg_subject : string;
  msg_from : string;
  msg_to : string;
  msg_html : string
}.

#[global] Instance message_eq_dec : EqDecision message.
Proof. solve_decision. Defined.

(** What the monitor does to the outside: lines printed, a message handed
    to the SMTP server, a file opened and written, a table exported. *)
Inductive event : Type :=
  | Print (line : string)
  | SmtpSend (msg : message)
  | FileWrite (filename content : string)
  | CsvWrite (filename : string) (rows : list lead).

#[global] Instance event_eq_dec : EqDecision event.
Proof. solve_decision. Defined.

(** The collaborators of the monitor. The two private search methods are
    templates in the repository (see [stub_search_city_permits] and
    [stub_query_osha_data]); they are the place of the site-specific
    scraping and may raise. *)
Class World : Type := {
  _search_city_permits : string → string → result (list lead);
  _query_osha_data : result (list lead);
  environ_get : string → option string;
  now_strftime : string → string;
  smtp_deliver : message → string → result unit;
  file_write : string → string → result unit;
  to_csv : string → list lead → result unit
}.

(** The bodies the repository gives the two templates: no permit, no
    incident, no failure. *)
Definition stub_search_city_permits (city county : string) : result (list lead) :=
  Ok [].
Definition stub_query_osha_data : result (list lead) := Ok [].

(** The object state of a [LeadMonitor], with what it has done so far. *)
Record monitor : Type := Monitor_ {
  permits : list lead;
  osha_incidents : list lead;
  out : list event
}.

Definition init : monitor := Monitor_ [] [] [].

Definition emit (e : event) : M monitor unit :=
  modify (λ self, Monitor_ (permits self) (osha_incidents self) (out self ++ [e])).

Definition print (line : string) : M monitor unit := emit (Print line).

Definition extend_permits (ps : list lead) : M monitor unit :=
  modify (λ self, Monitor_ (permits self ++ ps) (osha_incidents self) (out self)).

Definition extend_osha_incidents (ps : list lead) : M monitor unit :=
  modify (λ self, Monitor_ (permits self) (osha_incidents self ++ ps) (out self)).

Definition set_permits (ps : list lead) : M monitor unit :=
  modify (λ self, Monitor_ ps (osha_incidents self) (out self)).

Definition set_osha_incidents (ps : list lead) : M monitor unit :=
  modify (λ self, Monitor_ (permits self) ps (out self)).

(** The dict literal [cities] of [search_ma_permits]. *)
Definition cities : list (string * list string) :=
  [ ("Middlesex", ["Cambridge"; "Lowell"; "Newton"; "Somerville";
                   "Framingham"; "Waltham"; "Malden"; "Medford"]);
    ("Norfolk", ["Quincy"; "Brookline"; "Weymouth"; "Braintree"; "Needham";
                 "Milton"]);
    ("Worcester", ["Worcester"; "Leominster"; "Fitchburg"; "Shrewsbury";
                   "Marlborough"]) ].

Section Methods.
Context {W : World}.

(** The body of the inner loop of [search_ma_permits]: one city, in its
    own [try]. ([time.sleep] only delays.) *)
Definition search_one_city (county city : string) : M monitor unit :=
  try_except
    (permit_data ← lift (_search_city_permits city county);
     extend_permits permit_data)
    (λ e, print (cat ["Error searching "; city; ": "; e])).

Definition search_ma_permits : M monitor (list lead) :=
  print "Searching Massachusetts building permits..." ;;
  for_each cities (λ entry,
    for_each entry.2 (λ city, search_one_city entry.1 city)) ;;
  gets permits.

Definition search_osha_incidents : M monitor (list lead) :=
  print "Searching OSHA incidents..." ;;
  try_except
    (incidents ← lift _query_osha_data;
     extend_osha_incidents incidents)
    (λ e, print (cat ["Error searching OSHA: "; e])) ;;
  gets osha_incidents.

(** The text [filter_by_industry] searches. *)
Definition industry_fields (item : lead) : string :=
  cat [ py_str (get_default item "name" (VStr "")); " ";
        py_str (get_default item "description" (VStr "")); " ";
        py_str (get_default item "industry" (VStr "")) ].

Definition industry_text (item : lead) : string := lower (industry_fields item).

(** The keyword loop of [filter_by_industry]: the item is appended at the
    first keyword found, and nothing is written into it. *)
Fixpoint industry_loop (keywords : list string) (text : string) (item : lead)
    (filtered : list lead) : list lead :=
  match keywords with
  | [] => filtered
  | industry_keyword :: rest =>
      if substringb (lower industry_keyword) text
      then filtered ++ [item]
      else industry_loop rest text item filtered
  end.

Definition filter_by_industry (data : list lead) : list lead :=
  foldl (λ filtered item,
           industry_loop TARGET_INDUSTRIES (industry_text item) item filtered)
        [] data.

Definition enrich_lead_data (lead_ : lead) : lead := lead_.

(** The opening of a field line, shared by the templates. *)
Definition field_open : string :=
  cat ["<div class="; dq; "field"; dq; "><span class="; dq; "label"; dq; ">"].

Definition _format_permit_html (permit : lead) : string :=
  let priority_class :=
    if truthy (get permit "priority") then "priority" else "" in
  let phone_line :=
    if truthy (get permit "phone")
    then cat [ field_open; "Phone:</span> ";
               py_str (get_default permit "phone" (VStr "N/A")); "</div>" ]
    else "" in
  let website_line :=
    if truthy (get permit "website")
    then cat [ field_open; "Website:</span> <a href="; dq;
               py_str (get permit "website"); dq; ">";
               py_str (get permit "website"); "</a></div>" ]
    else "" in
  cat
  [ nl;
    "        <div class="; dq; "lead "; priority_class; dq; ">"; nl;
    "            "; field_open; "Business:</span> ";
      py_str (get_default permit "name" (VStr "N/A")); "</div>"; nl;
    "            "; field_open; "Address:</span> ";
      py_str (get_default permit "address" (VStr "N/A")); "</div>"; nl;
    "            "; field_open; "City:</span> ";
      py_str (get_default permit "city" (VStr "N/A")); ", ";
      py_str (get_default permit "county" (VStr "N/A")); " County</div>"; nl;
    "            "; field_open; "Project Type:</span> ";
      py_str (get_default permit "project_type" (VStr "N/A")); "</div>"; nl;
    "            "; field_open; "Permit Date:</span> ";
      py_str (get_default permit "date" (VStr "N/A")); "</div>"; nl;
    "            "; field_open; "Industry:</span> ";
      py_str (get_default permit "industry" (VStr "N/A")); "</div>"; nl;
    "            "; phone_line; nl;
    "            "; website_line; nl;
    "            "; field_open; "Estimated Value:</span> $";
      py_str (get_default permit "value" (VStr "N/A")); "</div>"; nl;
    "        </div>"; nl;
    "        " ].

Definition _format_incident_html (incident : lead) : string :=
  let phone_line :=
    if truthy (get incident "phone")
    then cat [ field_open; "Phone:</span> ";
               py_str (get_default incident "phone" (VStr "N/A")); "</div>" ]
    else "" in
  cat
  [ nl;
    "        <div class="; dq; "lead priority"; dq; ">"; nl;
    "            "; field_open; "⚠️ Business:</span> ";
      py_str (get_default incident "name" (VStr "N/A")); "</div>"; nl;
    "            "; field_open; "Address:</span> ";
      py_str (get_default incident "address" (VStr "N/A")); "</div>"; nl;
    "            "; field_open; "City:</span> ";
      py_str (get_default incident "city" (VStr "N/A")); "</div>"; nl;
    "            "; field_open; "Industry:</span> ";
      py_str (get_default incident "industry" (VStr "N/A")); "</div>"; nl;
    "            "; field_open; "Incident Date:</span> ";
      py_str (get_default incident "date" (VStr "N/A")); "</div>"; nl;
    "            "; field_open; "Description:</span> ";
      py_str (get_default incident "description" (VStr "N/A")); "</div>"; nl;
    "            "; field_open; "Inspection #:</span> ";
      py_str (get_default incident "inspection_number" (VStr "N/A")); "</div>"; nl;
    "            "; phone_line; nl;
    "            <div class="; dq; "field"; dq; " style="; dq;
      "color: #e74c3c; margin-top: 10px;"; dq; ">"; nl;
    "                <strong>Action:</strong> High priority - facility just experienced safety incident"; nl;
    "            </div>"; nl;
    "        </div>"; nl;
    "        " ].

Definition report_head (today : string) (self : monitor) : string :=
  cat
  [ nl;
    "        <html>"; nl;
    "        <head>"; nl;
    "            <style>"; nl;
    "                body { font-family: Arial, sans-serif; }"; nl;
    "                h1 { color: #2c3e50; }"; nl;
    "                h2 { color: #34495e; margin-top: 30px; }"; nl;
    "                .lead { "; nl;
    "                    background-color: #f8f9fa; "; nl;
    "                    padding: 15px; "; nl;
    "                    margin: 10px 0; "; nl;
    "                    border-left: 4px solid #3498db;"; nl;
    "                }"; nl;
    "                .priority { border-left-color: #e74c3c; }"; nl;
    "                .field { margin: 5px 0; }"; nl;
    "                .label { font-weight: bold; }"; nl;
    "                .summary { "; nl;
    "                    background-color: #ecf0f1; "; nl;
    "                    padding: 15px; "; nl;
    "                    margin: 20px 0;"; nl;
    "                }"; nl;
    "            </style>"; nl;
    "        </head>"; nl;
    "        <body>"; nl;
    "            <h1>🎯 Daily Non-Slip Lead Report</h1>"; nl;
    "            <p>Generated: "; today; "</p>"; nl;
    "            "; nl;
    "            <div class="; dq; "summary"; dq; ">"; nl;
    "                <h3>Summary</h3>"; nl;
    "                <p><strong>New Building Permits:</strong> ";
      pretty (length (permits self)); "</p>"; nl;
    "                <p><strong>OSHA Incidents:</strong> ";
      pretty (length (osha_incidents self)); "</p>"; nl;
    "                <p><strong>Total Leads:</strong> ";
      pretty (length (permits self) + length (osha_incidents self)); "</p>"; nl;
    "            </div>"; nl;
    "        " ].

Definition report_foot : string :=
  cat
  [ nl;
    "            <hr>"; nl;
    "            <p style="; dq; "color: #7f8c8d; font-size: 12px;"; dq; ">"; nl;
    "                This is an automated report. Reply to this email won't be monitored."; nl;
    "            </p>"; nl;
    "        </body>"; nl;
    "        </html>"; nl;
    "        " ].

Definition generate_email_report : M monitor string :=
  self ← gets id;
  let today := now_strftime "%B %d, %Y" in
  let html := report_head today self in
  let html :=
    match permits self with
    | _ :: _ =>
        foldl (λ html permit, html +:+ _format_permit_html permit)
              (html +:+ "<h2>🏗️ New Building Permits & Renovations</h2>")
              (permits self)
    | [] => html +:+ "<h2>🏗️ New Building Permits & Renovations</h2><p>No new permits found today.</p>"
    end in
  let html :=
    match osha_incidents self with
    | _ :: _ =>
        foldl (λ html incident, html +:+ _format_incident_html incident)
              (html +:+ "<h2>⚠️ OSHA Safety Incidents</h2>")
              (osha_incidents self)
    | [] => html +:+ "<h2>⚠️ OSHA Safety Incidents</h2><p>No new incidents found today.</p>"
    end in
  ret (html +:+ report_foot).

(** [save_to_file]: the report is written as it was handed over. *)
Definition save_to_file (html_content : string) : M monitor unit :=
  let filename := cat ["lead_report_"; now_strftime "%Y%m%d"; ".html"] in
  emit (FileWrite filename html_content) ;;
  lift (file_write filename html_content) ;;
  print (cat ["Report saved to "; filename]).

Definition send_email (html_content : string) : M monitor unit :=
  let smtp_password := environ_get "GMAIL_APP_PASSWORD" in
  match smtp_password with
  | None | Some EmptyString =>
      print "ERROR: GMAIL_APP_PASSWORD environment variable not set" ;;
      print "Saving report to file instead..." ;;
      save_to_file html_content
  | Some password =>
      let msg :=
        Message (cat ["Non-Slip Leads - "; now_strftime "%B %d, %Y"])
                EMAIL_RECIPIENT EMAIL_RECIPIENT html_content in
      try_except
        (emit (SmtpSend msg) ;;
         lift (smtp_deliver msg password) ;;
         print (cat ["Email sent successfully to "; EMAIL_RECIPIENT]))
        (λ e,
           print (cat ["Error sending email: "; e]) ;;
           save_to_file html_content)
  end.

(** The row [save_to_csv] builds for a permit. *)
Definition permit_row (permit : lead) : lead :=
  list_to_map
    [ ("date_found", VStr (now_strftime "%Y-%m-%d"));
      ("type", VStr "Permit");
      ("name", get permit "name");
      ("address", get permit "address");
      ("city", get permit "city");
      ("county", get permit "county");
      ("industry", get permit "industry");
      ("phone", get permit "phone");
      ("website", get permit "website");
      ("details", get permit "project_type");
      ("priority", VStr "Medium") ].

(** The row [save_to_csv] builds for an OSHA incident. *)
Definition incident_row (incident : lead) : lead :=
  list_to_map
    [ ("date_found", VStr (now_strftime "%Y-%m-%d"));
      ("type", VStr "OSHA Incident");
      ("name", get incident "name");
      ("address", get incident "address");
      ("city", get incident "city");
      ("county", get incident "county");
      ("industry", get incident "industry");
      ("phone", get incident "phone");
      ("website", get incident "website");
      ("details", get incident "description");
      ("priority", VStr "High") ].

(** The list [all_leads] of [save_to_csv]. *)
Definition csv_rows (self : monitor) : list lead :=
  (permit_row <$> permits self) ++ (incident_row <$> osha_incidents self).

Definition save_to_csv : M monitor unit :=
  self ← gets id;
  let all_leads := csv_rows self in
  match all_leads with
  | [] => ret tt
  | _ :: _ =>
      let filename := cat ["leads_"; now_strftime "%Y%m%d"; ".csv"] in
      emit (CsvWrite filename all_leads) ;;
      lift (to_csv filename all_leads) ;;
      print (cat ["Leads saved to "; filename])
  end.

Definition rule : string := "==================================================".

Definition run : M monitor unit :=
  print rule ;;
  print "Starting Lead Monitor..." ;;
  print (cat ["Date: "; now_strftime "%Y-%m-%d %H:%M:%S"]) ;;
  print rule ;;
  search_ma_permits ;;
  search_osha_incidents ;;
  ps ← gets permits;
  set_permits (filter_by_industry ps) ;;
  os ← gets osha_incidents;
  set_osha_incidents (filter_by_industry os) ;;
  html_report ← generate_email_report;
  send_email html_report ;;
  save_to_csv ;;
  print rule ;;
  print "Lead Monitor Complete!" ;;
  ps ← gets permits;
  print (cat ["Permits found: "; pretty (length ps)]) ;;
  os ← gets osha_incidents;
  print (cat ["OSHA incidents found: "; pretty (length os)]) ;;
  print rule.

End Methods.

End Monitor.

(* ===================================================================== *)
(** * production_monitor.py *)
(* ===================================================================== *)

Module Production.

(** An [<item>] of the RSS feed: the text of each child the collector
    looks for, when the child is there. *)
Record rss_item : Type := RssItem {
  item_title : option string;
  item_link : option string;
  item_pubDate : option string;
  item_description : option string
}.

(** The network and the HTML parser, as the collectors use them. Every
    call may raise. *)
Class Web : Type := {
  response : Type;
  session_get : string → nat → result response;
  status_code : response → nat;
  quote : string → string;
  find_all_item : response → result (list rss_item);
  div : Type;
  find_all_div : response → result (list div);
  find_strong : div → result (option string);
  get_text : div → result string
}.

(** The frame of a collector: the list it accumulates ([leads],
    [incidents]) and what it has printed. *)
Record frame : Type := Frame {
  acc : list lead;
  stdout : list string
}.

Definition print (line : string) : M frame unit :=
  modify (λ fr, Frame (acc fr) (stdout fr ++ [line])).

Definition append (d : lead) : M frame unit :=
  modify (λ fr, Frame (acc fr ++ [d]) (stdout fr)).

Definition reset : M frame unit :=
  modify (λ fr, Frame [] (stdout fr)).

(** [x.text if x else ""] *)
Definition text_or_empty (o : option string) : string := default "" o.

(** The dict [search_google_news] builds for an item. *)
Definition news_lead (item : rss_item) (query : string) : lead :=
  list_to_map
    [ ("source", VStr "Google News");
      ("title", VStr (text_or_empty (item_title item)));
      ("description", VStr (text_or_empty (item_description item)));
      ("url", VStr (text_or_empty (item_link item)));
      ("date", VStr (text_or_empty (item_pubDate item)));
      ("search_query", VStr query);
      ("type", VStr "News Mention") ].

(** The dict [search_osha_data] builds for an incident. *)
Definition osha_incident (company text state : string) : lead :=
  list_to_map
    [ ("source", VStr "OSHA");
      ("company", VStr company);
      ("description", VStr text);
      ("type", VStr "Safety Incident");
      ("priority", VStr "High");
      ("state", VStr state) ].

Definition search_queries (location : string) : list string :=
  [ cat ["new restaurant opening "; location];
    cat ["restaurant renovation "; location];
    cat ["new hotel opening "; location];
    cat ["school renovation "; location];
    cat ["nursing home opened "; location];
    cat ["fitness center opening "; location] ].

Definition target_keywords : list string :=
  [ "restaurant"; "dining"; "food service";
    "hospital"; "healthcare"; "medical center"; "clinic";
    "school"; "university"; "college"; "education";
    "hotel"; "motel"; "resort"; "lodging";
    "country club"; "golf club";
    "assisted living"; "nursing home"; "senior living"; "retirement";
    "fitness center"; "gym"; "health club"; "wellness center" ].

Section Collectors.
Context {W : Web}.

(** The body of the query loop of [search_google_news]. *)
Definition search_one_query (query : string) : M frame unit :=
  print (cat ["Searching news: "; query]);;
  let encoded_query := quote query in
  let url := cat [ "https://news.google.com/rss/search?q="; encoded_query;
                   "&hl=en-US&gl=US&ceid=US:en" ] in
  response ← lift (session_get url 10);
  if status_code response =? 200
  then
    items ← lift (find_all_item response);
    for_each (take 5 items) (λ item, append (news_lead item query))
  else ret tt.

(** [search_google_news(query, location)]: one [try] around the whole
    query loop; the list [leads] lives outside it. *)
Definition search_google_news (query location : string) : M frame (list lead) :=
  reset;;
  try_except
    (for_each (search_queries location) search_one_query)
    (λ e, print (cat ["Error searching Google News: "; e]));;
  gets acc.

(** The body of the incident loop of [search_osha_data], in its own [try]
    whose handler is [continue]. *)
Definition search_one_div (state : string) (d : div) : M frame unit :=
  try_except
    (strong ← lift (find_strong d);
     let company :=
       match strong with
       | Some t => strip t
       | None => ""
       end in
     text ← lift (get_text d);
     let incident := osha_incident company text state in
     if substringb "MA" text || substringb "Massachusetts" text
     then append incident
     else ret tt)
    (λ e, ret tt).

Definition search_osha_data (state : string) : M frame (list lead) :=
  reset;;
  try_except
    (print "Accessing OSHA public data...";;
     let url := "https://www.osha.gov/severeinjury" in
     response ← lift (session_get url 10);
     if status_code response =? 200
     then
       incident_divs ← lift (find_all_div response);
       for_each (take 20 incident_divs) (search_one_div state)
     else ret tt)
    (λ e, print (cat ["Error accessing OSHA data: "; e]));;
  gets acc.

End Collectors.

(** The text the industry filter searches: title, description, company and
    category. *)
Definition industry_fields (d : lead) : string :=
  join " " [ py_str (get_default d "title" (VStr ""));
             py_str (get_default d "description" (VStr ""));
             py_str (get_default d "company" (VStr ""));
             py_str (get_default d "category" (VStr "")) ].

Definition industry_text (d : lead) : string := lower (industry_fields d).

(** The keyword loop of [filter_by_target_industries]. *)
Fixpoint industry_loop (keywords : list string) (text : string) (l : loc)
    (st : heap * list loc) : heap * list loc :=
  match keywords with
  | [] => st
  | keyword :: rest =>
      if substringb (lower keyword) text
      then (store st.1 l "matched_keyword" (VStr keyword), st.2 ++ [l])
      else industry_loop rest text l st
  end.

Definition industry_step (keywords : list string) (st : heap * list loc)
    (l : loc) : heap * list loc :=
  industry_loop keywords (industry_text (st.1 l)) l st.

(** [filter_by_target_industries(leads, keywords)]: the store after the
    call and the list it returns. *)
Definition filter_by_target_industries (h : heap) (leads : list loc)
    (keywords : list string) : heap * list loc :=
  foldl (industry_step keywords) (h, []) leads.

Definition rule : string :=
  "============================================================".

(** [run_full_scan]: the dicts the collectors created are the objects
    [0, 1, ...] of the store, in the order of [all_leads]. *)
Definition run_full_scan `{W : Web} : M frame (heap * list loc) :=
  print rule;;
  print "STARTING FULL LEAD SCAN";;
  print rule;;
  news_leads ← search_google_news "new business opening" "Massachusetts";
  osha_leads ← search_osha_data "MA";
  let all_leads := news_leads ++ osha_leads in
  let filtered :=
    filter_by_target_industries (heap_of all_leads) (locs_of all_leads)
                                target_keywords in
  print (cat [nl; "Total leads found: "; pretty (length all_leads)]);;
  print (cat ["Filtered to target industries: "; pretty (length filtered.2)]);;
  ret filtered.

Definition report_head (now : string) (leads osha_leads news_leads : list lead)
    : string :=
  cat
  [ nl;
    "    <html>"; nl;
    "    <head>"; nl;
    "        <style>"; nl;
    "            body { font-family: Arial, sans-serif; max-width: 900px; margin: 0 auto; }"; nl;
    "            h1 { color: #2c3e50; border-bottom: 3px solid #3498db; padding-bottom: 10px; }"; nl;
    "            .summary { background: #ecf0f1; padding: 20px; border-radius: 5px; margin: 20px 0; }"; nl;
    "            .lead { "; nl;
    "                background: #fff; "; nl;
    "                border: 1px solid #ddd; "; nl;
    "                padding: 15px; "; nl;
    "                margin: 15px 0; "; nl;
    "                border-left: 4px solid #3498db;"; nl;
    "                box-shadow: 0 2px 4px rgba(0,0,0,0.1);"; nl;
    "            }"; nl;
    "            .high-priority { border-left-color: #e74c3c; }"; nl;
    "            .lead-title { font-size: 18px; font-weight: bold; color: #2c3e50; margin-bottom: 10px; }"; nl;
    "            .lead-detail { margin: 5px 0; }"; nl;
    "            .label { font-weight: bold; color: #555; }"; nl;
    "            .source-tag { "; nl;
    "                display: inline-block; "; nl;
    "                background: #3498db; "; nl;
    "                color: white; "; nl;
    "                padding: 3px 10px; "; nl;
    "                border-radius: 3px; "; nl;
    "                font-size: 12px;"; nl;
    "                margin: 5px 0;"; nl;
    "            }"; nl;
    "            .priority-tag { background: #e74c3c; }"; nl;
    "        </style>"; nl;
    "    </head>"; nl;
    "    <body>"; nl;
    "        <h1>🎯 Daily Non-Slip Lead Report</h1>"; nl;
    "        <p style="; dq; "color: #666;"; dq; ">Generated: "; now; "</p>"; nl;
    "        "; nl;
    "        <div class="; dq; "summary"; dq; ">"; nl;
    "            <h2 style="; dq; "margin-top: 0;"; dq; ">📊 Summary</h2>"; nl;
    "            <p><strong>Total Leads:</strong> "; pretty (length leads); "</p>"; nl;
    "            <p><strong>High Priority (OSHA):</strong> ";
      pretty (length osha_leads); "</p>"; nl;
    "            <p><strong>News Mentions:</strong> ";
      pretty (length news_leads); "</p>"; nl;
    "        </div>"; nl;
    "        "; nl;
    "        <h2>🔥 High Priority Leads</h2>"; nl;
    "    " ].

(** The entry of an OSHA lead. *)
Definition osha_entry (lead_ : lead) : string :=
  cat
  [ nl;
    "            <div class="; dq; "lead high-priority"; dq; ">"; nl;
    "                <span class="; dq; "source-tag priority-tag"; dq;
      ">OSHA INCIDENT</span>"; nl;
    "                <div class="; dq; "lead-title"; dq; ">";
      py_str (get_default lead_ "company" (VStr "Unknown Business"));
      "</div>"; nl;
    "                <div class="; dq; "lead-detail"; dq; "><span class="; dq;
      "label"; dq; ">Description:</span> ";
      py_str (get_default lead_ "description" (VStr "N/A")); "</div>"; nl;
    "                <div class="; dq; "lead-detail"; dq; " style="; dq;
      "color: #e74c3c; font-weight: bold; margin-top: 10px;"; dq; ">"; nl;
    "                    ⚠️ ACTION: Contact immediately - recent safety incident indicates need for slip prevention solutions"; nl;
    "                </div>"; nl;
    "            </div>"; nl;
    "            " ].

(** The entry of a news lead. *)
Definition news_entry (lead_ : lead) : string :=
  cat
  [ nl;
    "            <div class="; dq; "lead"; dq; ">"; nl;
    "                <span class="; dq; "source-tag"; dq; ">NEWS</span>"; nl;
    "                <div class="; dq; "lead-title"; dq; ">";
      py_str (get_default lead_ "title" (VStr "N/A")); "</div>"; nl;
    "                <div class="; dq; "lead-detail"; dq; "><span class="; dq;
      "label"; dq; ">Description:</span> ";
      py_str (get_default lead_ "description" (VStr "N/A")); "</div>"; nl;
    "                <div class="; dq; "lead-detail"; dq; "><span class="; dq;
      "label"; dq; ">Date:</span> ";
      py_str (get_default lead_ "date" (VStr "N/A")); "</div>"; nl;
    "                <div class="; dq; "lead-detail"; dq; "><span class="; dq;
      "label"; dq; ">Industry Match:</span> ";
      py_str (get_default lead_ "matched_keyword" (VStr "N/A")); "</div>"; nl;
    "                <div class="; dq; "lead-detail"; dq; "><a href="; dq;
      py_str (get_default lead_ "url" (VStr "#")); dq;
      ">Read full article →</a></div>"; nl;
    "            </div>"; nl;
    "            " ].

Definition report_foot : string :=
  cat
  [ nl;
    "        <hr style="; dq;
      "margin: 40px 0; border: none; border-top: 1px solid #ddd;"; dq; ">"; nl;
    "        <p style="; dq; "color: #999; font-size: 12px;"; dq; ">"; nl;
    "            This is an automated lead generation report for your non-slip business.<br>"; nl;
    "            Delivered daily to Dhead20@gmail.com"; nl;
    "        </p>"; nl;
    "    </body>"; nl;
    "    </html>"; nl;
    "    " ].

(** [[l for l in leads if l.get('source') == src]] *)
Definition by_source (src : string) (leads : list lead) : list lead :=
  filter (λ l, get l "source" = VStr src) leads.

(** [format_leads_for_email(leads)], with the formatted time of the call. *)
Definition format_leads_for_email (now : string) (leads : list lead) : string :=
  let html :=
    report_head now leads (by_source "OSHA" leads) (by_source "Google News" leads) in
  let osha_leads := by_source "OSHA" leads in
  let html :=
    match osha_leads with
    | _ :: _ => foldl (λ html lead_, html +:+ osha_entry lead_) html osha_leads
    | [] => html +:+ "<p>No OSHA incidents found today.</p>"
    end in
  let html := html +:+ "<h2>📰 New Business Activities</h2>" in
  let news_leads := by_source "Google News" leads in
  let html :=
    match news_leads with
    | _ :: _ => foldl (λ html lead_, html +:+ news_entry lead_) html news_leads
    | [] => html +:+ "<p>No news mentions found today.</p>"
    end in
  html +:+ report_foot.

End Production.

(* ===================================================================== *)
(** * osha_scraper.py *)
(* ===================================================================== *)

Module Osha.

Definition slip_fall_keywords : list string :=
  [ "slip"; "trip"; "fall"; "floor"; "walking"; "surface";
    "wet"; "housekeeping"; "guardrail"; "stair"; "ladder" ].

(** The text [filter_slip_fall_incidents] searches. *)
Definition description (incident : lead) : string :=
  lower (cat [ py_str (get_default incident "violations" (VStr "")); " ";
               py_str (get_default incident "hazards" (VStr "")) ]).

Definition slip_fall_step (st : heap * list loc) (l : loc) : heap * list loc :=
  if existsb (λ keyword, substringb keyword (description (st.1 l)))
             slip_fall_keywords
  then
    let h1 := store st.1 l "priority" (VStr "High") in
    let h2 := store h1 l "match_reason" (VStr "Slip/trip/fall related incident") in
    (h2, st.2 ++ [l])
  else st.

(** [filter_slip_fall_incidents(incidents)]: the store after the call and
    the list it returns. *)
Definition filter_slip_fall_incidents (h : heap) (incidents : list loc)
    : heap * list loc :=
  foldl slip_fall_step (h, []) incidents.

(** The scraper prints; its state here is what it has printed. *)
Definition say (line : string) : M (list string) unit :=
  modify (λ out, out ++ [line]).

(** [search_establishments(state, days_back)]: the body of the [try]
    builds a URL and the search parameters and prints; nothing is appended
    to [incidents]. *)
Definition search_establishments (state : string) (days_back : nat)
    : M (list string) (list lead) :=
  try_except
    (say (cat [ "Searching OSHA database for "; state; " incidents in last ";
                pretty days_back; " days..." ]))
    (λ e, say (cat ["Error searching OSHA: "; e]));;
  mret [].

(** The county loop of [search_by_county], threading [all_incidents]. *)
Fixpoint county_loop (counties : list string) (state : string)
    (all_incidents : list lead) : M (list string) (list lead) :=
  match counties with
  | [] => mret all_incidents
  | county :: rest =>
      say (cat ["Searching "; county; " County, "; state; "..."]);;
      incidents ← search_establishments state 30;
      let county_incidents :=
        filter (λ i, Is_true (substringb (lower county)
                     (lower (py_str (get_default i "county" (VStr ""))))))
               incidents in
      county_loop rest state (all_incidents ++ county_incidents)
  end.

Definition search_by_county (counties : list string) (state : string)
    : M (list string) (list lead) :=
  county_loop counties state [].

(** [scrape_osha_incidents(counties)]: the dicts found are the objects
    [0, 1, ...] of the store. *)
Definition scrape_osha_incidents (counties : list string)
    : M (list string) (heap * list loc) :=
  incidents ← search_by_county counties "MA";
  let slip_fall_incidents :=
    filter_slip_fall_incidents (heap_of incidents) (locs_of incidents) in
  say (cat ["Total incidents found: "; pretty (length incidents)]);;
  say (cat ["Slip/fall related: "; pretty (length slip_fall_incidents.2)]);;
  mret slip_fall_incidents.

End Osha.

(* ===================================================================== *)
(** * permit_scrapers.py *)
(* ===================================================================== *)

Module Permits.

(** [s.split()] without argument: the maximal runs of characters that are
    not white space, in order. *)
Fixpoint split (s : string) : list string :=
  match s with
  | EmptyString => []
  | String c s' =>
      if is_space c then split s'
      else
        match s' with
        | EmptyString => [String c EmptyString]
        | String c' _ =>
            if is_space c' then String c EmptyString :: split s'
            else
              match split s' with
              | w :: ws => String c w :: ws
              | [] => [String c EmptyString]
              end
        end
  end.

(** [PermitScraper.clean_text(text)]: the empty text for [None] and for
    the empty string, the words joined by single spaces otherwise. *)
Definition clean_text (text : value) : string :=
  match text with
  | VNone => ""
  | VStr s => if truthy text then join " " (split (strip s)) else ""
  end.

End Permits.

(* ===================================================================== *)
(** * historical_data_collector.py: the collectors and the summary *)
(* ===================================================================== *)

Module HistoricalRun.

Definition START_DATE : string := "2025-01-01".
Definition END_DATE : string := "2025-10-31".

(** [f"{n:02d}"] for a natural number. *)
Definition pad2 (n : nat) : string :=
  if n <? 10 then cat ["0"; pretty n] else pretty n.

(** [f"{year}-{month:02d}"] *)
Definition year_month (year month : nat) : string :=
  cat [pretty year; "-"; pad2 month].

(** The queries of [collect_news_historical]. *)
Definition queries : list string :=
  [ "new restaurant opening Massachusetts";
    "restaurant renovation Massachusetts";
    "new hotel Massachusetts";
    "hotel renovation Massachusetts";
    "hospital expansion Massachusetts";
    "healthcare facility Massachusetts";
    "new gym Massachusetts";
    "fitness center opening Massachusetts";
    "nursing home Massachusetts";
    "assisted living Massachusetts";
    "school renovation Massachusetts" ].

(** The dict [search_google_news_by_month] builds for an item; [today] is
    the formatted date of the call. *)
Definition month_lead (today : string) (item : Production.rss_item)
    (query : string) (year month : nat) : lead :=
  list_to_map
    [ ("date_found", VStr today);
      ("source", VStr "Google News");
      ("title", VStr (Production.text_or_empty (Production.item_title item)));
      ("description",
         VStr (Production.text_or_empty (Production.item_description item)));
      ("url", VStr (Production.text_or_empty (Production.item_link item)));
      ("published_date",
         VStr (Production.text_or_empty (Production.item_pubDate item)));
      ("search_query", VStr query);
      ("search_month", VStr (year_month year month));
      ("type", VStr "News Mention") ].

(** The record [search_osha_historical] appends once it has reached the
    page. *)
Definition osha_note : lead :=
  list_to_map
    [ ("source", VStr "OSHA");
      ("note",
         VStr "Historical OSHA data requires accessing their bulk downloads");
      ("recommendation",
         VStr "Focus on recent incidents (last 90 days) for highest value") ].

Definition rule : string :=
  "======================================================================".

(** [for x in xs: all.extend(call(x))], threading the local list. *)
Fixpoint extend_each {S A : Type} (xs : list A) (call : A → M S (list lead))
    (all : list lead) : M S (list lead) :=
  match xs with
  | [] => mret all
  | x :: rest => results ← call x; extend_each rest call (all ++ results)
  end.

Section Collectors.
Context {W : Production.Web}.
(** The date [datetime.now().strftime('%Y-%m-%d')] gives, and the text
    [soup.get_text()] extracts from a page. *)
Variable today : string.
Variable soup_get_text : Production.response → result string.

(** The search URL for a query and a month. *)
Definition month_url (query : string) (year month : nat) : string :=
  let start_date := cat [pretty year; "-"; pad2 month; "-01"] in
  let end_date :=
    if month =? 12 then cat [pretty year; "-12-31"]
    else cat [pretty year; "-"; pad2 (month + 1); "-01"] in
  let encoded_query :=
    Production.quote
      (cat [query; " after:"; start_date; " before:"; end_date]) in
  cat [ "https://news.google.com/rss/search?q="; encoded_query;
        "&hl=en-US&gl=US&ceid=US:en" ].

(** [search_google_news_by_month(query, year, month)]: its own [try]
    around the whole body; the list [leads] lives outside it. *)
Definition search_google_news_by_month (query : string) (year month : nat)
    : M Production.frame (list lead) :=
  Production.reset;;
  try_except
    (Production.print
       (cat ["  Searching "; query; " for "; year_month year month; "..."]);;
     response ← lift (Production.session_get (month_url query year month) 15);
     if Production.status_code response =? 200
     then
       items ← lift (Production.find_all_item response);
       for_each items (λ item,
         Production.append (month_lead today item query year month));;
       Production.print (cat ["    Found "; pretty (length items); " articles"])
     else mret tt)
    (λ e, Production.print (cat ["    Error: "; e]));;
  gets Production.acc.

(** [collect_news_historical()]: every month from January to October,
    every query. *)
Definition collect_news_historical : M Production.frame (list lead) :=
  Production.print (cat [nl; rule]);;
  Production.print "COLLECTING HISTORICAL GOOGLE NEWS DATA";;
  Production.print rule;;
  all_news ← extend_each (seq 1 10) (λ month,
      Production.print (cat [nl; "📅 Month: 2025-"; pad2 month]);;
      extend_each queries (λ query,
        search_google_news_by_month query 2025 month) [])
    [];
  Production.print
    (cat [nl; "✅ Total news articles found: "; pretty (length all_news)]);;
  mret all_news.

(** [search_osha_historical()] *)
Definition search_osha_historical : M Production.frame (list lead) :=
  Production.print (cat [nl; rule]);;
  Production.print "COLLECTING HISTORICAL OSHA DATA";;
  Production.print rule;;
  Production.reset;;
  try_except
    (Production.print "Accessing OSHA severe injury database...";;
     response ← lift (Production.session_get
                        "https://www.osha.gov/severeinjury" 15);
     if Production.status_code response =? 200
     then
       text ← lift (soup_get_text response);
       Production.print "✅ Connected to OSHA database";;
       Production.print
         "   (Note: OSHA typically shows last 30-90 days online)";;
       Production.print
         "   For full historical data, would need to use OSHA's data downloads";;
       Production.append osha_note
     else mret tt)
    (λ e, Production.print (cat ["Error accessing OSHA: "; e]));;
  gets Production.acc.

(** [run()] up to the point where the local [final_leads] is known: the
    collection and the two filters. The value is [final_leads], as objects
    of the store that holds the collected dicts. *)
Definition run_final_leads : M Production.frame (heap * list loc) :=
  Production.print rule;;
  Production.print "HISTORICAL DATA COLLECTION";;
  Production.print (cat ["Period: "; START_DATE; " to "; END_DATE]);;
  Production.print
    (cat ["Counties: "; join ", " Historical.TARGET_COUNTIES]);;
  Production.print rule;;
  news_leads ← collect_news_historical;
  osha_leads ← search_osha_historical;
  let all_leads := news_leads ++ osha_leads in
  Production.print
    (cat [nl; "📊 Total leads collected: "; pretty (length all_leads)]);;
  Production.print (cat [nl; "🔍 Filtering by target industries..."]);;
  let filtered :=
    Historical.filter_by_target_industries (heap_of all_leads)
                                           (locs_of all_leads) in
  Production.print
    (cat ["   After industry filter: "; pretty (length filtered.2)]);;
  Production.print "🔍 Filtering by target counties...";;
  let final := Historical.filter_by_target_counties filtered.1 filtered.2 in
  Production.print
    (cat ["   After county filter: "; pretty (length final.2)]);;
  mret final.

End Collectors.

(** The grouping loops of [create_summary_report]: a dict of lists, in
    insertion order. [group_add k x groups] is
    [if k not in groups: groups[k] = []] followed by [groups[k].append(x)]. *)
Fixpoint group_add {A : Type} (k : value) (x : A)
    (groups : list (value * list A)) : list (value * list A) :=
  match groups with
  | [] => [(k, [x])]
  | (k', xs) :: rest =>
      if decide (k = k') then (k', xs ++ [x]) :: rest
      else (k', xs) :: group_add k x rest
  end.

Definition group_by {A : Type} (key : A → value) (xs : list A)
    : list (value * list A) :=
  foldl (λ groups x, group_add (key x) x groups) [] xs.

(** [by_month] and [by_industry] *)
Definition by_month (leads : list lead) : list (value * list lead) :=
  group_by (λ lead_, get_default lead_ "search_month" (VStr "Unknown")) leads.

Definition by_industry (leads : list lead) : list (value * list lead) :=
  group_by (λ lead_, get_default lead_ "matched_keyword" (VStr "Other")) leads.

End HistoricalRun.

(* ===================================================================== *)
(** * The county filter and the slip/fall filter over any case mapping *)
(* ===================================================================== *)

(** [str.lower()] maps Unicode text; [PyStr.lower] is that mapping on
    ASCII text. The two filters below search for names with a "k", which
    [str.lower()] also makes of the Kelvin sign, so they are given with
    the case mapping as the parameter [str_lower]: the definitions are
    those of [Historical] and [Osha] with [str_lower] where the source
    calls [.lower()], and they are these at [PyStr.lower]. The city loops
    do not lower-case and are taken from [Historical] as they are. *)
Module Cased.

Section CaseMapping.
Variable str_lower : string → string.

(** [text = f"{lead.get('title', '')} {lead.get('description', '')}".lower()] *)
Definition county_text (d : lead) : string :=
  str_lower (Historical.county_fields d).

(** [for county in TARGET_COUNTIES: if county.lower() in text: ...; break] *)
Fixpoint county_loop (counties : list string) (text : string) (l : loc)
    (st : heap * list loc) : heap * list loc :=
  match counties with
  | [] => st
  | county :: rest =>
      if substringb (str_lower county) text
      then (store st.1 l "county" (VStr county), st.2 ++ [l])
      else county_loop rest text l st
  end.

Definition county_step (st : heap * list loc) (l : loc) : heap * list loc :=
  let text := county_text (st.1 l) in
  Historical.cities_loop Historical.cities text l
    (county_loop Historical.TARGET_COUNTIES text l st).

(** [filter_by_target_counties(leads)]: the store after the call, and the
    list [filtered] it returns. *)
Definition filter_by_target_counties (h : heap) (leads : list loc)
    : heap * list loc :=
  foldl county_step (h, []) leads.

(** [f"{incident.get('violations', '')} {incident.get('hazards', '')}".lower()] *)
Definition description (incident : lead) : string :=
  str_lower (cat [ py_str (get_default incident "violations" (VStr "")); " ";
                   py_str (get_default incident "hazards" (VStr "")) ]).

Definition slip_fall_step (st : heap * list loc) (l : loc) : heap * list loc :=
  if existsb (λ keyword, substringb keyword (description (st.1 l)))
             Osha.slip_fall_keywords
  then
    let h1 := store st.1 l "priority" (VStr "High") in
    let h2 := store h1 l "match_reason" (VStr "Slip/trip/fall related incident") in
    (h2, st.2 ++ [l])
  else st.

(** [filter_slip_fall_incidents(incidents)]: the store after the call and
    the list it returns. *)
Definition filter_slip_fall_incidents (h : heap) (incidents : list loc)
    : heap * list loc :=
  foldl slip_fall_step (h, []) incidents.

End CaseMapping.

End Cased.

(* ===================================================================== *)
(** * Notions used to state the properties *)
(* ===================================================================== *)

Module Props.

(** [k] is the first keyword of [keywords], in list order, that occurs in
    [text] whatever the case of the letters. *)
Definition FirstCIMatch (keywords : list string) (text k : string) : Prop :=
  ∃ pre post, keywords = pre ++ k :: post ∧ CISubstring k text ∧
    ∀ k', k' ∈ pre → ¬ CISubstring k' text.

(** The stamping contract of an industry filter over lead dicts: every
    kept item carries, as [matched_keyword], the first keyword found. *)
Definition StampsFirstMatch (filter_ : list lead → list lead)
    (fields : lead → string) (keywords : list string) : Prop :=
  ∀ data item, item ∈ filter_ data →
    ∃ k, FirstCIMatch keywords (fields item) k ∧
         item !! "matched_keyword" = Some (VStr k).

(** A filter step that keeps the leads satisfying [cond] and rewrites each
    kept lead by [F]; the industry filters are of this shape. *)
Definition stamp_step (cond : lead → bool) (F : lead → lead)
    (st : heap * list loc) (l : loc) : heap * list loc :=
  if cond (st.1 l) then (<[l := F (st.1 l)]> st.1, st.2 ++ [l]) else st.

(** The industry filters as such steps: a lead is kept when a keyword
    occurs in its text, and is stamped with the first one. *)
Definition has_keyword (text_of : lead → string) (keywords : list string)
    (d : lead) : bool :=
  bool_decide (is_Some (first_match keywords (text_of d))).

Definition stamp_keyword (text_of : lead → string) (keywords : list string)
    (d : lead) : lead :=
  match first_match keywords (text_of d) with
  | Some k => <["matched_keyword" := VStr k]> d
  | None => d
  end.

(** The industry filter of historical_data_collector.py in these terms. *)
Definition hist_kept : lead → bool :=
  has_keyword Historical.industry_text Historical.TARGET_INDUSTRIES.

Definition hist_stamp : lead → lead :=
  stamp_keyword Historical.industry_text Historical.TARGET_INDUSTRIES.

(** The dict after the assignments [d[k] = v] of [kvs], in order. *)
Definition assign (kvs : list (string * value)) (d : lead) : lead :=
  foldl (λ d kv, <[kv.1 := kv.2]> d) d kvs.

(** The county filter, lead by lead. The assignments it makes to a lead
    whose lower-cased text is [text], in the order it makes them: the
    county loop first, then one pair per county of the table that has a
    city in the text. *)
Definition county_stamp (counties : list string) (text : string)
    : list (string * value) :=
  match first_match counties text with
  | Some county => [("county", VStr county)]
  | None => []
  end.

Definition first_city (city_list : list string) (text : string)
    : option string :=
  List.find (λ city, substringb city text) city_list.

Fixpoint city_stamps (table : list (string * list string)) (text : string)
    : list (string * value) :=
  match table with
  | [] => []
  | (county, city_list) :: rest =>
      match first_city city_list text with
      | Some city => [("county", VStr county); ("city", VStr (title city))]
      | None => []
      end ++ city_stamps rest text
  end.

Definition geo_stamps (text : string) : list (string * value) :=
  county_stamp Historical.TARGET_COUNTIES text
  ++ city_stamps Historical.cities text.

Definition geo_kept (d : lead) : bool :=
  bool_decide (geo_stamps (Historical.county_text d) ≠ []).

Definition geo_stamp (d : lead) : lead :=
  assign (geo_stamps (Historical.county_text d)) d.

(** The first city of the table, in its iteration order, that is in the
    text, with its county. *)
Fixpoint first_table_city (table : list (string * list string)) (text : string)
    : option (string * string) :=
  match table with
  | [] => None
  | (county, city_list) :: rest =>
      match first_city city_list text with
      | Some city => Some (county, city)
      | None => first_table_city rest text
      end
  end.

(** A configured county is named in the title or description. *)
Definition CountyMatch (d : lead) : Prop :=
  ∃ county, county ∈ Historical.TARGET_COUNTIES ∧
            CISubstring county (Historical.county_fields d).

(** A city of the city-to-county table is named there. *)
Definition CityMatch (d : lead) : Prop :=
  ∃ county city_list city,
    (county, city_list) ∈ Historical.cities ∧ city ∈ city_list ∧
    CISubstring city (Historical.county_fields d).

(** What one incident [div] contributes to [search_osha_data]: nothing
    when reading it raises or when its text names neither "MA" nor
    "Massachusetts". *)
Definition incident_of `{W : Production.Web} (state : string)
    (d : Production.div) : option lead :=
  match Production.find_strong d with
  | Raise _ => None
  | Ok strong =>
      match Production.get_text d with
      | Raise _ => None
      | Ok text =>
          if substringb "MA" text || substringb "Massachusetts" text
          then Some (Production.osha_incident
                       (match strong with Some t => strip t | None => "" end)
                       text state)
          else None
      end
  end.

(** The incidents [search_osha_data] returns, and what it prints. *)
Definition osha_incidents_of `{W : Production.Web} (state : string) : list lead :=
  match Production.session_get "https://www.osha.gov/severeinjury" 10 with
  | Raise _ => []
  | Ok resp =>
      if Production.status_code resp =? 200
      then match Production.find_all_div resp with
           | Raise _ => []
           | Ok divs => omap (incident_of state) (take 20 divs)
           end
      else []
  end.

Definition osha_warning `{W : Production.Web} : list string :=
  match Production.session_get "https://www.osha.gov/severeinjury" 10 with
  | Raise e => [cat ["Error accessing OSHA data: "; e]]
  | Ok resp =>
      if Production.status_code resp =? 200
      then match Production.find_all_div resp with
           | Raise e => [cat ["Error accessing OSHA data: "; e]]
           | Ok divs => []
           end
      else []
  end.

(** What one city contributes to [search_ma_permits]: its permits, or
    nothing and a warning when the search raises. *)
Definition city_permits `{W : Monitor.World} (county city : string) : list lead :=
  match Monitor._search_city_permits city county with
  | Ok permit_data => permit_data
  | Raise _ => []
  end.

Definition city_warning `{W : Monitor.World} (county city : string)
    : list Monitor.event :=
  match Monitor._search_city_permits city county with
  | Ok _ => []
  | Raise e => [Monitor.Print (cat ["Error searching "; city; ": "; e])]
  end.

Definition collected_permits `{W : Monitor.World} : list lead :=
  concat ((λ entry, concat (city_permits entry.1 <$> entry.2)) <$> Monitor.cities).

Definition collected_warnings `{W : Monitor.World} : list Monitor.event :=
  concat ((λ entry, concat (city_warning entry.1 <$> entry.2)) <$> Monitor.cities).

(** The same for the OSHA query of lead_monitor.py. *)
Definition queried_incidents `{W : Monitor.World} : list lead :=
  match Monitor._query_osha_data with
  | Ok incidents => incidents
  | Raise _ => []
  end.

Definition query_warning `{W : Monitor.World} : list Monitor.event :=
  match Monitor._query_osha_data with
  | Ok _ => []
  | Raise e => [Monitor.Print (cat ["Error searching OSHA: "; e])]
  end.

(** What one query of [search_google_news] yields: the leads of the first
    five items, or the exception of the request or of the parser. *)
Definition query_leads `{W : Production.Web} (query : string)
    : result (list lead) :=
  match Production.session_get
          (cat [ "https://news.google.com/rss/search?q="; Production.quote query;
                 "&hl=en-US&gl=US&ceid=US:en" ]) 10 with
  | Raise e => Raise e
  | Ok resp =>
      if Production.status_code resp =? 200
      then match Production.find_all_item resp with
           | Raise e => Raise e
           | Ok items =>
               Ok ((λ item, Production.news_lead item query) <$> take 5 items)
           end
      else Ok []
  end.

(** The leads [search_google_news] has gathered, and the lines it has
    printed, over a list of queries: the loop ends at the first query
    that raises. *)
Fixpoint news_collect `{W : Production.Web} (queries : list string)
    : list lead * list string :=
  match queries with
  | [] => ([], [])
  | query :: rest =>
      match query_leads query with
      | Ok leads =>
          (leads ++ (news_collect rest).1,
           cat ["Searching news: "; query] :: (news_collect rest).2)
      | Raise e =>
          ([], [ cat ["Searching news: "; query];
                 cat ["Error searching Google News: "; e] ])
      end
  end.

(** A network on which the first news query answers with one item, every
    other news query times out, and the OSHA page lists three incidents. *)
Definition demo_web : Production.Web := {|
  Production.response := string;
  Production.session_get url timeout :=
    if prefixb "https://news.google.com/rss/search?q=new restaurant" url
       || prefixb "https://www.osha.gov" url
    then Ok url else Raise "Connection timed out";
  Production.status_code resp := 200;
  Production.quote q := q;
  Production.find_all_item resp :=
    Ok [ Production.RssItem (Some "Harborside Restaurant opens in Quincy")
                            (Some "https://example.org/1") None None ];
  Production.div := (option string * string)%type;
  Production.find_all_div resp :=
    Ok [ (Some " Mercy Hospital ", "Mercy Hospital, Lowell, MA: fall from ladder");
         (None, "Plant in Austin, TX: burn");
         (Some "Bay Foods", "Bay Foods, Massachusetts: slip on wet floor") ];
  Production.find_strong d := Ok d.1;
  Production.get_text d := Ok d.2
|}.

(** A computation that returns from every state: no exception leaves it. *)
Definition returns {S A : Type} (m : M S A) : Prop :=
  ∀ s, ∃ a s', m s = (Ok a, s').

(** The message [send_email] hands to the SMTP server, and the file
    [save_to_file] writes. *)
Definition email_message `{W : Monitor.World} (html : string) : Monitor.message :=
  Monitor.Message
    (cat ["Non-Slip Leads - "; Monitor.now_strftime "%B %d, %Y"])
    Monitor.EMAIL_RECIPIENT Monitor.EMAIL_RECIPIENT html.

Definition report_file `{W : Monitor.World} : string :=
  cat ["lead_report_"; Monitor.now_strftime "%Y%m%d"; ".html"].

(** Delivery fails: the credential is absent (unset or empty), or the
    SMTP exchange raises. *)
Definition DeliveryFails `{W : Monitor.World} (html : string) : Prop :=
  match Monitor.environ_get "GMAIL_APP_PASSWORD" with
  | None | Some EmptyString => True
  | Some password =>
      ∃ e, Monitor.smtp_deliver (email_message html) password = Raise e
  end.

Definition is_file_write (e : Monitor.event) : bool :=
  match e with
  | Monitor.FileWrite _ _ => true
  | _ => false
  end.

(** A world in which the permit search of Lowell and the OSHA query
    fail, Quincy has one permit, the SMTP server refuses the login, and
    files can be written. *)
Definition demo_world : Monitor.World := {|
  Monitor._search_city_permits city county :=
    if bool_decide (city = "Lowell") then Raise "HTTP 503"
    else if bool_decide (city = "Quincy")
    then Ok [ {[ "name" := VStr "Harbor Hotel"; "industry" := VStr "hotel";
                 "city" := VStr "Quincy"; "county" := VStr "Norfolk" ]} ]
    else Ok [];
  Monitor._query_osha_data := Raise "Connection reset";
  Monitor.environ_get name := Some "app-password";
  Monitor.now_strftime fmt := "20250301";
  Monitor.smtp_deliver msg password := Raise "SMTPAuthenticationError";
  Monitor.file_write filename content := Ok tt;
  Monitor.to_csv filename rows := Ok tt
|}.

(** What [run_full_scan] returns on that network. *)
Definition demo_scan : heap * list loc :=
  let all_leads :=
    (news_collect (W := demo_web) (Production.search_queries "Massachusetts")).1
    ++ osha_incidents_of (W := demo_web) "MA" in
  Production.filter_by_target_industries (heap_of all_leads)
    (locs_of all_leads) Production.target_keywords.

(** The same world with the credential unset. *)
Definition demo_world_unset : Monitor.World := {|
  Monitor._search_city_permits := Monitor.stub_search_city_permits;
  Monitor._query_osha_data := Monitor.stub_query_osha_data;
  Monitor.environ_get name := None;
  Monitor.now_strftime fmt := "20250301";
  Monitor.smtp_deliver msg password := Ok tt;
  Monitor.file_write filename content := Ok tt;
  Monitor.to_csv filename rows := Ok tt
|}.

(** A field line of the permit and incident templates. *)
Definition field_line (label value : string) : string :=
  cat [Monitor.field_open; label; "</span> "; value; "</div>"].

(** A detail line of the news and OSHA entries of production_monitor.py. *)
Definition detail_line (label value : string) : string :=
  cat [ "<div class="; dq; "lead-detail"; dq; "><span class="; dq; "label"; dq;
        ">"; label; "</span> "; value; "</div>" ].

Definition title_line (value : string) : string :=
  cat ["<div class="; dq; "lead-title"; dq; ">"; value; "</div>"].

(** What [filter_slip_fall_incidents] writes into an incident it keeps. *)
Definition slip_fall_kept (d : lead) : bool :=
  existsb (λ keyword, substringb keyword (Osha.description d))
          Osha.slip_fall_keywords.

Definition slip_fall_stamp (d : lead) : lead :=
  <["match_reason" := VStr "Slip/trip/fall related incident"]>
    (<["priority" := VStr "High"]> d).

End Props.

Import Props.

(* ===================================================================== *)
(** * Further notions *)
(* ===================================================================== *)

Module MoreProps.

(** Every character of [s] satisfies [P]. *)
Fixpoint all_chars (P : ascii → bool) (s : string) : bool :=
  match s with
  | EmptyString => true
  | String c s' => P c && all_chars P s'
  end.

(** A word: not empty, and without white space. *)
Definition is_word (w : string) : bool :=
  match w with
  | EmptyString => false
  | String _ _ => all_chars (λ c, negb (is_space c)) w
  end.

(** The report [generate_email_report] builds from the two lists of a
    monitor. *)
Definition report_of `{W : Monitor.World} (ps os : list lead) : string :=
  match (Monitor.generate_email_report (Monitor.Monitor_ ps os [])).1 with
  | Ok html => html
  | Raise _ => ""
  end.

(** The table [save_to_csv] exports to. *)
Definition csv_file `{W : Monitor.World} : string :=
  cat ["leads_"; Monitor.now_strftime "%Y%m%d"; ".csv"].

(** What [send_email] may do to the outside for a report [html]. *)
Definition delivers `{W : Monitor.World} (html : string) (e : Monitor.event)
    : Prop :=
  match e with
  | Monitor.Print _ => True
  | Monitor.SmtpSend msg => msg = email_message html
  | Monitor.FileWrite filename content =>
      filename = report_file ∧ content = html
  | Monitor.CsvWrite _ _ => False
  end.

(** An event of a run over the permits [ps] and the incidents [os]: what
    is sent, written or exported is built from these lists. *)
Definition carries `{W : Monitor.World} (ps os : list lead) (e : Monitor.event)
    : Prop :=
  match e with
  | Monitor.Print _ => True
  | Monitor.SmtpSend msg => msg = email_message (report_of ps os)
  | Monitor.FileWrite filename content =>
      filename = report_file ∧ content = report_of ps os
  | Monitor.CsvWrite filename rows =>
      filename = csv_file ∧
      rows = Monitor.csv_rows (Monitor.Monitor_ ps os [])
  end.

(** A step of the monitor that leaves the two lists [ps] and [os] as they
    are, and whose events all satisfy [P]. *)
Definition tracks {A : Type} (ps os : list lead) (P : Monitor.event → Prop)
    (m : M Monitor.monitor A) : Prop :=
  ∀ s, Monitor.permits s = ps → Monitor.osha_incidents s = os →
       Monitor.permits (m s).2 = ps ∧ Monitor.osha_incidents (m s).2 = os ∧
       ∃ events, Monitor.out (m s).2 = Monitor.out s ++ events ∧
                 Forall P events.

(** What one call of [search_google_news_by_month] contributes: a lead for
    every item of the feed, or nothing when the request or the parser
    raises or the status is not 200. *)
Definition month_leads `{W : Production.Web} (today query : string)
    (year month : nat) : list lead :=
  match Production.session_get (HistoricalRun.month_url query year month) 15 with
  | Raise _ => []
  | Ok resp =>
      if Production.status_code resp =? 200
      then match Production.find_all_item resp with
           | Raise _ => []
           | Ok items =>
               (λ item, HistoricalRun.month_lead today item query year month)
                 <$> items
           end
      else []
  end.

(** The contributions of all the calls of [collect_news_historical], month
    by month and query by query. *)
Definition collected_news `{W : Production.Web} (today : string) : list lead :=
  concat ((λ month,
             concat ((λ query, month_leads today query 2025 month)
                       <$> HistoricalRun.queries))
            <$> seq 1 10).

(** A network on which the OSHA page lists three incidents, the second
    of which cannot be read. *)
Definition demo_web_unreadable : Production.Web := {|
  Production.response := string;
  Production.session_get url timeout := Ok url;
  Production.status_code resp := 200;
  Production.quote q := q;
  Production.find_all_item resp := Ok [];
  Production.div := (option string * string)%type;
  Production.find_all_div resp :=
    Ok [ (Some "Mercy Hospital", "Mercy Hospital, Lowell, MA: fall from ladder");
         (None, "Quarry, Quincy, MA: struck by load");
         (Some "Bay Foods", "Bay Foods, Massachusetts: slip on wet floor") ];
  Production.find_strong d :=
    match d.1 with
    | Some _ => Ok d.1
    | None => Raise "'NoneType' object is not callable"
    end;
  Production.get_text d := Ok d.2
|}.

(** The Phone and the Website line of a permit entry, for the value
    [permit.get('phone')] and [permit.get('website')]: empty when the
    value is missing, [None] or the empty text. *)
Definition phone_slot (v : value) : string :=
  if truthy v then field_line "Phone:" (py_str v) else "".

Definition website_slot (v : value) : string :=
  if truthy v
  then cat [ Monitor.field_open; "Website:</span> <a href="; dq; py_str v; dq;
             ">"; py_str v; "</a></div>" ]
  else "".

(** The keys the three entry templates read. *)
Definition permit_fields : list string :=
  [ "priority"; "name"; "address"; "city"; "county"; "project_type"; "date";
    "industry"; "phone"; "website"; "value" ].

Definition news_fields : list string :=
  [ "title"; "description"; "date"; "matched_keyword"; "url" ].

Definition osha_fields : list string := [ "company"; "description" ].


Section CasedNotions.
Variable str_lower : string → string.







(** A slip/fall keyword occurs in the lower-cased violations and hazards. *)
Definition slip_fall_named (d : lead) : bool :=
  existsb (λ keyword, substringb keyword (Cased.description str_lower d))
          Osha.slip_fall_keywords.

End CasedNotions.

End MoreProps.

Import MoreProps.

(* ===================================================================== *)
(** * Facts about the string operations *)
(* ===================================================================== *)

Section StringFacts.

Lemma app_cons (a : ascii) (s t : string) :
  String a s +:+ t = String a (s +:+ t).
Proof. reflexivity. Qed.

Lemma app_empty_l (s : string) : EmptyString +:+ s = s.
Proof. reflexivity. Qed.

Lemma app_empty_r (s : string) : s +:+ EmptyString = s.
Proof. induction s as [|a s IH]; [done|]. by rewrite app_cons, IH. Qed.

Lemma app_assoc_str (s t u : string) : (s +:+ t) +:+ u = s +:+ t +:+ u.
Proof. induction s as [|a s IH]; [done|]. by rewrite !app_cons, IH. Qed.

Lemma lower_app (s t : string) : lower (s +:+ t) = lower s +:+ lower t.
Proof.
  induction s as [|a s IH]; [done|].
  rewrite app_cons. simpl. by rewrite IH, app_cons.
Qed.

(** A split of [lower s] comes from a split of [s]. *)
Lemma lower_split (s a b : string) :
  lower s = a +:+ b → ∃ s1 s2, s = s1 +:+ s2 ∧ lower s1 = a ∧ lower s2 = b.
Proof.
  revert s. induction a as [|c a IH]; intros s Hs.
  - exists EmptyString, s. by rewrite !app_empty_l in *.
  - destruct s as [|d s]; [done|].
    rewrite app_cons in Hs. simpl in Hs. injection Hs as Hc Hs.
    destruct (IH s Hs) as (s1 & s2 & -> & H1 & H2).
    exists (String d s1), s2. rewrite app_cons. simpl. by rewrite Hc, H1.
Qed.

Lemma prefixb_spec (p s : string) :
  prefixb p s = true ↔ ∃ post, s = p +:+ post.
Proof.
  revert s. induction p as [|a p IH]; intros s; simpl.
  - split; [|done]. intros _. by exists s.
  - destruct s as [|b s].
    + split; [done|]. by intros [post ?].
    + rewrite andb_true_iff, bool_decide_eq_true, IH. split.
      * intros [-> [post ->]]. by exists post.
      * intros [post Hpost]. rewrite app_cons in Hpost.
        injection Hpost as -> ->. eauto.
Qed.

Lemma substringb_spec (p s : string) :
  substringb p s = true ↔ Substring p s.
Proof.
  unfold Substring. induction s as [|b s IH].
  - simpl. rewrite orb_false_r, prefixb_spec. split.
    + intros [post ->]. by exists EmptyString, post.
    + intros ([|c pre] & post & H); [by exists post|done].
  - change (substringb p (String b s))
      with (prefixb p (String b s) || substringb p s).
    rewrite orb_true_iff, prefixb_spec, IH. split.
    + intros [[post ->]|(pre & post & ->)].
      * by exists EmptyString, post.
      * by exists (String b pre), post.
    + intros ([|c pre] & post & H).
      * left. by exists post.
      * right. rewrite app_cons in H. injection H as -> ->. eauto.
Qed.

Lemma substringb_lower_spec (k t : string) :
  substringb (lower k) (lower t) = true ↔ CISubstring k t.
Proof.
  rewrite substringb_spec. unfold Substring, CISubstring. split.
  - intros (pre & post & H).
    apply lower_split in H as (s1 & s2 & -> & _ & H).
    apply lower_split in H as (s3 & s4 & -> & H3 & _).
    by exists s1, s3, s4.
  - intros (pre & mid & post & -> & Hmid).
    exists (lower pre), (lower post). by rewrite !lower_app, Hmid.
Qed.

Lemma to_lower_idemp (c : ascii) : to_lower (to_lower c) = to_lower c.
Proof.
  destruct c as [[] [] [] [] [] [] [] []]; reflexivity.
Qed.

Lemma lower_idemp (s : string) : lower (lower s) = lower s.
Proof.
  induction s as [|a s IH]; [done|]. simpl. by rewrite to_lower_idemp, IH.
Qed.

Lemma cat_app (xs ys : list string) : cat (xs ++ ys) = cat xs +:+ cat ys.
Proof.
  induction xs as [|x xs IH]; [done|].
  simpl. change (cat (xs ++ ys)) with (foldr String.append EmptyString (xs ++ ys)) in IH.
  unfold cat in *. simpl. by rewrite IH, app_assoc_str.
Qed.

(** A run of consecutive pieces of an f-string occurs in the result. *)
Lemma cat_substring (pre mid post : list string) :
  Substring (cat mid) (cat (pre ++ mid ++ post)).
Proof. exists (cat pre), (cat post). by rewrite !cat_app. Qed.

Example lower_ex : lower "New Restaurant, 55+" = "new restaurant, 55+".
Proof. reflexivity. Qed.

Example title_ex : title "cambridge" = "Cambridge".
Proof. reflexivity. Qed.

Example title_ex2 : title "o'neil mc-kay 2nd" = "O'Neil Mc-Kay 2Nd".
Proof. reflexivity. Qed.

Example substring_ex : substringb "bar" "the barn" = true.
Proof. reflexivity. Qed.

Example strip_ex : strip "  a b  " = "a b".
Proof. reflexivity. Qed.

Example join_ex : join " " ["a"; ""; "c"] = "a  c".
Proof. reflexivity. Qed.

End StringFacts.

(* ===================================================================== *)
(** * Facts about keyword matching *)
(* ===================================================================== *)

Section MatcherFacts.

Lemma first_match_Some (ks : list string) (text k : string) :
  first_match ks text = Some k ↔
  ∃ pre post, ks = pre ++ k :: post ∧ substringb (lower k) text = true ∧
    ∀ k', k' ∈ pre → substringb (lower k') text = false.
Proof.
  induction ks as [|k0 ks IH]; simpl.
  - split; [done|]. intros (pre & post & H & _). by destruct pre.
  - destruct (substringb (lower k0) text) eqn:E.
    + split.
      * intros [= <-]. exists [], ks. split_and!; [done..|]. by intros ? ?%elem_of_nil.
      * intros ([|k1 pre] & post & H & Hk & Hpre); simplify_eq/=; [done|].
        rewrite Hpre in E; [done|]. apply list_elem_of_here.
    + rewrite IH. split.
      * intros (pre & post & -> & Hk & Hpre). exists (k0 :: pre), post.
        split_and!; [done..|]. intros k' [->|?]%elem_of_cons; auto.
      * intros ([|k1 pre] & post & H & Hk & Hpre); simplify_eq/=; [congruence|].
        exists pre, post. split_and!; [done..|].
        intros k' ?. apply Hpre. by apply list_elem_of_further.
Qed.

Lemma first_match_None (ks : list string) (text : string) :
  first_match ks text = None ↔
  ∀ k, k ∈ ks → substringb (lower k) text = false.
Proof.
  induction ks as [|k0 ks IH]; simpl.
  - split; [|done]. by intros _ ? ?%elem_of_nil.
  - destruct (substringb (lower k0) text) eqn:E.
    + split; [done|]. intros H. rewrite H in E; [done|]. apply list_elem_of_here.
    + rewrite IH. split.
      * intros H k [->|?]%elem_of_cons; auto.
      * intros H k ?. apply H. by apply list_elem_of_further.
Qed.

Lemma first_match_ci (ks : list string) (t k : string) :
  first_match ks (lower t) = Some k ↔ FirstCIMatch ks t k.
Proof.
  rewrite first_match_Some. unfold FirstCIMatch.
  split; intros (pre & post & -> & Hk & Hpre); exists pre, post; split_and!; try done.
  - by apply substringb_lower_spec.
  - intros k' Hin Hci. apply substringb_lower_spec in Hci.
    by rewrite Hpre in Hci.
  - by apply substringb_lower_spec.
  - intros k' Hin. apply not_true_is_false. intros Hci.
    by apply (Hpre k' Hin), substringb_lower_spec.
Qed.

Lemma first_match_is_Some (ks : list string) (t : string) :
  is_Some (first_match ks (lower t)) ↔ ∃ k, k ∈ ks ∧ CISubstring k t.
Proof.
  split.
  - intros [k Hk]. apply first_match_ci in Hk as (pre & post & -> & Hk & _).
    exists k. split; [|done]. apply elem_of_app. right. apply list_elem_of_here.
  - intros (k & Hin & Hk). destruct (first_match ks (lower t)) eqn:E; [by eexists|].
    rewrite first_match_None in E. apply substringb_lower_spec in Hk.
    by rewrite (E k Hin) in Hk.
Qed.

End MatcherFacts.

(* ===================================================================== *)
(** * Filters that keep and stamp *)
(* ===================================================================== *)

Section StampFilter.

Variables (cond : lead → bool) (F : lead → lead).
Hypothesis cond_F : ∀ d, cond (F d) = cond d.
Hypothesis F_idem : ∀ d, F (F d) = F d.

Lemma foldl_stamp_step (ls : list loc) (h : heap) (acc : list loc) :
  (foldl (stamp_step cond F) (h, acc) ls).2
    = acc ++ filter (λ l, cond (h l)) ls ∧
  ∀ x, (foldl (stamp_step cond F) (h, acc) ls).1 x
    = if decide (x ∈ ls ∧ cond (h x)) then F (h x) else h x.
Proof.
  revert h acc. induction ls as [|l ls IH]; intros h acc.
  - cbn [foldl]. split; [by rewrite app_nil_r|].
    intros x. rewrite decide_False; [done|]. by intros [?%elem_of_nil _].
  - cbn [foldl]. unfold stamp_step at 2 4. cbn [fst snd].
    destruct (cond (h l)) eqn:E.
    + destruct (IH (<[l:=F (h l)]> h) (acc ++ [l])) as [IH2 IH1]. split.
      * rewrite IH2, filter_cons_True by (by rewrite E).
        rewrite <- app_assoc. simpl. do 2 f_equal.
        apply list_filter_iff. intros x.
        destruct (decide (l = x)) as [<-|Hne].
        -- by rewrite fn_lookup_insert, cond_F.
        -- by rewrite fn_lookup_insert_ne.
      * intros x. rewrite IH1.
        destruct (decide (l = x)) as [<-|Hne].
        -- rewrite fn_lookup_insert, F_idem, cond_F, E.
           rewrite (decide_True (P := l ∈ l :: ls ∧ true));
             [by destruct (decide _)|].
           split; [apply list_elem_of_here|done].
        -- rewrite fn_lookup_insert_ne by done.
           apply decide_ext. rewrite elem_of_cons.
           split; [intros [? ?]; auto|]. intros [[->|?] Hc]; done.
    + destruct (IH h acc) as [IH2 IH1]. split.
      * rewrite IH2, filter_cons_False; [done|]. intros Hc. by rewrite E in Hc.
      * intros x. rewrite IH1. apply decide_ext. rewrite elem_of_cons.
        split; [intros [? ?]; auto|]. intros [[->|?] Hc]; [|done].
        by rewrite E in Hc.
Qed.

End StampFilter.

(* ===================================================================== *)
(** * The industry filters *)
(* ===================================================================== *)

Section DictFacts.

Lemma get_default_insert_ne (d : lead) (k k' : string) (v dflt : value) :
  k ≠ k' → get_default (<[k:=v]> d) k' dflt = get_default d k' dflt.
Proof. intros Hne. unfold get_default. by rewrite lookup_insert_ne. Qed.

Lemma store_same (h : heap) (l : loc) (k : string) (v : value) :
  store h l k v l = <[k:=v]> (h l).
Proof. unfold store. by rewrite fn_lookup_insert. Qed.

Lemma store_other (h : heap) (l x : loc) (k : string) (v : value) :
  l ≠ x → store h l k v x = h x.
Proof. intros Hne. unfold store. by rewrite fn_lookup_insert_ne. Qed.

Lemma foldl_ext_step {A B} (f g : A → B → A) (l : list B) (a : A) :
  (∀ a b, f a b = g a b) → foldl f a l = foldl g a l.
Proof.
  intros Hfg. revert a. induction l as [|b l IH]; intros a; [done|].
  simpl. by rewrite Hfg, IH.
Qed.

End DictFacts.

Section KeywordFilter.

Variable text_of : lead → string.
Hypothesis text_of_stamp :
  ∀ d v, text_of (<["matched_keyword":=v]> d) = text_of d.
Variable keywords : list string.

Lemma has_keyword_stamp (d : lead) :
  has_keyword text_of keywords (stamp_keyword text_of keywords d)
  = has_keyword text_of keywords d.
Proof.
  unfold has_keyword, stamp_keyword.
  destruct (first_match keywords (text_of d)) eqn:E; [|by rewrite E].
  by rewrite text_of_stamp, E.
Qed.

Lemma stamp_keyword_idemp (d : lead) :
  stamp_keyword text_of keywords (stamp_keyword text_of keywords d)
  = stamp_keyword text_of keywords d.
Proof.
  unfold stamp_keyword.
  destruct (first_match keywords (text_of d)) eqn:E; [|by rewrite E].
  by rewrite text_of_stamp, E, insert_insert_eq.
Qed.

(** What a keep-and-stamp filter returns and what it leaves in the store. *)
Lemma keyword_filter_char (h : heap) (leads : list loc) :
  let r := foldl (stamp_step (has_keyword text_of keywords)
                             (stamp_keyword text_of keywords)) (h, []) leads in
  r.2 = filter (λ l, has_keyword text_of keywords (h l)) leads ∧
  ∀ x, r.1 x = if decide (x ∈ leads ∧ has_keyword text_of keywords (h x))
               then stamp_keyword text_of keywords (h x) else h x.
Proof.
  apply (foldl_stamp_step _ _ has_keyword_stamp stamp_keyword_idemp leads h []).
Qed.

End KeywordFilter.

Section IndustryFilters.

Lemma historical_industry_loop (ks : list string) (text : string) (l : loc)
    (st : heap * list loc) :
  Historical.industry_loop ks text l st =
  match first_match ks text with
  | Some k => (store st.1 l "matched_keyword" (VStr k), st.2 ++ [l])
  | None => st
  end.
Proof.
  induction ks as [|k ks IH]; simpl; [done|].
  by destruct (substringb (lower k) text).
Qed.

Lemma production_industry_loop (ks : list string) (text : string) (l : loc)
    (st : heap * list loc) :
  Production.industry_loop ks text l st =
  match first_match ks text with
  | Some k => (store st.1 l "matched_keyword" (VStr k), st.2 ++ [l])
  | None => st
  end.
Proof.
  induction ks as [|k ks IH]; simpl; [done|].
  by destruct (substringb (lower k) text).
Qed.

Lemma historical_industry_step (st : heap * list loc) (l : loc) :
  Historical.industry_step st l =
  stamp_step (has_keyword Historical.industry_text Historical.TARGET_INDUSTRIES)
             (stamp_keyword Historical.industry_text Historical.TARGET_INDUSTRIES)
             st l.
Proof.
  unfold Historical.industry_step, stamp_step, has_keyword, stamp_keyword.
  rewrite historical_industry_loop.
  destruct (first_match _ _) eqn:E.
  - rewrite bool_decide_eq_true_2 by eauto. done.
  - rewrite bool_decide_eq_false_2; [done|]. by intros [? ?].
Qed.

Lemma production_industry_step (ks : list string) (st : heap * list loc)
    (l : loc) :
  Production.industry_step ks st l =
  stamp_step (has_keyword Production.industry_text ks)
             (stamp_keyword Production.industry_text ks) st l.
Proof.
  unfold Production.industry_step, stamp_step, has_keyword, stamp_keyword.
  rewrite production_industry_loop.
  destruct (first_match _ _) eqn:E.
  - rewrite bool_decide_eq_true_2 by eauto. done.
  - rewrite bool_decide_eq_false_2; [done|]. by intros [? ?].
Qed.

Lemma historical_industry_fields_insert (d : lead) (k : string) (v : value) :
  k ≠ "title" → k ≠ "description" → k ≠ "search_query" →
  Historical.industry_fields (<[k:=v]> d) = Historical.industry_fields d.
Proof.
  intros. unfold Historical.industry_fields.
  by rewrite !get_default_insert_ne.
Qed.

Lemma production_industry_fields_insert (d : lead) (k : string) (v : value) :
  k ≠ "title" → k ≠ "description" → k ≠ "company" → k ≠ "category" →
  Production.industry_fields (<[k:=v]> d) = Production.industry_fields d.
Proof.
  intros. unfold Production.industry_fields.
  by rewrite !get_default_insert_ne.
Qed.

Lemma historical_industry_char (h : heap) (leads : list loc) :
  let r := Historical.filter_by_target_industries h leads in
  let kept := has_keyword Historical.industry_text Historical.TARGET_INDUSTRIES in
  r.2 = filter (λ l, kept (h l)) leads ∧
  ∀ x, r.1 x = if decide (x ∈ leads ∧ kept (h x))
               then stamp_keyword Historical.industry_text
                                  Historical.TARGET_INDUSTRIES (h x)
               else h x.
Proof.
  unfold Historical.filter_by_target_industries.
  rewrite (foldl_ext_step _ _ _ _ historical_industry_step).
  apply keyword_filter_char. intros d v. unfold Historical.industry_text.
  by rewrite historical_industry_fields_insert.
Qed.

Lemma production_industry_char (h : heap) (leads : list loc)
    (ks : list string) :
  let r := Production.filter_by_target_industries h leads ks in
  let kept := has_keyword Production.industry_text ks in
  r.2 = filter (λ l, kept (h l)) leads ∧
  ∀ x, r.1 x = if decide (x ∈ leads ∧ kept (h x))
               then stamp_keyword Production.industry_text ks (h x)
               else h x.
Proof.
  unfold Production.filter_by_target_industries.
  rewrite (foldl_ext_step _ _ _ _ (production_industry_step ks)).
  apply keyword_filter_char. intros d v. unfold Production.industry_text.
  by rewrite production_industry_fields_insert.
Qed.

(** [filter_by_industry] of lead_monitor.py is a plain filter. *)
Lemma monitor_industry_loop (ks : list string) (text : string) (item : lead)
    (filtered : list lead) :
  Monitor.industry_loop ks text item filtered =
  if bool_decide (is_Some (first_match ks text))
  then filtered ++ [item] else filtered.
Proof.
  induction ks as [|k ks IH]; simpl; [done|].
  destruct (substringb (lower k) text); [|done].
  by rewrite bool_decide_eq_true_2 by eauto.
Qed.

Lemma monitor_industry_char (data : list lead) :
  Monitor.filter_by_industry data =
  filter (λ item, has_keyword Monitor.industry_text Monitor.TARGET_INDUSTRIES item)
         data.
Proof.
  unfold Monitor.filter_by_industry.
  enough (∀ acc, foldl (λ filtered item,
            Monitor.industry_loop Monitor.TARGET_INDUSTRIES
              (Monitor.industry_text item) item filtered) acc data
          = acc ++ filter (λ item, has_keyword Monitor.industry_text
                                     Monitor.TARGET_INDUSTRIES item) data)
    as H by apply (H []).
  induction data as [|item data IH]; intros acc; cbn [foldl].
  - by rewrite app_nil_r.
  - rewrite IH, monitor_industry_loop.
    fold (has_keyword Monitor.industry_text Monitor.TARGET_INDUSTRIES item).
    destruct (has_keyword _ _ item) eqn:E.
    + rewrite filter_cons_True by (by rewrite E).
      by rewrite <- app_assoc.
    + rewrite filter_cons_False; [done|]. intros Hc. by rewrite E in Hc.
Qed.

End IndustryFilters.

(* ===================================================================== *)
(** * C2: the industry filter and the keyword it records *)
(* ===================================================================== *)

Section IndustryContract.

Lemma has_keyword_ci (fields : lead → string) (ks : list string) (d : lead) :
  has_keyword (λ d, lower (fields d)) ks d ↔
  ∃ k, k ∈ ks ∧ CISubstring k (fields d).
Proof.
  unfold has_keyword. rewrite bool_decide_spec. apply first_match_is_Some.
Qed.

Lemma stamp_keyword_lookup (fields : lead → string) (ks : list string)
    (d : lead) :
  has_keyword (λ d, lower (fields d)) ks d →
  ∃ k, FirstCIMatch ks (fields d) k ∧
       stamp_keyword (λ d, lower (fields d)) ks d !! "matched_keyword"
       = Some (VStr k).
Proof.
  unfold has_keyword, stamp_keyword. rewrite bool_decide_spec.
  intros [k Hk]. rewrite Hk. exists k. split.
  - by apply first_match_ci.
  - apply lookup_insert_eq.
Qed.

(** lead_monitor.py: a lead that [filter_by_industry] keeps for the keyword
    "restaurant" and that carries no [matched_keyword]. *)
Lemma filter_by_industry_records_no_keyword :
  let item : lead := {[ "name" := VStr "Luigi's Restaurant" ]} in
  Monitor.filter_by_industry [item] = [item] ∧
  FirstCIMatch Monitor.TARGET_INDUSTRIES (Monitor.industry_fields item)
               "restaurant" ∧
  item !! "matched_keyword" = None ∧
  ¬ StampsFirstMatch Monitor.filter_by_industry Monitor.industry_fields
                      Monitor.TARGET_INDUSTRIES.
Proof.
  set (item := {[ "name" := VStr "Luigi's Restaurant" ]} : lead).
  assert (Hkeep : Monitor.filter_by_industry [item] = [item])
    by (vm_compute; reflexivity).
  assert (Hnone : item !! "matched_keyword" = None) by reflexivity.
  split_and!; [done| |done|].
  - apply first_match_ci. vm_compute. reflexivity.
  - intros Hc. destruct (Hc [item] item) as (k & _ & Hk).
    + rewrite Hkeep. apply list_elem_of_here.
    + by rewrite Hnone in Hk.
Qed.

(** C2 (amended). A lead is kept by an industry filter exactly when some
    keyword of the configured list occurs, whatever the case of the
    letters, in the text made of its fields. The filters of
    historical_data_collector.py and production_monitor.py stamp every
    kept lead with [matched_keyword], the first such keyword in list
    order, and leave the searched text as it was; [filter_by_industry] of
    lead_monitor.py keeps the same leads and records no keyword. *)
Theorem industry_filter_contract :
  (∀ (h : heap) (leads : list loc),
     let r := Historical.filter_by_target_industries h leads in
     (∀ l, l ∈ r.2 ↔
           l ∈ leads ∧ ∃ k, k ∈ Historical.TARGET_INDUSTRIES ∧
                            CISubstring k (Historical.industry_fields (h l))) ∧
     (∀ l, l ∈ r.2 →
           Historical.industry_fields (r.1 l) = Historical.industry_fields (h l) ∧
           ∃ k, FirstCIMatch Historical.TARGET_INDUSTRIES
                             (Historical.industry_fields (h l)) k ∧
                r.1 l !! "matched_keyword" = Some (VStr k))) ∧
  (∀ (h : heap) (leads : list loc) (keywords : list string),
     let r := Production.filter_by_target_industries h leads keywords in
     (∀ l, l ∈ r.2 ↔
           l ∈ leads ∧ ∃ k, k ∈ keywords ∧
                            CISubstring k (Production.industry_fields (h l))) ∧
     (∀ l, l ∈ r.2 →
           Production.industry_fields (r.1 l) = Production.industry_fields (h l) ∧
           ∃ k, FirstCIMatch keywords (Production.industry_fields (h l)) k ∧
                r.1 l !! "matched_keyword" = Some (VStr k))) ∧
  (∀ (data : list lead) (item : lead),
     item ∈ Monitor.filter_by_industry data ↔
     item ∈ data ∧ ∃ k, k ∈ Monitor.TARGET_INDUSTRIES ∧
                        CISubstring k (Monitor.industry_fields item)).
Proof.
  split_and!.
  - intros h leads r.
    destruct (historical_industry_char h leads) as [Hout Hheap].
    fold r in Hout, Hheap. split.
    + intros l. rewrite Hout, list_elem_of_filter.
      rewrite (has_keyword_ci Historical.industry_fields). tauto.
    + intros l Hl. rewrite Hout, list_elem_of_filter in Hl.
      destruct Hl as [Hk Hin]. rewrite Hheap, decide_True by done.
      split; [|by apply (stamp_keyword_lookup Historical.industry_fields)].
      unfold stamp_keyword. destruct (first_match _ _); [|done].
      by apply historical_industry_fields_insert.
  - intros h leads keywords r.
    destruct (production_industry_char h leads keywords) as [Hout Hheap].
    fold r in Hout, Hheap. split.
    + intros l. rewrite Hout, list_elem_of_filter.
      rewrite (has_keyword_ci Production.industry_fields). tauto.
    + intros l Hl. rewrite Hout, list_elem_of_filter in Hl.
      destruct Hl as [Hk Hin]. rewrite Hheap, decide_True by done.
      split; [|by apply (stamp_keyword_lookup Production.industry_fields)].
      unfold stamp_keyword. destruct (first_match _ _); [|done].
      by apply production_industry_fields_insert.
  - intros data item. rewrite monitor_industry_char, list_elem_of_filter.
    rewrite (has_keyword_ci Monitor.industry_fields). tauto.
Qed.

End IndustryContract.

(* ===================================================================== *)
(** * The county filter: one lead *)
(* ===================================================================== *)

Section AssignFacts.

Lemma assign_app (a b : list (string * value)) (d : lead) :
  assign (a ++ b) d = assign b (assign a d).
Proof. unfold assign. by rewrite foldl_app. Qed.

Lemma assign_union (kvs : list (string * value)) (d : lead) :
  assign kvs d = list_to_map (reverse kvs) ∪ d.
Proof.
  revert d. induction kvs as [|[k v] kvs IH]; intros d.
  - simpl. by rewrite (left_id_L ∅ (∪)).
  - change (assign ((k, v) :: kvs) d) with (assign kvs (<[k:=v]> d)).
    rewrite IH, reverse_cons, list_to_map_app. simpl.
    rewrite insert_empty, <- (assoc_L (∪)).
    by rewrite <- insert_union_singleton_l.
Qed.

Lemma assign_idemp (kvs : list (string * value)) (d : lead) :
  assign kvs (assign kvs d) = assign kvs d.
Proof.
  rewrite !assign_union, (assoc_L (∪)). by rewrite (idemp_L (∪)).
Qed.

Lemma assign_lookup_ne (kvs : list (string * value)) (d : lead) (k : string) :
  k ∉ kvs.*1 → assign kvs d !! k = d !! k.
Proof.
  revert d. induction kvs as [|[k' v] kvs IH]; intros d Hk; [done|].
  change (assign ((k', v) :: kvs) d) with (assign kvs (<[k':=v]> d)).
  rewrite fmap_cons, not_elem_of_cons in Hk. destruct Hk as [Hne Hk].
  rewrite IH by done. by rewrite lookup_insert_ne.
Qed.

Lemma assign_insert_comm (kvs : list (string * value)) (d : lead)
    (k : string) (v : value) :
  k ∉ kvs.*1 → assign kvs (<[k:=v]> d) = <[k:=v]> (assign kvs d).
Proof.
  revert d. induction kvs as [|[k' v'] kvs IH]; intros d Hk; [done|].
  change (assign ((k', v') :: kvs) ?x) with (assign kvs (<[k':=v']> x)).
  rewrite fmap_cons, not_elem_of_cons in Hk. destruct Hk as [Hne Hk].
  rewrite <- IH by done. f_equal. by apply insert_insert_ne.
Qed.

End AssignFacts.

Section CountyStepFacts.

Lemma py_in_spec (h : heap) (l : loc) (ls : list loc) :
  py_in h l ls = true ↔ ∃ y, y ∈ ls ∧ h y = h l.
Proof.
  unfold py_in. rewrite existsb_exists. split.
  - intros (y & Hin & Hy). exists y. split; [by apply list_elem_of_In|].
    apply orb_true_iff in Hy as [Hy|Hy]; apply bool_decide_eq_true in Hy;
      by subst.
  - intros (y & Hin & Hy). exists y. split; [by apply list_elem_of_In|].
    apply orb_true_iff. right. by apply bool_decide_eq_true.
Qed.

Lemma county_loop_char (counties : list string) (text : string) (l : loc)
    (st : heap * list loc) :
  Historical.county_loop counties text l st =
  match first_match counties text with
  | Some county => (store st.1 l "county" (VStr county), st.2 ++ [l])
  | None => st
  end.
Proof.
  induction counties as [|c cs IH]; simpl; [done|].
  by destruct (substringb (lower c) text).
Qed.

Lemma city_loop_char (county : string) (city_list : list string)
    (text : string) (l : loc) (st : heap * list loc) :
  Historical.city_loop county city_list text l st =
  match first_city city_list text with
  | Some city =>
      let h2 := store (store st.1 l "county" (VStr county)) l "city"
                      (VStr (title city)) in
      (h2, if py_in h2 l st.2 then st.2 else st.2 ++ [l])
  | None => st
  end.
Proof.
  unfold first_city. induction city_list as [|c cs IH]; simpl; [done|].
  by destruct (substringb c text).
Qed.

Lemma store_store_assign (h : heap) (l : loc) (k1 k2 : string) (v1 v2 : value)
    (x : loc) :
  store (store h l k1 v1) l k2 v2 x =
  if decide (x = l) then assign [(k1, v1); (k2, v2)] (h l) else h x.
Proof.
  case_decide as Hx.
  - subst. by rewrite !store_same.
  - by rewrite !store_other.
Qed.

(** The store after the city loops: the lead has received the city stamps,
    nothing else has changed. *)
Lemma cities_loop_heap (table : list (string * list string)) (text : string)
    (l : loc) (st : heap * list loc) (x : loc) :
  (Historical.cities_loop table text l st).1 x =
  if decide (x = l) then assign (city_stamps table text) (st.1 l) else st.1 x.
Proof.
  revert st. induction table as [|[county city_list] rest IH]; intros st.
  - simpl. by case_decide; subst.
  - cbn [Historical.cities_loop city_stamps]. rewrite IH, city_loop_char.
    destruct (first_city city_list text) as [city|]; [|done].
    cbn [fst snd]. rewrite assign_app, !store_store_assign.
    rewrite (decide_True (P := l = l)) by done. by case_decide.
Qed.

(** The list after the city loops: the lead has been appended at most
    once, and not at all when it was in the list already or when no city
    of the table is in the text. *)
Lemma cities_loop_list (table : list (string * list string)) (text : string)
    (l : loc) (st : heap * list loc) :
  ∃ suf, (Historical.cities_loop table text l st).2 = st.2 ++ suf ∧
         (suf = [] ∨ suf = [l]) ∧
         (l ∈ st.2 → suf = []) ∧
         (city_stamps table text = [] → suf = []).
Proof.
  revert st. induction table as [|[county city_list] rest IH]; intros st.
  - exists []. simpl. rewrite app_nil_r. split_and!; auto.
  - cbn [Historical.cities_loop city_stamps]. rewrite city_loop_char.
    destruct (first_city city_list text) as [city|].
    + cbn zeta. set (h2 := store _ l "city" _).
      destruct (py_in h2 l st.2) eqn:Hin.
      * destruct (IH (h2, st.2)) as (suf & Hs & Hor & Hl & _).
        exists suf. split_and!; [done..|]. by intros [=].
      * destruct (IH (h2, st.2 ++ [l])) as (suf & Hs & _ & Hl & _).
        cbn [snd] in *. rewrite Hl in Hs.
        2:{ apply elem_of_app. right. apply list_elem_of_here. }
        rewrite app_nil_r in Hs. exists [l]. split_and!; [done|by right| |done].
        intros Hl'. exfalso. apply not_true_iff_false in Hin. apply Hin.
        apply py_in_spec. by exists l.
    + destruct (IH st) as (suf & Hs & Hor & Hl & Hn). by exists suf.
Qed.

(** After the city loops, if some city of the table is in the text (or an
    equal lead was in the list before), the list holds a lead equal to
    this one. *)
Lemma cities_loop_witness (table : list (string * list string))
    (text : string) (l : loc) (st : heap * list loc) :
  city_stamps table text ≠ [] ∨ (∃ y, y ∈ st.2 ∧ st.1 y = st.1 l) →
  let r := Historical.cities_loop table text l st in
  ∃ y, y ∈ r.2 ∧ r.1 y = r.1 l.
Proof.
  revert st. induction table as [|[county city_list] rest IH]; intros st H.
  - simpl. by destruct H as [?|?].
  - cbn [Historical.cities_loop city_stamps] in *. rewrite city_loop_char.
    destruct (first_city city_list text) as [city|].
    + apply IH. right. cbn zeta. set (h2 := store _ l "city" _).
      destruct (py_in h2 l st.2) eqn:Hin; cbn [fst snd].
      * by apply py_in_spec.
      * exists l. split; [|done]. apply elem_of_app. right.
        apply list_elem_of_here.
    + by apply IH.
Qed.

Lemma county_step_heap (st : heap * list loc) (l x : loc) :
  (Historical.county_step st l).1 x =
  if decide (x = l) then geo_stamp (st.1 l) else st.1 x.
Proof.
  unfold Historical.county_step, geo_stamp, geo_stamps, county_stamp.
  cbn zeta. rewrite cities_loop_heap, county_loop_char.
  destruct (first_match _ _) as [county|]; cbn [fst snd].
  - case_decide as Hx; [|by rewrite store_other]. subst.
    by rewrite store_same, assign_app.
  - done.
Qed.

Lemma county_step_list (st : heap * list loc) (l : loc) :
  ∃ suf, (Historical.county_step st l).2 = st.2 ++ suf ∧
         (suf = [] ∨ suf = [l]) ∧
         (geo_kept (st.1 l) = false → suf = []).
Proof.
  unfold Historical.county_step, geo_kept, geo_stamps, county_stamp.
  cbn zeta. rewrite county_loop_char.
  destruct (first_match _ _) as [county|].
  - destruct (cities_loop_list Historical.cities
                (Historical.county_text (st.1 l)) l
                (store st.1 l "county" (VStr county), st.2 ++ [l]))
      as (suf & Hs & _ & Hl & _).
    cbn [snd] in *. rewrite Hl in Hs.
    2:{ apply elem_of_app. right. apply list_elem_of_here. }
    rewrite app_nil_r in Hs. exists [l]. split_and!; [done|by right|].
    intros Hk. apply bool_decide_eq_false in Hk. by destruct Hk.
  - destruct (cities_loop_list Historical.cities
                (Historical.county_text (st.1 l)) l st)
      as (suf & Hs & Hor & _ & Hn).
    exists suf. split_and!; [done..|].
    intros Hk. apply bool_decide_eq_false in Hk. apply Hn.
    rewrite app_nil_l in Hk. destruct (city_stamps _ _); [done|].
    by destruct Hk.
Qed.

Lemma county_step_witness (st : heap * list loc) (l : loc) :
  geo_kept (st.1 l) = true →
  let r := Historical.county_step st l in
  ∃ y, y ∈ r.2 ∧ r.1 y = r.1 l.
Proof.
  unfold Historical.county_step, geo_kept, geo_stamps, county_stamp.
  cbn zeta. rewrite county_loop_char. intros Hk.
  apply bool_decide_eq_true in Hk. apply cities_loop_witness.
  destruct (first_match _ _) as [county|].
  - right. exists l. split; [|done]. apply elem_of_app. right.
    apply list_elem_of_here.
  - by left.
Qed.

End CountyStepFacts.

(* ===================================================================== *)
(** * The county filter: the whole list *)
(* ===================================================================== *)

Section CountyFilterFacts.

Lemma city_stamps_keys (table : list (string * list string)) (text k : string) :
  k ∈ (city_stamps table text).*1 → k = "county" ∨ k = "city".
Proof.
  induction table as [|[county city_list] rest IH]; simpl.
  - by intros ?%elem_of_nil.
  - rewrite fmap_app, elem_of_app. intros [Hk|Hk]; [|by apply IH].
    destruct (first_city city_list text); simpl in Hk.
    + apply elem_of_cons in Hk as [->|Hk]; [by left|].
      apply list_elem_of_singleton in Hk as ->. by right.
    + by apply elem_of_nil in Hk.
Qed.

Lemma geo_stamps_keys (text k : string) :
  k ∈ (geo_stamps text).*1 → k = "county" ∨ k = "city".
Proof.
  unfold geo_stamps, county_stamp. rewrite fmap_app, elem_of_app.
  intros [Hk|Hk]; [|by eapply city_stamps_keys].
  destruct (first_match _ _); simpl in Hk.
  - apply list_elem_of_singleton in Hk as ->. by left.
  - by apply elem_of_nil in Hk.
Qed.

Lemma geo_stamps_lookup_ne (text : string) (d : lead) (k : string) :
  k ≠ "county" → k ≠ "city" → assign (geo_stamps text) d !! k = d !! k.
Proof.
  intros H1 H2. apply assign_lookup_ne.
  intros [?|?]%geo_stamps_keys; congruence.
Qed.

Lemma county_fields_geo_stamps (text : string) (d : lead) :
  Historical.county_fields (assign (geo_stamps text) d)
  = Historical.county_fields d.
Proof.
  unfold Historical.county_fields, get_default.
  by rewrite !geo_stamps_lookup_ne.
Qed.

Lemma county_fields_geo_stamp (d : lead) :
  Historical.county_fields (geo_stamp d) = Historical.county_fields d.
Proof. apply county_fields_geo_stamps. Qed.

Lemma geo_stamp_idemp (d : lead) : geo_stamp (geo_stamp d) = geo_stamp d.
Proof.
  unfold geo_stamp at 1. unfold Historical.county_text.
  rewrite county_fields_geo_stamp. apply assign_idemp.
Qed.

Lemma geo_kept_geo_stamp (d : lead) : geo_kept (geo_stamp d) = geo_kept d.
Proof.
  unfold geo_kept, Historical.county_text.
  by rewrite county_fields_geo_stamp.
Qed.

Lemma geo_stamp_not_kept (d : lead) : geo_kept d = false → geo_stamp d = d.
Proof.
  unfold geo_kept, geo_stamp. intros Hk%bool_decide_eq_false.
  destruct (geo_stamps _); [done|]. by destruct Hk.
Qed.

(** The store after the filter: every lead of the input list has received
    its stamps, once; no other object has changed. *)
Lemma county_filter_heap (ls : list loc) (h : heap) (acc : list loc) (x : loc) :
  (foldl Historical.county_step (h, acc) ls).1 x =
  if decide (x ∈ ls) then geo_stamp (h x) else h x.
Proof.
  revert h acc. induction ls as [|l ls IH]; intros h acc.
  - cbn [foldl fst]. rewrite decide_False; [done|]. by intros ?%elem_of_nil.
  - cbn [foldl].
    pose proof (county_step_heap (h, acc) l) as Hh.
    destruct (Historical.county_step (h, acc) l) as [h1 acc1].
    cbn [fst snd] in Hh. rewrite IH, !Hh.
    destruct (decide (x = l)) as [->|Hne].
    + rewrite geo_stamp_idemp. rewrite (decide_True (P := l ∈ l :: ls)).
      * by case_decide.
      * apply list_elem_of_here.
    + apply decide_ext. rewrite elem_of_cons.
      split; [auto|]. by intros [?|?].
Qed.

(** The list only grows. *)
Lemma county_filter_prefix (ls : list loc) (h : heap) (acc : list loc) :
  ∃ suf, (foldl Historical.county_step (h, acc) ls).2 = acc ++ suf.
Proof.
  revert h acc. induction ls as [|l ls IH]; intros h acc.
  - exists []. simpl. by rewrite app_nil_r.
  - cbn [foldl].
    destruct (county_step_list (h, acc) l) as (suf & Hs & _).
    destruct (Historical.county_step (h, acc) l) as [h1 acc1].
    cbn [fst snd] in Hs. subst acc1.
    destruct (IH h1 (acc ++ suf)) as [suf' ->].
    exists (suf ++ suf'). by rewrite app_assoc.
Qed.

(** Whatever the filter appends is a lead of the input list that a county
    or a city matched. *)
Lemma county_filter_members (ls : list loc) (h : heap) (acc : list loc)
    (x : loc) :
  x ∈ (foldl Historical.county_step (h, acc) ls).2 →
  x ∈ acc ∨ (x ∈ ls ∧ geo_kept (h x) = true).
Proof.
  revert h acc. induction ls as [|l ls IH]; intros h acc.
  - simpl. by left.
  - cbn [foldl].
    pose proof (county_step_heap (h, acc) l) as Hh.
    destruct (county_step_list (h, acc) l) as (suf & Hs & Hor & Hk).
    destruct (Historical.county_step (h, acc) l) as [h1 acc1].
    cbn [fst snd] in *. subst acc1. intros Hx.
    apply IH in Hx as [Hx|[Hx Hkx]].
    + apply elem_of_app in Hx as [Hx|Hx]; [by left|]. right.
      destruct Hor as [->| ->]; [by apply elem_of_nil in Hx|].
      apply list_elem_of_singleton in Hx as ->.
      split; [apply list_elem_of_here|].
      destruct (geo_kept (h l)) eqn:E; [done|]. by specialize (Hk eq_refl).
    + right. split; [by apply list_elem_of_further|].
      rewrite Hh in Hkx. case_decide; [|done]. subst.
      by rewrite geo_kept_geo_stamp in Hkx.
Qed.

(** Every lead of the input list that a county or a city matches has an
    equal in the returned list. *)
Lemma county_filter_witness (ls : list loc) (h : heap) (l : loc) :
  l ∈ ls → geo_kept (h l) = true →
  let r := Historical.filter_by_target_counties h ls in
  ∃ y, y ∈ r.2 ∧ r.1 y = r.1 l.
Proof.
  intros Hl Hk. unfold Historical.filter_by_target_counties. cbn zeta.
  destruct (list_elem_of_split _ _ Hl) as (pre & post & Hsplit).
  assert (Hmid : foldl Historical.county_step (h, []) (pre ++ [l])
                 = Historical.county_step
                     (foldl Historical.county_step (h, []) pre) l)
    by (by rewrite foldl_app).
  assert (Hall : foldl Historical.county_step (h, []) ls
                 = foldl Historical.county_step
                     (foldl Historical.county_step (h, []) (pre ++ [l])) post).
  { rewrite Hsplit, <- foldl_app, <- app_assoc. done. }
  destruct (county_step_witness (foldl Historical.county_step (h, []) pre) l)
    as (y & Hy & Heq).
  { rewrite county_filter_heap. case_decide; [|done].
    by rewrite geo_kept_geo_stamp. }
  rewrite <- Hmid in Hy, Heq.
  assert (Hyin : y ∈ pre ++ [l]).
  { apply county_filter_members in Hy as [Hy|[Hy _]]; [|done].
    by apply elem_of_nil in Hy. }
  rewrite !county_filter_heap in Heq.
  rewrite (decide_True (P := y ∈ pre ++ [l])) in Heq by done.
  rewrite (decide_True (P := l ∈ pre ++ [l])) in Heq.
  2:{ apply elem_of_app. right. apply list_elem_of_here. }
  exists y. split.
  - rewrite Hall.
    destruct (foldl Historical.county_step (h, []) (pre ++ [l])) as [h2 f2].
    destruct (county_filter_prefix post h2 f2) as [suf ->].
    apply elem_of_app. by left.
  - rewrite !county_filter_heap.
    rewrite (decide_True (P := l ∈ ls)) by done.
    rewrite (decide_True (P := y ∈ ls)); [done|].
    rewrite Hsplit. apply elem_of_app in Hyin as [?|Hy'].
    + apply elem_of_app. by left.
    + apply list_elem_of_singleton in Hy' as ->. apply elem_of_app. right.
      apply list_elem_of_here.
Qed.

End CountyFilterFacts.

(* ===================================================================== *)
(** * C3: the geography filter *)
(* ===================================================================== *)

Section GeographyContract.

Lemma first_city_Some (city_list : list string) (text city : string) :
  first_city city_list text = Some city →
  city ∈ city_list ∧ substringb city text = true.
Proof.
  unfold first_city. intros [Hin Hs]%find_some. by apply list_elem_of_In in Hin.
Qed.

Lemma first_city_None (city_list : list string) (text city : string) :
  first_city city_list text = None → city ∈ city_list →
  substringb city text = false.
Proof.
  unfold first_city. intros Hn Hin. apply list_elem_of_In in Hin.
  apply (find_none _ _ Hn _ Hin).
Qed.

Lemma cities_lower (county : string) (city_list : list string) (city : string) :
  (county, city_list) ∈ Historical.cities → city ∈ city_list →
  lower city = city.
Proof.
  intros He Hc.
  assert (Hall : Forall (λ e, Forall (λ c, lower c = c) e.2) Historical.cities)
    by (repeat constructor).
  rewrite list.Forall_forall in Hall. specialize (Hall _ He).
  rewrite list.Forall_forall in Hall. by apply Hall.
Qed.

(** The stamps a lead gets from the city loops are not empty exactly when
    a city of the table is in the text. *)
Lemma city_stamps_nonempty (table : list (string * list string))
    (text : string) :
  city_stamps table text ≠ [] ↔
  ∃ county city_list city, (county, city_list) ∈ table ∧ city ∈ city_list ∧
                           substringb city text = true.
Proof.
  induction table as [|[county city_list] rest IH]; simpl.
  - split; [done|]. by intros (? & ? & ? & ?%elem_of_nil & _).
  - destruct (first_city city_list text) as [city|] eqn:E.
    + split; [|done]. intros _.
      apply first_city_Some in E as [Hin Hs].
      exists county, city_list, city. split_and!; [|done..].
      apply list_elem_of_here.
    + rewrite app_nil_l, IH. split.
      * intros (c & cl & city & Hin & Hc & Hs). exists c, cl, city.
        split_and!; [|done..]. by apply list_elem_of_further.
      * intros (c & cl & city & Hin & Hc & Hs).
        apply elem_of_cons in Hin as [[= -> ->]|Hin].
        -- by rewrite (first_city_None _ _ _ E Hc) in Hs.
        -- by exists c, cl, city.
Qed.

(** The last pair of city stamps is that of the last county of the table
    with a city in the text, for the first such city of its list. *)
Lemma city_stamps_last (table : list (string * list string)) (text : string) :
  city_stamps table text ≠ [] →
  ∃ pre before county city_list city after,
    city_stamps table text
      = pre ++ [("county", VStr county); ("city", VStr (title city))] ∧
    table = before ++ (county, city_list) :: after ∧
    first_city city_list text = Some city ∧
    city_stamps after text = [].
Proof.
  induction table as [|[county city_list] rest IH]; [done|].
  cbn [city_stamps]. intros Hne.
  destruct (decide (city_stamps rest text = [])) as [Hrest|Hrest].
  - rewrite Hrest, app_nil_r in *.
    destruct (first_city city_list text) as [city|] eqn:E; [|done].
    by exists [], [], county, city_list, city, rest.
  - destruct (IH Hrest) as (pre & before & c & cl & city & after
                            & Hs & -> & Hf & Hafter).
    rewrite Hs. eexists (_ ++ pre), ((county, city_list) :: before), c, cl, city, after.
    by rewrite <- app_assoc.
Qed.

Lemma geo_kept_spec (d : lead) :
  geo_kept d = true ↔ CountyMatch d ∨ CityMatch d.
Proof.
  unfold geo_kept, geo_stamps. rewrite bool_decide_eq_true.
  assert (Hcounty : county_stamp Historical.TARGET_COUNTIES
                      (Historical.county_text d) ≠ [] ↔ CountyMatch d).
  { unfold county_stamp, CountyMatch, Historical.county_text.
    rewrite <- first_match_is_Some.
    destruct (first_match _ _); split;
      first [done | by eexists | by intros [? ?]]. }
  assert (Hcity : city_stamps Historical.cities (Historical.county_text d) ≠ []
                  ↔ CityMatch d).
  { rewrite city_stamps_nonempty. unfold CityMatch, Historical.county_text.
    split; intros (c & cl & city & Hin & Hc & Hs); exists c, cl, city;
      split_and!; try done.
    - apply substringb_lower_spec. by rewrite (cities_lower _ _ _ Hin Hc).
    - apply substringb_lower_spec in Hs.
      by rewrite (cities_lower _ _ _ Hin Hc) in Hs. }
  rewrite <- Hcounty, <- Hcity.
  destruct (county_stamp _ _), (city_stamps _ _); simpl; split; try done;
    try (intros [?|?]; done); auto.
Qed.

Lemma geo_stamp_city (d : lead) :
  CityMatch d →
  ∃ before county city_list city after,
    Historical.cities = before ++ (county, city_list) :: after ∧
    first_city city_list (Historical.county_text d) = Some city ∧
    city_stamps after (Historical.county_text d) = [] ∧
    geo_stamp d !! "county" = Some (VStr county) ∧
    geo_stamp d !! "city" = Some (VStr (title city)).
Proof.
  intros Hc.
  assert (Hne : city_stamps Historical.cities (Historical.county_text d) ≠ []).
  { apply city_stamps_nonempty. destruct Hc as (c & cl & city & Hin & Hcl & Hs).
    exists c, cl, city. split_and!; [done..|].
    apply substringb_lower_spec in Hs.
    by rewrite (cities_lower _ _ _ Hin Hcl) in Hs. }
  destruct (city_stamps_last _ _ Hne)
    as (pre & before & c & cl & city & after & Hs & Ht & Hf & Ha).
  exists before, c, cl, city, after. split_and!; [done..| |].
  - unfold geo_stamp, geo_stamps. rewrite Hs, !assign_app.
    cbn [assign foldl fst snd]. rewrite lookup_insert_ne by done.
    apply lookup_insert_eq.
  - unfold geo_stamp, geo_stamps. rewrite Hs, !assign_app.
    cbn [assign foldl fst snd]. apply lookup_insert_eq.
Qed.

(** The scenario of the specification: the lead is retained with county
    "Middlesex" and city "Cambridge". *)
Example county_filter_scenario :
  let d : lead := {[ "title" := VStr "New Restaurant Opens in Cambridge" ]} in
  let r := Historical.filter_by_target_counties (heap_of [d]) [0] in
  r.2 = [0] ∧
  r.1 0 !! "county" = Some (VStr "Middlesex") ∧
  r.1 0 !! "city" = Some (VStr "Cambridge").
Proof. cbv zeta. compute_done. Qed.

(** Two equal leads that a city matches: the returned list holds one
    object, and both leads are in it in the sense of [lead in filtered]. *)
Example county_filter_equal_leads :
  let d : lead := {[ "title" := VStr "Gym opens in Lowell" ]} in
  let r := Historical.filter_by_target_counties (heap_of [d; d]) [0; 1] in
  r.2 = [0] ∧ py_in r.1 0 r.2 = true ∧ py_in r.1 1 r.2 = true.
Proof. cbv zeta. compute_done. Qed.

End GeographyContract.

(* ===================================================================== *)
(** * C4: a lead that names cities of several counties *)
(* ===================================================================== *)

Section MultiCity.

(** What the city loops leave on a lead: the stamp of the last county of
    the table that has a city in the text, for the first such city of
    that county's list. *)
Lemma county_filter_last_county_wins (h : heap) (leads : list loc) (l : loc) :
  l ∈ leads → CityMatch (h l) →
  ∃ before county city_list city after,
    Historical.cities = before ++ (county, city_list) :: after ∧
    first_city city_list (Historical.county_text (h l)) = Some city ∧
    city_stamps after (Historical.county_text (h l)) = [] ∧
    (Historical.filter_by_target_counties h leads).1 l !! "county"
      = Some (VStr county) ∧
    (Historical.filter_by_target_counties h leads).1 l !! "city"
      = Some (VStr (title city)).
Proof.
  intros Hl Hc. unfold Historical.filter_by_target_counties.
  rewrite county_filter_heap, decide_True by done.
  by apply geo_stamp_city.
Qed.

(** C4 (the code at the failing input). A lead whose title names
    Cambridge (Middlesex) and Quincy (Norfolk): the first city of the
    table found in the text is Cambridge, the lead is returned once, and
    the stamp it carries is Quincy's. *)
Lemma multi_city_stamp_is_overwritten :
  let d : lead := {[ "title" := VStr "New hotels open in Cambridge and Quincy" ]} in
  let r := Historical.filter_by_target_counties (heap_of [d]) (locs_of [d]) in
  first_table_city Historical.cities (Historical.county_text d)
    = Some ("Middlesex", "cambridge") ∧
  r.2 = [0] ∧
  r.1 0 !! "county" = Some (VStr "Norfolk") ∧
  r.1 0 !! "city" = Some (VStr "Quincy").
Proof. cbv zeta. split_and!; vm_compute; reflexivity. Qed.

End MultiCity.

(* ===================================================================== *)
(** * C5: the two filters in either order *)
(* ===================================================================== *)

Section FilterOrder.

Lemma county_filter_char (h : heap) (ls : list loc) :
  let r := Historical.filter_by_target_counties h ls in
  (∀ x, r.1 x = if decide (x ∈ ls) then geo_stamp (h x) else h x) ∧
  (∀ x, x ∈ r.2 → x ∈ ls ∧ geo_kept (h x) = true) ∧
  (∀ l, l ∈ ls → geo_kept (h l) = true → ∃ y, y ∈ r.2 ∧ r.1 y = r.1 l).
Proof.
  intros r. split_and!.
  - intros x. apply county_filter_heap.
  - intros x Hx. apply county_filter_members in Hx as [Hx|?]; [|done].
    by apply elem_of_nil in Hx.
  - intros l Hl Hk. by apply county_filter_witness.
Qed.

Lemma industry_fields_geo_stamp (d : lead) :
  Historical.industry_fields (geo_stamp d) = Historical.industry_fields d.
Proof.
  unfold Historical.industry_fields, get_default, geo_stamp.
  by rewrite !geo_stamps_lookup_ne.
Qed.

Lemma county_fields_insert (d : lead) (k : string) (v : value) :
  k ≠ "title" → k ≠ "description" →
  Historical.county_fields (<[k:=v]> d) = Historical.county_fields d.
Proof.
  intros. unfold Historical.county_fields. by rewrite !get_default_insert_ne.
Qed.

Lemma hist_kept_geo_stamp (d : lead) : hist_kept (geo_stamp d) = hist_kept d.
Proof.
  unfold hist_kept, has_keyword, Historical.industry_text.
  by rewrite industry_fields_geo_stamp.
Qed.

Lemma county_fields_hist_stamp (d : lead) :
  Historical.county_fields (hist_stamp d) = Historical.county_fields d.
Proof.
  unfold hist_stamp, stamp_keyword. destruct (first_match _ _); [|done].
  by apply county_fields_insert.
Qed.

Lemma geo_kept_hist_stamp (d : lead) : geo_kept (hist_stamp d) = geo_kept d.
Proof.
  unfold geo_kept, Historical.county_text. by rewrite county_fields_hist_stamp.
Qed.

Lemma geo_stamp_hist_stamp (d : lead) :
  geo_stamp (hist_stamp d) = hist_stamp (geo_stamp d).
Proof.
  unfold geo_stamp at 1. unfold Historical.county_text.
  rewrite county_fields_hist_stamp.
  unfold hist_stamp, stamp_keyword, Historical.industry_text.
  rewrite industry_fields_geo_stamp.
  destruct (first_match _ _); [|done].
  unfold geo_stamp, Historical.county_text. apply assign_insert_comm.
  intros [?|?]%geo_stamps_keys; congruence.
Qed.

(** C5. Industry filter then county filter, or county filter then
    industry filter: the lead dicts in the final list are the same. *)
Theorem filter_order_commutes (h : heap) (leads : list loc) (v : lead) :
  let a := Historical.filter_by_target_industries h leads in
  let ab := Historical.filter_by_target_counties a.1 a.2 in
  let b := Historical.filter_by_target_counties h leads in
  let ba := Historical.filter_by_target_industries b.1 b.2 in
  v ∈ deref ab.1 ab.2 ↔ v ∈ deref ba.1 ba.2.
Proof.
  intros a ab b ba.
  destruct (historical_industry_char h leads) as [Ha2 Ha1].
  destruct (county_filter_char a.1 a.2) as (Hab1 & Hab2 & Habw).
  destruct (county_filter_char h leads) as (Hb1 & Hb2 & Hbw).
  destruct (historical_industry_char b.1 b.2) as [Hba2 Hba1].
  fold a in Ha2, Ha1. fold ab in Hab1, Hab2, Habw.
  fold b in Hb1, Hb2, Hbw, Hba2, Hba1. fold ba in Hba2, Hba1.
  fold hist_kept in Ha2, Ha1, Hba2, Hba1. fold hist_stamp in Ha1, Hba1.
  clearbody ab ba. clearbody a b.
  assert (Hain : ∀ l, l ∈ a.2 ↔ l ∈ leads ∧ hist_kept (h l)).
  { intros l. rewrite Ha2, list_elem_of_filter. tauto. }
  assert (Hbain : ∀ l, l ∈ ba.2 ↔ l ∈ b.2 ∧ hist_kept (b.1 l)).
  { intros l. rewrite Hba2, list_elem_of_filter. tauto. }
  unfold deref. rewrite !list_elem_of_fmap. split.
  - intros (l & -> & Hl).
    destruct (Hab2 l Hl) as [Hla Hgk]. pose proof Hla as Hla'.
    apply Hain in Hla' as [Hlin Hik].
    assert (Hal : a.1 l = hist_stamp (h l)) by (by rewrite Ha1, decide_True).
    rewrite Hal, geo_kept_hist_stamp in Hgk.
    destruct (Hbw l Hlin Hgk) as (y & Hy & Heq).
    assert (Hbl : b.1 l = geo_stamp (h l)) by (by rewrite Hb1, decide_True).
    assert (Hyk : hist_kept (b.1 y)).
    { by rewrite Heq, Hbl, hist_kept_geo_stamp. }
    exists y. split; [|by apply Hbain].
    rewrite Hab1, decide_True by done.
    rewrite Hba1, decide_True by done.
    by rewrite Heq, Hbl, Hal, geo_stamp_hist_stamp.
  - intros (l & -> & Hl).
    apply Hbain in Hl as [Hlb Hik].
    destruct (Hb2 l Hlb) as [Hlin Hgk].
    assert (Hbl : b.1 l = geo_stamp (h l)) by (by rewrite Hb1, decide_True).
    rewrite Hbl, hist_kept_geo_stamp in Hik.
    assert (Hla : l ∈ a.2) by (by apply Hain).
    assert (Hal : a.1 l = hist_stamp (h l)) by (by rewrite Ha1, decide_True).
    destruct (Habw l Hla) as (y & Hy & Heq).
    { by rewrite Hal, geo_kept_hist_stamp. }
    exists y. split; [|done].
    rewrite Heq, Hab1, decide_True by done.
    rewrite Hba1, decide_True.
    + by rewrite Hbl, Hal, geo_stamp_hist_stamp.
    + split; [done|]. by rewrite Hbl, hist_kept_geo_stamp.
Qed.

(** The two orders can differ in how many times equal leads are listed:
    two leads that differ only in a [matched_keyword] left by an earlier
    run become equal once the industry filter has stamped them. *)
Example filter_order_multiplicity :
  let d1 : lead := {[ "title" := VStr "Cambridge cafe";
                      "matched_keyword" := VStr "bar" ]} in
  let d2 : lead := {[ "title" := VStr "Cambridge cafe" ]} in
  let h := heap_of [d1; d2] in
  let a := Historical.filter_by_target_industries h [0; 1] in
  let ab := Historical.filter_by_target_counties a.1 a.2 in
  let b := Historical.filter_by_target_counties h [0; 1] in
  let ba := Historical.filter_by_target_industries b.1 b.2 in
  ab.2 = [0] ∧ ba.2 = [0; 1] ∧ ba.1 0 = ba.1 1 ∧ ab.1 0 = ba.1 0.
Proof. cbv zeta. compute_done. Qed.

End FilterOrder.

(* ===================================================================== *)
(** * C8: what the filter stages write *)
(* ===================================================================== *)

Section Frame.

Lemma stamp_keyword_lookup_ne (text_of : lead → string) (ks : list string)
    (d : lead) (k : string) :
  k ≠ "matched_keyword" → stamp_keyword text_of ks d !! k = d !! k.
Proof.
  intros Hk. unfold stamp_keyword. destruct (first_match _ _); [|done].
  by rewrite lookup_insert_ne.
Qed.


End Frame.

(* ===================================================================== *)
(** * C10: what [search_osha_data] returns *)
(* ===================================================================== *)

Section OshaCollector.
Context {W : Production.Web}.

Lemma search_one_div_char (state : string) (d : Production.div)
    (fr : Production.frame) :
  Production.search_one_div state d fr =
  (Ok tt, Production.Frame
            (Production.acc fr ++ option_list (incident_of state d))
            (Production.stdout fr)).
Proof.
  unfold Production.search_one_div, incident_of, try_except, mbind, M_bind,
    bind, lift, mret, M_ret, ret, Production.append, modify.
  destruct fr as [acc out]. simpl.
  destruct (Production.find_strong d) as [strong|e]; simpl.
  2:{ by rewrite app_nil_r. }
  destruct (Production.get_text d) as [text|e]; simpl.
  2:{ by rewrite app_nil_r. }
  destruct (substringb "MA" text || substringb "Massachusetts" text); simpl.
  - done.
  - by rewrite app_nil_r.
Qed.

Lemma search_divs_char (state : string) (divs : list Production.div)
    (fr : Production.frame) :
  for_each divs (Production.search_one_div state) fr =
  (Ok tt, Production.Frame
            (Production.acc fr ++ omap (incident_of state) divs)
            (Production.stdout fr)).
Proof.
  revert fr. induction divs as [|d divs IH]; intros fr.
  - simpl. unfold ret. destruct fr. by rewrite app_nil_r.
  - cbn [for_each]. unfold bind at 1. rewrite search_one_div_char, IH.
    cbn [Production.acc Production.stdout omap list_omap].
    destruct (incident_of state d); simpl.
    + by rewrite <- app_assoc.
    + by rewrite app_nil_r.
Qed.

(** [search_osha_data] never raises, and returns the incidents of the
    first twenty [div]s that can be read and name the state. *)
Lemma search_osha_data_char (state : string) (fr : Production.frame) :
  Production.search_osha_data state fr =
  (Ok (osha_incidents_of state),
   Production.Frame (osha_incidents_of state)
     (Production.stdout fr ++ "Accessing OSHA public data..." :: osha_warning)).
Proof.
  unfold Production.search_osha_data, osha_incidents_of, osha_warning.
  unfold mbind, M_bind, mret, M_ret. unfold bind at 1 2.
  unfold Production.reset, modify, try_except, gets.
  unfold bind at 1. unfold Production.print at 1. unfold modify.
  cbn [Production.acc Production.stdout].
  unfold bind at 1. unfold lift at 1.
  destruct (Production.session_get _ 10) as [resp|e].
  2:{ unfold Production.print, modify. simpl. by rewrite <- app_assoc. }
  destruct (Production.status_code resp =? 200).
  2:{ unfold ret. simpl. done. }
  unfold bind at 1. unfold lift at 1.
  destruct (Production.find_all_div resp) as [divs|e].
  2:{ unfold Production.print, modify. simpl. by rewrite <- app_assoc. }
  rewrite search_divs_char. simpl. done.
Qed.

Lemma incident_of_fields (state : string) (d : Production.div) (i : lead) :
  incident_of state d = Some i →
  i !! "source" = Some (VStr "OSHA") ∧
  i !! "type" = Some (VStr "Safety Incident") ∧
  i !! "priority" = Some (VStr "High") ∧
  i !! "state" = Some (VStr state) ∧
  ∃ text, Production.get_text d = Ok text ∧
          i !! "description" = Some (VStr text) ∧
          (Substring "MA" text ∨ Substring "Massachusetts" text).
Proof.
  unfold incident_of.
  destruct (Production.find_strong d) as [strong|e]; [|done].
  destruct (Production.get_text d) as [text|e]; [|done].
  destruct (substringb "MA" text || substringb "Massachusetts" text) eqn:E;
    [|done].
  intros [= <-]. split_and!; try done.
  exists text. split_and!; try done.
  apply orb_true_iff in E. by rewrite <- !substringb_spec.
Qed.

Lemma length_omap_le {A B} (f : A → option B) (l : list A) :
  length (omap f l) ≤ length l.
Proof.
  induction l as [|x l IH]; [done|].
  change (omap f (x :: l))
    with (match f x with Some y => y :: omap f l | None => omap f l end).
  destruct (f x); simpl; lia.
Qed.

Lemma osha_incidents_of_length (state : string) :
  length (osha_incidents_of state) ≤ 20.
Proof.
  unfold osha_incidents_of.
  destruct (Production.session_get _ 10) as [resp|e]; [|simpl; lia].
  destruct (Production.status_code resp =? 200); [|simpl; lia].
  destruct (Production.find_all_div resp) as [divs|e]; [|simpl; lia].
  etrans; [apply length_omap_le|]. rewrite length_take. lia.
Qed.

Lemma osha_incidents_of_elem (state : string) (i : lead) :
  i ∈ osha_incidents_of state →
  ∃ d, incident_of state d = Some i.
Proof.
  unfold osha_incidents_of.
  destruct (Production.session_get _ 10) as [resp|e];
    [|by intros ?%elem_of_nil].
  destruct (Production.status_code resp =? 200); [|by intros ?%elem_of_nil].
  destruct (Production.find_all_div resp) as [divs|e];
    [|by intros ?%elem_of_nil].
  intros (d & _ & Hd)%list_elem_of_omap. by exists d.
Qed.

End OshaCollector.

(** C10. [search_osha_data] returns at most twenty incidents; each has
    source "OSHA", type "Safety Incident", priority "High", the state
    given, and a description in which "MA" or "Massachusetts" occurs as
    written; and on a response with status 200 whose page can be parsed,
    the incidents returned are exactly those of the first twenty [div]s
    that can be read and whose text has one of the two. *)
Theorem search_osha_data_postcondition `{W : Production.Web}
    (state : string) (fr : Production.frame) :
  ∃ incidents fr',
    Production.search_osha_data state fr = (Ok incidents, fr') ∧
    length incidents ≤ 20 ∧
    (∀ i, i ∈ incidents →
       i !! "source" = Some (VStr "OSHA") ∧
       i !! "type" = Some (VStr "Safety Incident") ∧
       i !! "priority" = Some (VStr "High") ∧
       i !! "state" = Some (VStr state) ∧
       ∃ text, i !! "description" = Some (VStr text) ∧
               (Substring "MA" text ∨ Substring "Massachusetts" text)) ∧
    (∀ resp divs,
       Production.session_get "https://www.osha.gov/severeinjury" 10 = Ok resp →
       Production.status_code resp = 200 →
       Production.find_all_div resp = Ok divs →
       incidents = omap (incident_of state) (take 20 divs)).
Proof.
  eexists _, _. split; [apply search_osha_data_char|]. split_and!.
  - apply osha_incidents_of_length.
  - intros i (d & Hd)%osha_incidents_of_elem.
    destruct (incident_of_fields _ _ _ Hd)
      as (H1 & H2 & H3 & H4 & text & _ & H5 & H6).
    split_and!; try done. by exists text.
  - intros resp divs Hget Hstatus Hdivs. unfold osha_incidents_of.
    by rewrite Hget, Hstatus, Hdivs.
Qed.

(** On the demonstration network: of the three incidents listed, the two
    that name the state are returned, the one from Texas is not. *)
Example search_osha_data_demo :
  (Production.search_osha_data (W := demo_web) "MA"
     (Production.Frame [] [])).1
  = Ok [ Production.osha_incident "Mercy Hospital"
           "Mercy Hospital, Lowell, MA: fall from ladder" "MA";
         Production.osha_incident "Bay Foods"
           "Bay Foods, Massachusetts: slip on wet floor" "MA" ].
Proof. compute_done. Qed.

(* ===================================================================== *)
(** * C1: a collector that raises *)
(* ===================================================================== *)

Section MonitorCollectors.
Context {W : Monitor.World}.

Lemma search_one_city_char (county city : string) (self : Monitor.monitor) :
  Monitor.search_one_city county city self =
  (Ok tt, Monitor.Monitor_
            (Monitor.permits self ++ city_permits county city)
            (Monitor.osha_incidents self)
            (Monitor.out self ++ city_warning county city)).
Proof.
  unfold Monitor.search_one_city, city_permits, city_warning, try_except,
    mbind, M_bind, bind, lift, Monitor.extend_permits, Monitor.print,
    Monitor.emit, modify.
  destruct self as [ps os out]. simpl.
  destruct (Monitor._search_city_permits city county) as [permit_data|e]; simpl.
  - by rewrite app_nil_r.
  - by rewrite app_nil_r.
Qed.

Lemma search_cities_char (county : string) (city_list : list string)
    (self : Monitor.monitor) :
  for_each city_list (Monitor.search_one_city county) self =
  (Ok tt, Monitor.Monitor_
            (Monitor.permits self ++ concat (city_permits county <$> city_list))
            (Monitor.osha_incidents self)
            (Monitor.out self ++ concat (city_warning county <$> city_list))).
Proof.
  revert self. induction city_list as [|city rest IH]; intros self.
  - simpl. unfold ret. destruct self. by rewrite !app_nil_r.
  - cbn [for_each]. unfold bind at 1. rewrite search_one_city_char, IH.
    simpl. by rewrite <- !app_assoc.
Qed.

Lemma search_counties_char (table : list (string * list string))
    (self : Monitor.monitor) :
  for_each table (λ entry,
    for_each entry.2 (λ city, Monitor.search_one_city entry.1 city)) self =
  (Ok tt, Monitor.Monitor_
     (Monitor.permits self
      ++ concat ((λ entry, concat (city_permits entry.1 <$> entry.2)) <$> table))
     (Monitor.osha_incidents self)
     (Monitor.out self
      ++ concat ((λ entry, concat (city_warning entry.1 <$> entry.2)) <$> table))).
Proof.
  revert self. induction table as [|[county city_list] rest IH]; intros self.
  - simpl. unfold ret. destruct self. by rewrite !app_nil_r.
  - cbn [for_each]. unfold bind at 1. cbn [fst snd].
    rewrite search_cities_char, IH. simpl. by rewrite <- !app_assoc.
Qed.

(** [search_ma_permits] never raises: every city that can be searched
    contributes its permits, a city whose search raises contributes a
    warning only. *)
Lemma search_ma_permits_char (self : Monitor.monitor) :
  Monitor.search_ma_permits self =
  (Ok (Monitor.permits self ++ collected_permits),
   Monitor.Monitor_
     (Monitor.permits self ++ collected_permits)
     (Monitor.osha_incidents self)
     (Monitor.out self
      ++ Monitor.Print "Searching Massachusetts building permits..."
      :: collected_warnings)).
Proof.
  unfold Monitor.search_ma_permits, collected_permits, collected_warnings.
  unfold mbind, M_bind. unfold bind at 1 2.
  unfold Monitor.print, Monitor.emit, modify at 1.
  rewrite search_counties_char. unfold gets. simpl.
  by rewrite <- !app_assoc.
Qed.

Lemma search_osha_incidents_char (self : Monitor.monitor) :
  Monitor.search_osha_incidents self =
  (Ok (Monitor.osha_incidents self ++ queried_incidents),
   Monitor.Monitor_
     (Monitor.permits self)
     (Monitor.osha_incidents self ++ queried_incidents)
     (Monitor.out self
      ++ Monitor.Print "Searching OSHA incidents..." :: query_warning)).
Proof.
  unfold Monitor.search_osha_incidents, queried_incidents, query_warning.
  unfold mbind, M_bind, bind, try_except, lift, gets,
    Monitor.extend_osha_incidents, Monitor.print, Monitor.emit, modify.
  destruct self as [ps os out]. simpl.
  destruct Monitor._query_osha_data as [incidents|e]; simpl.
  - done.
  - by rewrite app_nil_r, <- app_assoc.
Qed.

End MonitorCollectors.

Section NewsCollector.
Context {W : Production.Web}.

Lemma append_items_char (query : string) (items : list Production.rss_item)
    (fr : Production.frame) :
  for_each items (λ item, Production.append (Production.news_lead item query)) fr
  = (Ok tt, Production.Frame
              (Production.acc fr
               ++ ((λ item, Production.news_lead item query) <$> items))
              (Production.stdout fr)).
Proof.
  revert fr. induction items as [|item items IH]; intros fr.
  - simpl. unfold ret. destruct fr. by rewrite app_nil_r.
  - cbn [for_each]. unfold bind at 1. unfold Production.append at 1, modify.
    rewrite IH. simpl. by rewrite <- app_assoc.
Qed.

Lemma search_one_query_char (query : string) (fr : Production.frame) :
  Production.search_one_query query fr =
  match query_leads query with
  | Ok leads =>
      (Ok tt, Production.Frame (Production.acc fr ++ leads)
                (Production.stdout fr ++ [cat ["Searching news: "; query]]))
  | Raise e =>
      (Raise e, Production.Frame (Production.acc fr)
                  (Production.stdout fr ++ [cat ["Searching news: "; query]]))
  end.
Proof.
  unfold Production.search_one_query, query_leads.
  unfold mbind, M_bind. unfold bind at 1. unfold Production.print, modify.
  cbn zeta. unfold bind at 1. unfold lift at 1.
  destruct (Production.session_get _ 10) as [resp|e]; [|done].
  destruct (Production.status_code resp =? 200).
  - unfold bind at 1. unfold lift at 1.
    destruct (Production.find_all_item resp) as [items|e]; [|done].
    by rewrite append_items_char.
  - unfold mret, M_ret, ret. simpl. by rewrite app_nil_r.
Qed.

Lemma search_queries_char (queries : list string) (fr : Production.frame) :
  try_except (for_each queries Production.search_one_query)
    (λ e, Production.print (cat ["Error searching Google News: "; e])) fr
  = (Ok tt, Production.Frame
              (Production.acc fr ++ (news_collect queries).1)
              (Production.stdout fr ++ (news_collect queries).2)).
Proof.
  revert fr. induction queries as [|query rest IH]; intros fr.
  - unfold try_except. simpl. unfold ret. destruct fr. by rewrite !app_nil_r.
  - unfold try_except in *. cbn [for_each news_collect]. unfold bind at 1.
    rewrite search_one_query_char.
    destruct (query_leads query) as [leads|e].
    + rewrite IH. simpl. by rewrite <- !app_assoc.
    + unfold Production.print, modify. simpl.
      by rewrite app_nil_r, <- app_assoc.
Qed.

(** [search_google_news] never raises; it returns what the queries before
    the first failing one have gathered. *)
Lemma search_google_news_char (query location : string)
    (fr : Production.frame) :
  Production.search_google_news query location fr =
  (Ok (news_collect (Production.search_queries location)).1,
   Production.Frame
     (news_collect (Production.search_queries location)).1
     (Production.stdout fr
      ++ (news_collect (Production.search_queries location)).2)).
Proof.
  unfold Production.search_google_news.
  unfold mbind, M_bind. unfold bind at 1 2. unfold Production.reset, modify.
  rewrite search_queries_char. unfold gets. done.
Qed.

(** The leads gathered when every query succeeds, and when one fails. *)
Lemma news_collect_all_ok (queries : list string) :
  Forall (λ q, is_Some (match query_leads q with Ok l => Some l | _ => None end))
         queries →
  (news_collect queries).1
  = concat ((λ q, match query_leads q with Ok l => l | Raise _ => [] end)
            <$> queries).
Proof.
  induction 1 as [|q qs Hq Hqs IH]; [done|].
  rewrite fmap_cons. cbn [news_collect concat]. cbn beta.
  destruct (query_leads q) as [l|e].
  - cbn [fst]. by rewrite IH.
  - by destruct Hq.
Qed.


End NewsCollector.

(* ===================================================================== *)
(** * Computations that return *)
(* ===================================================================== *)

Section Returns.
Context {S : Type}.

Lemma returns_ret {A} (a : A) : returns (ret a : M S A).
Proof. intros s. by eexists _, _. Qed.







Lemma returns_for_each {A} (xs : list A) (body : A → M S unit) :
  (∀ x, returns (body x)) → returns (for_each xs body).
Proof.
  intros Hb. induction xs as [|x xs IH]; simpl.
  - apply returns_ret.
  - intros s. unfold bind. destruct (Hb x s) as (a & s' & ->). apply IH.
Qed.

End Returns.

Section PipelineReturns.










End PipelineReturns.

Section FailureIsolation.





(** A [div] that cannot be read: the incidents of the two others are
    returned, and nothing is printed about the one left out. *)
Example unreadable_div_is_skipped_silently :
  let r := Production.search_osha_data (W := demo_web_unreadable) "MA"
             (Production.Frame [] []) in
  r.1 = Ok [ Production.osha_incident "Mercy Hospital"
               "Mercy Hospital, Lowell, MA: fall from ladder" "MA";
             Production.osha_incident "Bay Foods"
               "Bay Foods, Massachusetts: slip on wet floor" "MA" ] ∧
  Production.stdout r.2 = ["Accessing OSHA public data..."].
Proof. cbv zeta. compute_done. Qed.

(** The whole monitor on the demonstration world: Lowell and the OSHA
    query fail, the permit of Quincy is reported all the same, the report
    is saved for want of a mail server, and the run ends normally. *)
Example run_demo :
  let r := Monitor.run (W := demo_world) Monitor.init in
  r.1 = Ok tt ∧
  length (Monitor.permits r.2) = 1 ∧
  Monitor.osha_incidents r.2 = [] ∧
  Monitor.Print "Error searching Lowell: HTTP 503" ∈ Monitor.out r.2 ∧
  Monitor.Print "Error searching OSHA: Connection reset" ∈ Monitor.out r.2 ∧
  Monitor.Print "Permits found: 1" ∈ Monitor.out r.2.
Proof. cbv zeta. compute_done. Qed.

End FailureIsolation.

(* ===================================================================== *)
(** * C6: the report that is saved when delivery fails *)
(* ===================================================================== *)

Section DeliveryFallback.

Lemma save_to_file_char `{W : Monitor.World} (html : string)
    (self : Monitor.monitor) :
  Monitor.save_to_file html self =
  match Monitor.file_write report_file html with
  | Ok _ =>
      (Ok tt, Monitor.Monitor_ (Monitor.permits self)
                (Monitor.osha_incidents self)
                (Monitor.out self
                 ++ [ Monitor.FileWrite report_file html;
                      Monitor.Print (cat ["Report saved to "; report_file]) ]))
  | Raise e =>
      (Raise e, Monitor.Monitor_ (Monitor.permits self)
                  (Monitor.osha_incidents self)
                  (Monitor.out self ++ [Monitor.FileWrite report_file html]))
  end.
Proof.
  unfold Monitor.save_to_file, report_file, mbind, M_bind, bind, lift,
    Monitor.print, Monitor.emit, modify.
  destruct self as [ps os out]. simpl.
  destruct (Monitor.file_write _ html); simpl; [|done].
  by rewrite <- app_assoc.
Qed.

(** C6. When delivery fails, because the credential is absent or because
    the SMTP exchange raises, [save_to_file] is called once, with the very
    string [send_email] was given, which is also the body of the message
    whose delivery was tried; [send_email] then ends as the write ends. *)
Theorem fallback_persists_report `{W : Monitor.World} (html : string)
    (self : Monitor.monitor) :
  DeliveryFails html →
  let r := Monitor.send_email html self in
  ∃ pre post,
    Monitor.out r.2
      = Monitor.out self ++ pre ++ Monitor.FileWrite report_file html :: post ∧
    Forall (λ e, is_file_write e = false) (pre ++ post) ∧
    (∀ m, Monitor.SmtpSend m ∈ pre → Monitor.msg_html m = html) ∧
    r.1 = Monitor.file_write report_file html.
Proof.
  intros Hfail. cbv zeta. unfold DeliveryFails in Hfail.
  unfold Monitor.send_email.
  assert (Habsent : ∃ pre post,
    Monitor.out
      ((Monitor.print "ERROR: GMAIL_APP_PASSWORD environment variable not set";;
        Monitor.print "Saving report to file instead...";;
        Monitor.save_to_file html) self).2
      = Monitor.out self ++ pre ++ Monitor.FileWrite report_file html :: post ∧
    Forall (λ e, is_file_write e = false) (pre ++ post) ∧
    (∀ m, Monitor.SmtpSend m ∈ pre → Monitor.msg_html m = html) ∧
    ((Monitor.print "ERROR: GMAIL_APP_PASSWORD environment variable not set";;
      Monitor.print "Saving report to file instead...";;
      Monitor.save_to_file html) self).1
      = Monitor.file_write report_file html).
  { unfold mbind, M_bind, bind, Monitor.print, Monitor.emit, modify.
    rewrite save_to_file_char. cbn [Monitor.permits Monitor.osha_incidents
                                      Monitor.out].
    exists [ Monitor.Print "ERROR: GMAIL_APP_PASSWORD environment variable not set";
             Monitor.Print "Saving report to file instead..." ].
    destruct (Monitor.file_write report_file html) as [[]|e].
    - exists [Monitor.Print (cat ["Report saved to "; report_file])].
      cbn [fst snd Monitor.out]. split_and!; [|by repeat constructor| |done].
      + by rewrite <- !app_assoc.
      + intros m Hm. repeat (apply elem_of_cons in Hm as [Hm|Hm]; [done|]).
        by apply elem_of_nil in Hm.
    - exists []. cbn [fst snd Monitor.out].
      split_and!; [|by repeat constructor| |done].
      + by rewrite <- !app_assoc.
      + intros m Hm. repeat (apply elem_of_cons in Hm as [Hm|Hm]; [done|]).
        by apply elem_of_nil in Hm. }
  destruct (Monitor.environ_get "GMAIL_APP_PASSWORD") as [[|c pw]|]; try done.
  destruct Hfail as [e He]. fold (email_message html).
  unfold try_except, mbind, M_bind, bind, lift, Monitor.print, Monitor.emit,
    modify. rewrite He. rewrite save_to_file_char.
  cbn [Monitor.permits Monitor.osha_incidents Monitor.out].
  exists [ Monitor.SmtpSend (email_message html);
           Monitor.Print (cat ["Error sending email: "; e]) ].
  destruct (Monitor.file_write report_file html) as [[]|e'].
  - exists [Monitor.Print (cat ["Report saved to "; report_file])].
    cbn [fst snd Monitor.out]. split_and!; [|by repeat constructor| |done].
    + by rewrite <- !app_assoc.
    + intros m Hm. apply elem_of_cons in Hm as [[= ->]|Hm]; [done|].
      apply elem_of_cons in Hm as [Hm|Hm]; [done|]. by apply elem_of_nil in Hm.
  - exists []. cbn [fst snd Monitor.out].
    split_and!; [|by repeat constructor| |done].
    + by rewrite <- !app_assoc.
    + intros m Hm. apply elem_of_cons in Hm as [[= ->]|Hm]; [done|].
      apply elem_of_cons in Hm as [Hm|Hm]; [done|]. by apply elem_of_nil in Hm.
Qed.

(** The SMTP server refuses the login: the report is saved as it is. *)
Lemma fallback_persists_report_witness :
  let html := "<html><body>1 lead</body></html>" in
  let r := Monitor.send_email (W := demo_world) html Monitor.init in
  ∃ pre post,
    Monitor.out r.2
      = Monitor.out Monitor.init ++ pre
        ++ Monitor.FileWrite (report_file (W := demo_world)) html :: post ∧
    Forall (λ e, is_file_write e = false) (pre ++ post) ∧
    (∀ m, Monitor.SmtpSend m ∈ pre → Monitor.msg_html m = html) ∧
    r.1 = Monitor.file_write (World := demo_world)
            (report_file (W := demo_world)) html.
Proof.
  apply (fallback_persists_report (W := demo_world)
           "<html><body>1 lead</body></html>" Monitor.init).
  exists "SMTPAuthenticationError". reflexivity.
Defined.

(** The credential is unset: the same, without any SMTP exchange. *)
Example fallback_credential_unset :
  let html := "<html><body>1 lead</body></html>" in
  (Monitor.send_email (W := demo_world_unset) html Monitor.init)
  = (Ok tt,
     Monitor.Monitor_ [] []
       [ Monitor.Print "ERROR: GMAIL_APP_PASSWORD environment variable not set";
         Monitor.Print "Saving report to file instead...";
         Monitor.FileWrite "lead_report_20250301.html" html;
         Monitor.Print "Report saved to lead_report_20250301.html" ]).
Proof. reflexivity. Qed.

End DeliveryFallback.

(* ===================================================================== *)
(** * C7: the fields of a rendered lead *)
(* ===================================================================== *)

Section Rendering.

(** The pieces [n .. n+m-1] of an f-string occur in it. *)
Lemma cat_pieces (L : list string) (n m : nat) (p : string) :
  cat (take m (drop n L)) = p → Substring p (cat L).
Proof.
  intros <-. rewrite <- (take_drop n L) at 2.
  rewrite <- (take_drop m (drop n L)) at 2.
  apply cat_substring.
Qed.

Lemma cat_piece (L : list string) (n : nat) (p : string) :
  L !! n = Some p → Substring p (cat L).
Proof.
  intros H. apply (cat_pieces L n 1).
  rewrite <- (take_drop_middle L n p H) at 1.
  rewrite drop_app_length'; [|by rewrite length_take_le; [|apply lookup_lt_Some in H; lia]].
  simpl. apply app_empty_r.
Qed.

(** The same, for a line that the template indents by [ws]. *)
Lemma cat_pieces_indented (L : list string) (n m : nat) (ws p : string) :
  cat (take m (drop n L)) = ws +:+ p → Substring p (cat L).
Proof.
  intros H. destruct (cat_pieces L n m _ H) as (pre & post & ->).
  exists (pre +:+ ws), post. by rewrite !app_assoc_str.
Qed.

Ltac piece_from n m :=
  first [ apply (cat_pieces _ n m); reflexivity
        | apply (cat_piece _ n); reflexivity
        | apply (cat_pieces_indented _ n m "                "); reflexivity ].

Ltac find_piece_at n m :=
  first [ piece_from n m
        | lazymatch n with
          | 70 => fail "no such piece"
          | _ => find_piece_at (S n) m
          end ].

Lemma get_default_missing (d : lead) (k : string) (dflt : value) :
  d !! k = None → get_default d k dflt = dflt.
Proof. intros H. unfold get_default. by rewrite H. Qed.

(** A permit without a phone or a website (or with empty ones) is
    rendered without these two lines; a name that is present and empty is
    rendered as the empty text. *)
Lemma permit_without_phone_has_no_phone_line :
  substringb "Phone:" (Monitor._format_permit_html ∅) = false ∧
  substringb "Website:" (Monitor._format_permit_html ∅) = false ∧
  substringb "Phone:"
    (Monitor._format_permit_html {[ "phone" := VStr "" ]}) = false ∧
  substringb (field_line "Business:" "N/A") (Monitor._format_permit_html ∅)
    = true ∧
  substringb (field_line "Business:" "")
    (Monitor._format_permit_html {[ "name" := VStr "" ]}) = true ∧
  substringb "N/A" (Production.news_entry {[ "url" := VStr "" ]}) = true ∧
  substringb "Search" (Production.news_entry
                         {[ "search_query" := VStr "Search me" ]}) = false.
Proof. compute_done. Qed.

Lemma cat_slots (L : list string) (i j : nat) (x y : string) :
  L !! i = Some x → L !! (i + 1 + j) = Some y →
  cat L = cat (take i L) +:+ x +:+ cat (take j (drop (i + 1) L)) +:+ y
          +:+ cat (drop (i + 1 + j + 1) L).
Proof.
  intros Hx Hy.
  assert (Hy' : drop (i + 1) L !! j = Some y) by (by rewrite lookup_drop).
  rewrite <- (take_drop_middle L i x Hx) at 1.
  replace (S i) with (i + 1) by lia.
  rewrite <- (take_drop_middle (drop (i + 1) L) j y Hy') at 1.
  rewrite drop_drop. replace (i + 1 + S j) with (i + 1 + j + 1) by lia.
  rewrite cat_app. unfold cat at 2. cbn [foldr]. f_equal. f_equal.
  fold (cat (take j (drop (i + 1) L) ++ y :: drop (i + 1 + j + 1) L)).
  rewrite cat_app. unfold cat at 2. cbn [foldr]. done.
Qed.

Lemma get_default_truthy (d : lead) (k : string) (dflt : value) :
  truthy (get d k) = true → get_default d k dflt = get d k.
Proof.
  unfold get, get_default. by destruct (d !! k) as [v|].
Qed.

Lemma get_default_agree (d d' : lead) (k : string) (dflt : value) :
  d' !! k = d !! k → get_default d' k dflt = get_default d k dflt.
Proof. unfold get_default. by intros ->. Qed.

(** C7 (amended). The detail rendering of a permit always emits the
    lines Business, Address, City and County, Project Type, Permit Date,
    Industry and Estimated Value, each with "N/A" where the key is
    missing and with the value itself, also an empty one, where it is
    present; the values of [phone] and [website] enter the entry only
    through the Phone and the Website line, which are emitted when the
    value is present and not empty and are empty otherwise; the value of
    [priority] selects the class of the entry. A news entry
    always emits title, description, date and industry match with "N/A"
    where the key is missing, and the link with "#"; an OSHA entry always
    emits the company, with "Unknown Business" where it is missing, and
    the description with "N/A". Each entry is the same for two leads that
    agree on the keys its template reads. *)
Theorem report_placeholder_contract :
  (∀ permit : lead,
     let html := Monitor._format_permit_html permit in
     let shown k := py_str (get_default permit k (VStr "N/A")) in
     Substring (field_line "Business:" (shown "name")) html ∧
     Substring (field_line "Address:" (shown "address")) html ∧
     Substring (cat [ Monitor.field_open; "City:</span> "; shown "city"; ", ";
                      shown "county"; " County</div>" ]) html ∧
     Substring (field_line "Project Type:" (shown "project_type")) html ∧
     Substring (field_line "Permit Date:" (shown "date")) html ∧
     Substring (field_line "Industry:" (shown "industry")) html ∧
     Substring (cat [ Monitor.field_open; "Estimated Value:</span> $";
                      shown "value"; "</div>" ]) html ∧
     (truthy (get permit "phone") = true →
      Substring (field_line "Phone:" (shown "phone")) html) ∧
     (truthy (get permit "website") = true →
      Substring (cat [ Monitor.field_open; "Website:</span> <a href="; dq;
                       py_str (get permit "website"); dq; ">";
                       py_str (get permit "website"); "</a></div>" ]) html) ∧
     Substring (cat [ "<div class="; dq; "lead ";
                      if truthy (get permit "priority") then "priority" else "";
                      dq; ">" ]) html) ∧
  (∀ permit : lead,
     ∃ before between after : string,
       ∀ permit' : lead,
         (∀ k, k ≠ "phone" → k ≠ "website" → permit' !! k = permit !! k) →
         Monitor._format_permit_html permit'
         = before +:+ phone_slot (get permit' "phone") +:+ between
           +:+ website_slot (get permit' "website") +:+ after) ∧
  (∀ v : value,
     truthy v = false → phone_slot v = "" ∧ website_slot v = "") ∧
  (∀ (d : lead) (k : string),
     d !! k = None →
     py_str (get_default d k (VStr "N/A")) = "N/A" ∧ truthy (get d k) = false) ∧
  (∀ (d : lead) (k : string) (v dflt : value),
     d !! k = Some v → get_default d k dflt = v) ∧
  (∀ lead_ : lead,
     let html := Production.news_entry lead_ in
     let shown k := py_str (get_default lead_ k (VStr "N/A")) in
     Substring (title_line (shown "title")) html ∧
     Substring (detail_line "Description:" (shown "description")) html ∧
     Substring (detail_line "Date:" (shown "date")) html ∧
     Substring (detail_line "Industry Match:" (shown "matched_keyword")) html ∧
     Substring (cat [ "<a href="; dq;
                      py_str (get_default lead_ "url" (VStr "#")); dq;
                      ">Read full article →</a></div>" ]) html) ∧
  (∀ lead_ : lead,
     let html := Production.osha_entry lead_ in
     Substring (title_line
                  (py_str (get_default lead_ "company" (VStr "Unknown Business"))))
               html ∧
     Substring (detail_line "Description:"
                  (py_str (get_default lead_ "description" (VStr "N/A")))) html) ∧
  (∀ permit permit' : lead,
     (∀ k, k ∈ permit_fields → permit' !! k = permit !! k) →
     Monitor._format_permit_html permit' = Monitor._format_permit_html permit) ∧
  (∀ lead_ lead' : lead,
     (∀ k, k ∈ news_fields → lead' !! k = lead_ !! k) →
     Production.news_entry lead' = Production.news_entry lead_) ∧
  (∀ lead_ lead' : lead,
     (∀ k, k ∈ osha_fields → lead' !! k = lead_ !! k) →
     Production.osha_entry lead' = Production.osha_entry lead_).
Proof.
  split_and!.
  - intros permit. cbv zeta. unfold Monitor._format_permit_html. cbv zeta.
    split_and!.
    + find_piece_at 0 4.
    + find_piece_at 0 4.
    + find_piece_at 0 6.
    + find_piece_at 0 4.
    + find_piece_at 0 4.
    + find_piece_at 0 4.
    + find_piece_at 0 4.
    + intros ->. find_piece_at 0 1.
    + intros ->. find_piece_at 0 1.
    + apply (cat_pieces_indented _ 1 6 "        "). reflexivity.
  - intros permit. eexists _, _, _. intros permit' Hagree.
    assert (Hg : ∀ k dflt, k ≠ "phone" → k ≠ "website" →
                 get_default permit' k dflt = get_default permit k dflt).
    { intros k dflt H1 H2. apply get_default_agree. by apply Hagree. }
    unfold Monitor._format_permit_html. cbv zeta.
    change (get permit' "priority") with (get_default permit' "priority" VNone).
    rewrite (Hg "priority"), (Hg "name"), (Hg "address"), (Hg "city"),
      (Hg "county"), (Hg "project_type"), (Hg "date"), (Hg "industry"),
      (Hg "value") by done.
    match goal with
    | |- cat ?L = _ => rewrite (cat_slots L 47 2 _ _ eq_refl eq_refl)
    end.
    cbn [take drop Nat.add].
    assert (Hphone :
      (if truthy (get permit' "phone")
       then cat [ Monitor.field_open; "Phone:</span> ";
                  py_str (get_default permit' "phone" (VStr "N/A")); "</div>" ]
       else "") = phone_slot (get permit' "phone")).
    { unfold phone_slot. destruct (truthy (get permit' "phone")) eqn:E; [|done].
      by rewrite (get_default_truthy _ _ _ E). }
    rewrite Hphone. fold (website_slot (get permit' "website")).
    reflexivity.
  - intros v Hv. unfold phone_slot, website_slot. by rewrite Hv.
  - intros d k Hk. rewrite get_default_missing by done.
    unfold get. by rewrite get_default_missing.
  - intros d k v dflt Hk. unfold get_default. by rewrite Hk.
  - intros lead_. cbv zeta. unfold Production.news_entry.
    split_and!.
    + find_piece_at 0 7.
    + find_piece_at 0 11.
    + find_piece_at 0 11.
    + find_piece_at 0 11.
    + apply (cat_pieces_indented _ 57 9
               (cat ["                <div class="; dq; "lead-detail"; dq; ">"])).
      reflexivity.
  - intros lead_. cbv zeta. unfold Production.osha_entry.
    split_and!.
    + find_piece_at 0 7.
    + find_piece_at 0 11.
  - intros permit permit' Hagree.
    assert (Hg : ∀ k dflt, k ∈ permit_fields →
                 get_default permit' k dflt = get_default permit k dflt).
    { intros k dflt Hk. apply get_default_agree. by apply Hagree. }
    unfold Monitor._format_permit_html, get. cbv zeta.
    rewrite (Hg "priority"), (Hg "name"), (Hg "address"), (Hg "city"),
      (Hg "county"), (Hg "project_type"), (Hg "date"), (Hg "industry"),
      (Hg "value") by (unfold permit_fields; set_solver).
    rewrite !(Hg "phone"), !(Hg "website") by (unfold permit_fields; set_solver).
    done.
  - intros lead_ lead' Hagree.
    assert (Hg : ∀ k dflt, k ∈ news_fields →
                 get_default lead' k dflt = get_default lead_ k dflt).
    { intros k dflt Hk. apply get_default_agree. by apply Hagree. }
    unfold Production.news_entry.
    rewrite (Hg "title"), (Hg "description"), (Hg "date"),
      (Hg "matched_keyword"), (Hg "url") by (unfold news_fields; set_solver).
    done.
  - intros lead_ lead' Hagree.
    assert (Hg : ∀ k dflt, k ∈ osha_fields →
                 get_default lead' k dflt = get_default lead_ k dflt).
    { intros k dflt Hk. apply get_default_agree. by apply Hagree. }
    unfold Production.osha_entry.
    rewrite (Hg "company"), (Hg "description")
      by (unfold osha_fields; set_solver).
    done.
Qed.

End Rendering.

(* ===================================================================== *)
(** * C9: the priority of a lead *)
(* ===================================================================== *)

Section Priority.

Lemma description_insert (d : lead) (k : string) (v : value) :
  k ≠ "violations" → k ≠ "hazards" →
  Osha.description (<[k:=v]> d) = Osha.description d.
Proof.
  intros. unfold Osha.description. by rewrite !get_default_insert_ne.
Qed.

Lemma slip_fall_kept_stamp (d : lead) :
  slip_fall_kept (slip_fall_stamp d) = slip_fall_kept d.
Proof.
  unfold slip_fall_kept, slip_fall_stamp. by rewrite !description_insert.
Qed.

Lemma slip_fall_stamp_idemp (d : lead) :
  slip_fall_stamp (slip_fall_stamp d) = slip_fall_stamp d.
Proof.
  unfold slip_fall_stamp. apply map_eq. intros k.
  destruct (decide (k = "match_reason")) as [->|H1].
  { by rewrite !lookup_insert_eq. }
  rewrite !(lookup_insert_ne _ "match_reason") by done.
  destruct (decide (k = "priority")) as [->|H2].
  { by rewrite !lookup_insert_eq. }
  by rewrite !lookup_insert_ne.
Qed.

Lemma slip_fall_step_heap (st : heap * list loc) (l x : loc) :
  (Osha.slip_fall_step st l).1 x =
  if decide (x = l ∧ slip_fall_kept (st.1 l)) then slip_fall_stamp (st.1 l)
  else st.1 x.
Proof.
  unfold Osha.slip_fall_step. fold (slip_fall_kept (st.1 l)).
  destruct (slip_fall_kept (st.1 l)) eqn:E; cbn [fst].
  - destruct (decide (x = l)) as [->|Hne].
    + rewrite decide_True by done. by rewrite !store_same.
    + rewrite decide_False by (by intros [? _]). by rewrite !store_other.
  - rewrite decide_False; [done|]. by intros [_ ?].
Qed.

Lemma slip_fall_step_list (st : heap * list loc) (l : loc) :
  (Osha.slip_fall_step st l).2 =
  if slip_fall_kept (st.1 l) then st.2 ++ [l] else st.2.
Proof.
  unfold Osha.slip_fall_step. fold (slip_fall_kept (st.1 l)).
  by destruct (slip_fall_kept (st.1 l)).
Qed.

Lemma slip_fall_filter_char (ls : list loc) (h : heap) (acc : list loc) :
  (∀ x, x ∈ (foldl Osha.slip_fall_step (h, acc) ls).2 →
        x ∈ acc ∨ (x ∈ ls ∧ slip_fall_kept (h x))) ∧
  (∀ x, (foldl Osha.slip_fall_step (h, acc) ls).1 x =
        if decide (x ∈ ls ∧ slip_fall_kept (h x)) then slip_fall_stamp (h x)
        else h x).
Proof.
  revert h acc. induction ls as [|l ls IH]; intros h acc.
  - cbn [foldl fst snd]. split; [by left|].
    intros x. rewrite decide_False; [done|]. by intros [?%elem_of_nil _].
  - cbn [foldl].
    pose proof (slip_fall_step_heap (h, acc) l) as Hh.
    pose proof (slip_fall_step_list (h, acc) l) as Hl.
    destruct (Osha.slip_fall_step (h, acc) l) as [h1 acc1].
    cbn [fst snd] in Hh, Hl. destruct (IH h1 acc1) as [IH1 IH2].
    assert (Hk : ∀ x, slip_fall_kept (h1 x) = slip_fall_kept (h x)).
    { intros x. rewrite Hh. case_decide as Hc; [|done].
      destruct Hc as [-> _]. apply slip_fall_kept_stamp. }
    split.
    + intros x Hx. apply IH1 in Hx as [Hx|[Hx Hkx]].
      * subst acc1. destruct (slip_fall_kept (h l)) eqn:E; [|by left].
        apply elem_of_app in Hx as [Hx|Hx]; [by left|].
        apply list_elem_of_singleton in Hx as ->. right.
        split; [apply list_elem_of_here|by rewrite E].
      * right. rewrite Hk in Hkx. split; [|done].
        by apply list_elem_of_further.
    + intros x. rewrite IH2, Hk, Hh.
      destruct (decide (x = l)) as [->|Hne].
      * destruct (slip_fall_kept (h l)) eqn:E.
        -- rewrite (decide_True (P := l = l ∧ true)) by done.
           rewrite slip_fall_stamp_idemp.
           rewrite (decide_True (P := l ∈ l :: ls ∧ true)).
           ++ by case_decide.
           ++ split; [apply list_elem_of_here|done].
        -- rewrite !decide_False; [done|by intros [_ ?]..].
      * rewrite (decide_False (P := x = l ∧ _)) by (by intros [? _]).
        apply decide_ext. rewrite elem_of_cons.
        split; [intros [? ?]; auto|]. by intros [[?|?] ?].
Qed.

Lemma heap_of_locs_of (ds : list lead) (l : loc) :
  l ∈ locs_of ds → heap_of ds l ∈ ds.
Proof.
  unfold locs_of, heap_of. rewrite elem_of_seq. intros [_ Hl].
  destruct (lookup_lt_is_Some_2 ds l Hl) as [d Hd]. rewrite Hd. simpl.
  by eapply list_elem_of_lookup_2.
Qed.

Lemma news_collect_elem `{W : Production.Web} (queries : list string)
    (d : lead) :
  d ∈ (news_collect queries).1 →
  ∃ item query, d = Production.news_lead item query.
Proof.
  induction queries as [|q qs IH]; cbn [news_collect].
  - by intros ?%elem_of_nil.
  - destruct (query_leads q) as [leads|e] eqn:E; cbn [fst].
    + rewrite elem_of_app. intros [Hd|Hd]; [|by apply IH].
      unfold query_leads in E.
      destruct (Production.session_get _ 10) as [resp|]; [|done].
      destruct (Production.status_code resp =? 200).
      * destruct (Production.find_all_item resp) as [items|]; [|done].
        injection E as <-. apply list_elem_of_fmap in Hd as (item & -> & _).
        by exists item, q.
      * injection E as <-. by apply elem_of_nil in Hd.
    + by intros ?%elem_of_nil.
Qed.

Lemma run_full_scan_char `{W : Production.Web} (fr : Production.frame) :
  let all_leads :=
    (news_collect (Production.search_queries "Massachusetts")).1
    ++ osha_incidents_of "MA" in
  (Production.run_full_scan fr).1 =
  Ok (Production.filter_by_target_industries (heap_of all_leads)
        (locs_of all_leads) Production.target_keywords).
Proof.
  cbv zeta. unfold Production.run_full_scan.
  unfold mbind, M_bind. unfold bind at 1 2 3 4 5.
  unfold Production.print at 1 2 3. unfold modify at 1 2 3.
  rewrite search_google_news_char, search_osha_data_char. done.
Qed.

End Priority.

Section PriorityInvariant.

Lemma production_filter_frame :
  (∀ (h : heap) (leads : list loc) (keywords : list string) (x : loc)
     (k : string),
     k ≠ "matched_keyword" →
     (Production.filter_by_target_industries h leads keywords).1 x !! k
       = h x !! k) ∧ True.
Proof.
  split; [|done]. intros h leads keywords x k Hk.
  destruct (production_industry_char h leads keywords) as [_ Hheap].
  rewrite Hheap. case_decide; [|done]. by apply stamp_keyword_lookup_ne.
Qed.

(** On the demonstration network the scan returns a news lead and an
    OSHA incident: the incident carries priority "High", the news lead
    carries no priority at all. *)
Lemma news_lead_has_no_priority :
  (Production.run_full_scan (W := demo_web) (Production.Frame [] [])).1
    = Ok demo_scan ∧
  demo_scan.2 = [0; 1] ∧
  demo_scan.1 0 !! "source" = Some (VStr "Google News") ∧
  demo_scan.1 0 !! "matched_keyword" = Some (VStr "restaurant") ∧
  demo_scan.1 0 !! "priority" = None ∧
  demo_scan.1 1 !! "source" = Some (VStr "OSHA") ∧
  demo_scan.1 1 !! "priority" = Some (VStr "High").
Proof.
  split; [apply (run_full_scan_char (W := demo_web))|]. compute_done.
Qed.

(** C9 (amended). Every incident [search_osha_data] creates carries
    priority "High"; [filter_by_target_industries] leaves the priority of
    every lead as it was, so that every OSHA lead [run_full_scan] returns
    carries "High" and every news lead it returns carries no priority;
    every incident [filter_slip_fall_incidents] returns carries "High";
    [save_to_csv] exports every OSHA incident with priority "High" and
    every permit with "Medium". A news lead is created without a priority:
    it is never "High", and is given neither "Medium" nor "Low". *)
Theorem priority_invariant :
  (∀ (W : Production.Web) (state : string) (i : lead),
     i ∈ osha_incidents_of state →
     i !! "source" = Some (VStr "OSHA") ∧
     i !! "priority" = Some (VStr "High")) ∧
  (∀ (item : Production.rss_item) (query : string),
     Production.news_lead item query !! "source" = Some (VStr "Google News") ∧
     Production.news_lead item query !! "priority" = None) ∧
  (∀ (h : heap) (leads : list loc) (keywords : list string) (x : loc),
     (Production.filter_by_target_industries h leads keywords).1 x !! "priority"
       = h x !! "priority" ∧
     (Production.filter_by_target_industries h leads keywords).1 x !! "source"
       = h x !! "source") ∧
  (∀ (W : Production.Web) (fr : Production.frame),
     ∃ h ls,
       (Production.run_full_scan fr).1 = Ok (h, ls) ∧
       ∀ l, l ∈ ls →
         (h l !! "source" = Some (VStr "OSHA") ∧
          h l !! "priority" = Some (VStr "High")) ∨
         (h l !! "source" = Some (VStr "Google News") ∧
          h l !! "priority" = None)) ∧
  (∀ (h : heap) (incidents : list loc) (l : loc),
     l ∈ (Osha.filter_slip_fall_incidents h incidents).2 →
     (Osha.filter_slip_fall_incidents h incidents).1 l !! "priority"
       = Some (VStr "High")) ∧
  (∀ (W : Monitor.World) (self : Monitor.monitor),
     Monitor.csv_rows self
       = (Monitor.permit_row <$> Monitor.permits self)
         ++ (Monitor.incident_row <$> Monitor.osha_incidents self) ∧
     (∀ incident,
        Monitor.incident_row incident !! "type" = Some (VStr "OSHA Incident") ∧
        Monitor.incident_row incident !! "priority" = Some (VStr "High")) ∧
     (∀ permit,
        Monitor.permit_row permit !! "type" = Some (VStr "Permit") ∧
        Monitor.permit_row permit !! "priority" = Some (VStr "Medium"))).
Proof.
  split_and!.
  - intros W state i (d & Hd)%osha_incidents_of_elem.
    destruct (incident_of_fields _ _ _ Hd) as (H1 & _ & H3 & _). done.
  - intros item query. done.
  - intros h leads keywords x.
    destruct production_filter_frame as [Hf _].
    split; by apply Hf.
  - intros W fr. pose proof (run_full_scan_char fr) as Hrun.
    cbv zeta in Hrun. set (all_leads := _ ++ osha_incidents_of "MA") in Hrun.
    set (scan := Production.filter_by_target_industries _ _ _) in Hrun.
    exists scan.1, scan.2. split.
    { rewrite Hrun. by rewrite <- surjective_pairing. }
    subst scan. intros l Hl.
    destruct (production_industry_char (heap_of all_leads) (locs_of all_leads)
                Production.target_keywords) as [Hout _].
    rewrite Hout in Hl. apply list_elem_of_filter in Hl as [_ Hl].
    destruct production_filter_frame as [Hf _].
    rewrite !Hf by done.
    apply heap_of_locs_of in Hl. apply elem_of_app in Hl as [Hl|Hl].
    + right. apply news_collect_elem in Hl as (item & query & ->). done.
    + left. apply osha_incidents_of_elem in Hl as (d & Hd).
      destruct (incident_of_fields _ _ _ Hd) as (H1 & _ & H3 & _). done.
  - intros h incidents l Hl. unfold Osha.filter_slip_fall_incidents in *.
    destruct (slip_fall_filter_char incidents h []) as [Hmem Hheap].
    apply Hmem in Hl as [Hl|Hl]; [by apply elem_of_nil in Hl|].
    rewrite Hheap, decide_True by done.
    unfold slip_fall_stamp. rewrite lookup_insert_ne by done.
    apply lookup_insert_eq.
  - intros W self. split_and!; done.
Qed.

End PriorityInvariant.

(* ===================================================================== *)
(** * permit_scrapers.py: [clean_text] *)
(* ===================================================================== *)

Section CleanText.

Lemma split_lstrip (s : string) : Permits.split (lstrip s) = Permits.split s.
Proof.
  induction s as [|c s IH]; [done|].
  cbn [lstrip]. destruct (is_space c) eqn:E; [|done].
  rewrite IH. cbn [Permits.split]. by rewrite E.
Qed.

Lemma rstrip_head (c : ascii) (s : string) :
  rstrip (String c s) = EmptyString ∨ ∃ r, rstrip (String c s) = String c r.
Proof.
  cbn [rstrip]. destruct (rstrip s).
  - destruct (is_space c); eauto.
  - eauto.
Qed.

Lemma split_cons_space (c : ascii) (s : string) :
  is_space c = true → Permits.split (String c s) = Permits.split s.
Proof. intros E. cbn [Permits.split]. by rewrite E. Qed.

Lemma split_cons_word (c : ascii) (s : string) :
  is_space c = false →
  Permits.split (String c s) =
  match s with
  | EmptyString => [String c EmptyString]
  | String c' _ =>
      if is_space c' then String c EmptyString :: Permits.split s
      else match Permits.split s with
           | w :: ws => String c w :: ws
           | [] => [String c EmptyString]
           end
  end.
Proof. intros E. cbn [Permits.split]. by rewrite E. Qed.

Lemma split_rstrip (s : string) : Permits.split (rstrip s) = Permits.split s.
Proof.
  induction s as [|c s IH]; [done|].
  destruct (rstrip s) as [|d r] eqn:Er.
  - cbn [rstrip]. rewrite Er. simpl in IH. destruct (is_space c) eqn:E.
    + by rewrite split_cons_space.
    + rewrite !split_cons_word by done. destruct s as [|c' s']; [done|].
      rewrite <- IH. by destruct (is_space c').
  - cbn [rstrip]. rewrite Er. destruct (is_space c) eqn:E.
    + rewrite (split_cons_space c (String d r) E), (split_cons_space c s E).
      exact IH.
    + rewrite !split_cons_word by done.
      destruct s as [|c' s']; [done|].
      destruct (rstrip_head c' s') as [H0|[r' H1]]; [congruence|].
      rewrite Er in H1. injection H1 as -> ->.
      rewrite (split_cons_word c (String c' s') E). by rewrite IH.
Qed.

Lemma split_strip (s : string) : Permits.split (strip s) = Permits.split s.
Proof. unfold strip. by rewrite split_rstrip, split_lstrip. Qed.

(** What [split] returns are words. *)
Lemma split_words (s : string) : Forall (λ w, is_word w = true) (Permits.split s).
Proof.
  induction s as [|c s IH]; [constructor|].
  destruct (is_space c) eqn:E.
  - by rewrite split_cons_space.
  - rewrite split_cons_word by done.
    assert (Hc : is_word (String c EmptyString) = true)
      by (simpl; by rewrite E).
    destruct s as [|c' s']; [by repeat constructor|].
    destruct (is_space c'); [by constructor|].
    destruct (Permits.split (String c' s')) as [|w ws];
      [by repeat constructor|].
    inversion IH as [|? ? Hw Hws]; subst. constructor; [|done].
    destruct w as [|a w]; [done|]. simpl in *. by rewrite E.
Qed.

Lemma split_word_app (w t : string) :
  is_word w = true →
  (t = EmptyString ∨ ∃ c t', t = String c t' ∧ is_space c = true) →
  Permits.split (w +:+ t) = w :: Permits.split t.
Proof.
  induction w as [|c w IH]; [done|]. intros Hw Ht.
  simpl in Hw. apply andb_true_iff in Hw as [Hc Hw].
  apply negb_true_iff in Hc. rewrite app_cons, split_cons_word by done.
  destruct w as [|c2 w].
  - rewrite app_empty_l. destruct Ht as [->|(c' & t' & -> & Hsp)]; [done|].
    by rewrite Hsp.
  - rewrite app_cons. pose proof Hw as Hw'. simpl in Hw'.
    apply andb_true_iff in Hw' as [Hc2 _]. apply negb_true_iff in Hc2.
    rewrite Hc2. rewrite <- app_cons, IH by done. done.
Qed.

(** Words joined by single spaces are split into the same words. *)
Lemma split_join (ws : list string) :
  Forall (λ w, is_word w = true) ws → Permits.split (join " " ws) = ws.
Proof.
  induction 1 as [|w ws Hw Hws IH]; [done|].
  destruct ws as [|w' ws].
  - cbn [join]. rewrite <- (app_empty_r w) at 1.
    rewrite split_word_app by auto. done.
  - change (join " " (w :: w' :: ws)) with (w +:+ " " +:+ join " " (w' :: ws)).
    rewrite split_word_app; [|done|right; by eexists _, _].
    change (" " +:+ ?x) with (String " "%char x).
    rewrite split_cons_space by done. by rewrite IH.
Qed.



Lemma clean_text_join (s : string) :
  Permits.clean_text (VStr s) = join " " (Permits.split s).
Proof.
  unfold Permits.clean_text. destruct s as [|c s]; [done|].
  cbn [truthy]. by rewrite split_strip.
Qed.





(** X2. [clean_text] is idempotent: cleaning a cleaned text changes
    nothing. *)
Theorem clean_text_idempotent (text : value) :
  Permits.clean_text (VStr (Permits.clean_text text)) = Permits.clean_text text.
Proof.
  destruct text as [s|]; [|done].
  rewrite !clean_text_join. by rewrite split_join by apply split_words.
Qed.



End CleanText.

(* ===================================================================== *)
(** * historical_data_collector.py: more on the two filters *)
(* ===================================================================== *)

Section HistoricalFilters.

Lemma substringb_app_l (a b t : string) :
  substringb (a +:+ b) t = true → substringb a t = true.
Proof.
  rewrite !substringb_spec. intros (pre & post & ->).
  exists pre, (b +:+ post). by rewrite app_assoc_str.
Qed.

(** A keyword that stands after another keyword in the list is returned
    only when the earlier one is not in the text. *)
Lemma first_match_earlier (a b : list string) (k k' text : string) :
  first_match (a ++ k' :: b) text = Some k → k ∉ a → k ≠ k' →
  substringb (lower k') text = false.
Proof.
  induction a as [|x a IH]; simpl; intros Hm Hk Hne.
  - destruct (substringb (lower k') text); [|done]. congruence.
  - apply not_elem_of_cons in Hk as [Hx Hk].
    destruct (substringb (lower x) text); [congruence|]. by apply IH.
Qed.

(** X4. "health club" stands after "health" in [TARGET_INDUSTRIES], and
    every text that has "health club" has "health": the industry filter
    never stamps a lead with "health club". *)
Theorem health_club_is_never_recorded (h : heap) (leads : list loc) :
  let r := Historical.filter_by_target_industries h leads in
  Forall (λ l, r.1 l !! "matched_keyword" ≠ Some (VStr "health club")) r.2.
Proof.
  intros r. destruct (historical_industry_char h leads) as [Hout Hheap].
  fold r in Hout, Hheap. clearbody r. apply list.Forall_forall. intros l Hl.
  rewrite Hout, list_elem_of_filter in Hl. destruct Hl as [Hk Hin].
  rewrite Hheap, decide_True by done. unfold stamp_keyword.
  unfold has_keyword in Hk. apply bool_decide_unpack in Hk as [k Hk].
  rewrite Hk, lookup_insert_eq. intros [= ->].
  pose proof Hk as Hk'. apply first_match_Some in Hk' as (_ & _ & _ & Hsub & _).
  assert (Hhealth : substringb "health" (Historical.industry_text (h l))
                    = false).
  { apply (first_match_earlier (take 9 Historical.TARGET_INDUSTRIES)
             (drop 10 Historical.TARGET_INDUSTRIES) "health club" "health").
    - exact Hk.
    - compute_done.
    - done. }
  pose proof (substringb_app_l "health" " club" _ Hsub) as Hsub'.
  by rewrite Hsub' in Hhealth.
Qed.

(** Each step of the county filter appends the lead or nothing. *)
Lemma county_filter_sublist (ls : list loc) (h : heap) (acc : list loc) :
  ∃ suf, (foldl Historical.county_step (h, acc) ls).2 = acc ++ suf ∧
         suf `sublist_of` ls.
Proof.
  revert h acc. induction ls as [|l ls IH]; intros h acc.
  - exists []. simpl. by rewrite app_nil_r.
  - cbn [foldl].
    destruct (county_step_list (h, acc) l) as (suf & Hs & Hor & _).
    destruct (Historical.county_step (h, acc) l) as [h1 acc1].
    cbn [fst snd] in Hs. subst acc1.
    destruct (IH h1 (acc ++ suf)) as (suf' & -> & Hsub).
    exists (suf ++ suf'). split; [by rewrite app_assoc|].
    destruct Hor as [-> | ->]; simpl.
    + by apply sublist_cons.
    + by apply sublist_skip.
Qed.

Lemma assign_lookup_last (kvs : list (string * value)) (d : lead) (k : string) :
  k ∈ kvs.*1 → ∃ v, (k, v) ∈ kvs ∧ assign kvs d !! k = Some v.
Proof.
  induction kvs as [|[k' v'] kvs IH] using rev_ind; [by intros ?%elem_of_nil|].
  rewrite fmap_app, elem_of_app, assign_app. intros Hk.
  cbn [assign foldl fst snd].
  destruct (decide (k' = k)) as [->|Hne].
  - exists v'. split; [|apply lookup_insert_eq].
    apply elem_of_app. right. apply list_elem_of_here.
  - destruct Hk as [Hk|Hk].
    + destruct (IH Hk) as (v & Hv & Hl). exists v.
      split; [apply elem_of_app; by left|].
      by rewrite lookup_insert_ne.
    + simpl in Hk. apply list_elem_of_singleton in Hk. congruence.
Qed.

Lemma city_stamps_county (table : list (string * list string)) (text : string)
    (v : value) :
  ("county", v) ∈ city_stamps table text → ∃ c, v = VStr c ∧ c ∈ table.*1.
Proof.
  induction table as [|[county city_list] rest IH]; simpl.
  - by intros ?%elem_of_nil.
  - rewrite elem_of_app. intros [Hv|Hv].
    + destruct (first_city city_list text); [|by apply elem_of_nil in Hv].
      apply elem_of_cons in Hv as [[= ->]|Hv].
      * exists county. split; [done|]. apply list_elem_of_here.
      * apply list_elem_of_singleton in Hv. congruence.
    + destruct (IH Hv) as (c & -> & Hc). exists c. split; [done|].
      by apply list_elem_of_further.
Qed.

Lemma geo_stamps_county (text : string) (v : value) :
  ("county", v) ∈ geo_stamps text →
  ∃ c, v = VStr c ∧ c ∈ Historical.TARGET_COUNTIES.
Proof.
  unfold geo_stamps, county_stamp. rewrite elem_of_app. intros [Hv|Hv].
  - destruct (first_match _ _) as [c|] eqn:E; [|by apply elem_of_nil in Hv].
    apply list_elem_of_singleton in Hv as [= ->]. exists c. split; [done|].
    apply first_match_Some in E as (pre & post & -> & _).
    apply elem_of_app. right. apply list_elem_of_here.
  - apply city_stamps_county in Hv as (c & -> & Hc). by exists c.
Qed.

Lemma geo_stamps_has_county (text : string) :
  geo_stamps text ≠ [] → "county" ∈ (geo_stamps text).*1.
Proof.
  unfold geo_stamps, county_stamp. destruct (first_match _ _).
  { intros _. simpl. apply list_elem_of_here. }
  rewrite app_nil_l. generalize Historical.cities. intros table.
  induction table as [|[county city_list] rest IH]; [done|].
  simpl. destruct (first_city city_list text).
  - intros _. simpl. apply list_elem_of_here.
  - by rewrite app_nil_l.
Qed.

(** X5. The county filter returns the leads it keeps in the order of its
    input, none more often than the input lists it, and every lead it
    returns carries as [county] one of the three configured counties. *)
Theorem county_filter_output (h : heap) (leads : list loc) :
  let r := Historical.filter_by_target_counties h leads in
  r.2 `sublist_of` leads ∧
  Forall (λ l, ∃ county, county ∈ Historical.TARGET_COUNTIES ∧
                         r.1 l !! "county" = Some (VStr county)) r.2.
Proof.
  intros r. split.
  - destruct (county_filter_sublist leads h []) as (suf & Hs & Hsub).
    subst r. unfold Historical.filter_by_target_counties. by rewrite Hs.
  - apply list.Forall_forall. intros l Hl.
    destruct (county_filter_char h leads) as (Hheap & Hmem & _).
    fold r in Hheap, Hmem. clearbody r.
    destruct (Hmem l Hl) as [Hin Hk].
    rewrite Hheap, decide_True by done. unfold geo_kept in Hk.
    apply bool_decide_eq_true in Hk. apply geo_stamps_has_county in Hk.
    destruct (assign_lookup_last _ (h l) _ Hk) as (v & Hv & Hlook).
    apply geo_stamps_county in Hv as (c & -> & Hc). by exists c.
Qed.

(** X6. Running an industry filter on its own result changes nothing:
    the same leads are returned and no dict is written again. *)
Theorem industry_filter_idempotent :
  (∀ (h : heap) (leads : list loc),
     let r := Historical.filter_by_target_industries h leads in
     let r' := Historical.filter_by_target_industries r.1 r.2 in
     r'.2 = r.2 ∧ ∀ x, r'.1 x = r.1 x) ∧
  (∀ (h : heap) (leads : list loc) (keywords : list string),
     let r := Production.filter_by_target_industries h leads keywords in
     let r' := Production.filter_by_target_industries r.1 r.2 keywords in
     r'.2 = r.2 ∧ ∀ x, r'.1 x = r.1 x).
Proof.
  assert (Hgen : ∀ (text_of : lead → string) (ks : list string)
            (h : heap) (leads out out' : list loc) (h1 h2 : heap),
    (∀ d v, text_of (<["matched_keyword":=v]> d) = text_of d) →
    out = filter (λ l, has_keyword text_of ks (h l)) leads →
    (∀ x, h1 x = if decide (x ∈ leads ∧ has_keyword text_of ks (h x))
                 then stamp_keyword text_of ks (h x) else h x) →
    out' = filter (λ l, has_keyword text_of ks (h1 l)) out →
    (∀ x, h2 x = if decide (x ∈ out ∧ has_keyword text_of ks (h1 x))
                 then stamp_keyword text_of ks (h1 x) else h1 x) →
    out' = out ∧ ∀ x, h2 x = h1 x).
  { intros text_of ks h leads out out' h1 h2 Htext -> Hh1 -> Hh2.
    assert (Hk : ∀ x, has_keyword text_of ks (h1 x) = has_keyword text_of ks (h x)).
    { intros x. rewrite Hh1. case_decide; [|done].
      by apply has_keyword_stamp. }
    split.
    - rewrite (list_filter_iff _ (λ l, has_keyword text_of ks (h l)))
        by (intros x; by rewrite Hk).
      apply list_filter_filter_l. auto.
    - intros x. rewrite Hh2. case_decide as Hc; [|done].
      destruct Hc as [Hx _]. apply list_elem_of_filter in Hx as [Hkx Hx].
      rewrite Hh1, decide_True by done. by apply stamp_keyword_idemp. }
  split.
  - intros h leads r r'.
    destruct (historical_industry_char h leads) as [Ho Hh].
    destruct (historical_industry_char r.1 r.2) as [Ho' Hh'].
    fold r in Ho, Hh. fold r' in Ho', Hh'. clearbody r'. clearbody r.
    eapply (Hgen Historical.industry_text); eauto.
    intros d v. unfold Historical.industry_text.
    by rewrite historical_industry_fields_insert.
  - intros h leads keywords r r'.
    destruct (production_industry_char h leads keywords) as [Ho Hh].
    destruct (production_industry_char r.1 r.2 keywords) as [Ho' Hh'].
    fold r in Ho, Hh. fold r' in Ho', Hh'. clearbody r'. clearbody r.
    eapply (Hgen Production.industry_text); eauto.
    intros d v. unfold Production.industry_text.
    by rewrite production_industry_fields_insert.
Qed.

End HistoricalFilters.

Section Worcester.

Lemma city_stamps_app (a b : list (string * list string)) (text : string) :
  city_stamps (a ++ b) text = city_stamps a text ++ city_stamps b text.
Proof.
  induction a as [|[county city_list] a IH]; [done|].
  simpl. by rewrite IH, app_assoc.
Qed.

(** X7. Worcester is the last county of the city table and "worcester"
    the first city of its list, and the city loops go through every
    county: a lead whose title or description names Worcester ends up with
    county "Worcester" and city "Worcester", whatever other county or city
    it names. *)
Theorem worcester_overrides_other_stamps (h : heap) (leads : list loc)
    (l : loc) :
  l ∈ leads →
  CISubstring "worcester" (Historical.county_fields (h l)) →
  let r := Historical.filter_by_target_counties h leads in
  r.1 l !! "county" = Some (VStr "Worcester") ∧
  r.1 l !! "city" = Some (VStr "Worcester").
Proof.
  intros Hl Hw. cbv zeta. unfold Historical.filter_by_target_counties.
  rewrite county_filter_heap, decide_True by done.
  apply substringb_lower_spec in Hw.
  change (lower "worcester") with "worcester" in Hw.
  fold (Historical.county_text (h l)) in Hw.
  unfold geo_stamp, geo_stamps.
  set (text := Historical.county_text (h l)) in *.
  change Historical.cities
    with (take 2 Historical.cities ++ drop 2 Historical.cities).
  rewrite city_stamps_app.
  assert (Hlast : city_stamps (drop 2 Historical.cities) text
                  = [("county", VStr "Worcester"); ("city", VStr "Worcester")]).
  { cbn [drop Historical.cities city_stamps]. unfold first_city.
    cbn [find]. by rewrite Hw. }
  rewrite Hlast, !app_assoc, assign_app. cbn [assign foldl fst snd]. split.
  - rewrite lookup_insert_ne by done. apply lookup_insert_eq.
  - apply lookup_insert_eq.
Qed.

(** A lead that names Cambridge and Worcester. *)
Lemma worcester_overrides_other_stamps_witness :
  let d : lead := {[ "title" := VStr "Cambridge lab moves to Worcester" ]} in
  let r := Historical.filter_by_target_counties (heap_of [d]) [0] in
  r.1 0 !! "county" = Some (VStr "Worcester") ∧
  r.1 0 !! "city" = Some (VStr "Worcester").
Proof.
  apply (worcester_overrides_other_stamps
           (heap_of [{[ "title" := VStr "Cambridge lab moves to Worcester" ]}])
           [0] 0).
  - apply list_elem_of_here.
  - apply substringb_lower_spec. vm_compute. reflexivity.
Defined.

End Worcester.


(* ===================================================================== *)
(** * lead_monitor.py: delivery, export and the pipeline *)
(* ===================================================================== *)

Section Tracks.
Context {W : Monitor.World}.
Variables (ps os : list lead) (P : Monitor.event → Prop).

Lemma bind_ok {S A B} (m : M S A) (k : A → M S B) (s s' : S) (a : A) :
  m s = (Ok a, s') → (m ≫= k) s = k a s'.
Proof. intros H. unfold mbind, M_bind, bind. by rewrite H. Qed.

Lemma bind_raise {S A B} (m : M S A) (k : A → M S B) (s s' : S) (e : string) :
  m s = (Raise e, s') → (m ≫= k) s = (Raise e, s').
Proof. intros H. unfold mbind, M_bind, bind. by rewrite H. Qed.

Lemma tracks_ret {A} (a : A) : tracks ps os P (mret a).
Proof.
  intros s Hp Ho. split_and!; [done..|]. exists []. by rewrite app_nil_r.
Qed.

Lemma tracks_gets {A} (f : Monitor.monitor → A) : tracks ps os P (gets f).
Proof.
  intros s Hp Ho. split_and!; [done..|]. exists []. by rewrite app_nil_r.
Qed.

Lemma tracks_lift {A} (r : result A) : tracks ps os P (lift r).
Proof.
  intros s Hp Ho. split_and!; [done..|]. exists []. by rewrite app_nil_r.
Qed.

Lemma tracks_emit (e : Monitor.event) : P e → tracks ps os P (Monitor.emit e).
Proof.
  intros He s Hp Ho. split_and!; [done..|]. exists [e]. split; [done|].
  by constructor.
Qed.

Lemma tracks_bind {A B} (m : M Monitor.monitor A) (k : A → M Monitor.monitor B) :
  tracks ps os P m → (∀ a, tracks ps os P (k a)) → tracks ps os P (m ≫= k).
Proof.
  intros Hm Hk s Hp Ho. destruct (Hm s Hp Ho) as (Hp1 & Ho1 & ev1 & Hout1 & HP1).
  destruct (m s) as [[a|e] s1] eqn:E; cbn [fst snd] in *.
  - rewrite (bind_ok _ _ _ _ _ E).
    destruct (Hk a s1 Hp1 Ho1) as (Hp2 & Ho2 & ev2 & Hout2 & HP2).
    split_and!; [done..|]. exists (ev1 ++ ev2). split.
    + by rewrite Hout2, Hout1, app_assoc.
    + by apply Forall_app.
  - rewrite (bind_raise _ _ _ _ _ E). cbn [fst snd].
    split_and!; [done..|]. by exists ev1.
Qed.

Lemma tracks_try_except {A} (body : M Monitor.monitor A)
    (handler : string → M Monitor.monitor A) :
  tracks ps os P body → (∀ e, tracks ps os P (handler e)) →
  tracks ps os P (try_except body handler).
Proof.
  intros Hm Hk s Hp Ho. destruct (Hm s Hp Ho) as (Hp1 & Ho1 & ev1 & Hout1 & HP1).
  unfold try_except.
  destruct (body s) as [[a|e] s1] eqn:E; cbn [fst snd] in *.
  - split_and!; [done..|]. by exists ev1.
  - destruct (Hk e s1 Hp1 Ho1) as (Hp2 & Ho2 & ev2 & Hout2 & HP2).
    split_and!; [done..|]. exists (ev1 ++ ev2). split.
    + by rewrite Hout2, Hout1, app_assoc.
    + by apply Forall_app.
Qed.

Lemma tracks_weaken {A} (Q : Monitor.event → Prop) (m : M Monitor.monitor A) :
  (∀ e, Q e → P e) → tracks ps os Q m → tracks ps os P m.
Proof.
  intros HQ Hm s Hp Ho. destruct (Hm s Hp Ho) as (Hp1 & Ho1 & ev1 & Hout1 & HP1).
  split_and!; [done..|]. exists ev1. split; [done|].
  eapply Forall_impl; [exact HQ|exact HP1].
Qed.

End Tracks.

Section MonitorPipeline.
Context {W : Monitor.World}.

Lemma generate_email_report_char (self : Monitor.monitor) :
  Monitor.generate_email_report self
  = (Ok (report_of (Monitor.permits self) (Monitor.osha_incidents self)), self).
Proof. by destruct self. Qed.

Lemma tracks_save_to_file (ps os : list lead) (html : string) :
  tracks ps os (delivers html) (Monitor.save_to_file html).
Proof.
  unfold Monitor.save_to_file.
  apply tracks_bind; [by apply tracks_emit|]. intros _.
  apply tracks_bind; [apply tracks_lift|]. intros _.
  by apply tracks_emit.
Qed.

Lemma tracks_send_email (ps os : list lead) (html : string) :
  tracks ps os (delivers html) (Monitor.send_email html).
Proof.
  unfold Monitor.send_email.
  assert (Habsent : tracks ps os (delivers html)
    (Monitor.print "ERROR: GMAIL_APP_PASSWORD environment variable not set";;
     Monitor.print "Saving report to file instead...";;
     Monitor.save_to_file html)).
  { do 2 (apply tracks_bind; [by apply tracks_emit|]; intros _).
    apply tracks_save_to_file. }
  destruct (Monitor.environ_get "GMAIL_APP_PASSWORD") as [[|c pw]|]; try done.
  apply tracks_try_except.
  - apply tracks_bind; [by apply tracks_emit|]. intros _.
    apply tracks_bind; [apply tracks_lift|]. intros _.
    by apply tracks_emit.
  - intros e. apply tracks_bind; [by apply tracks_emit|]. intros _.
    apply tracks_save_to_file.
Qed.

Lemma send_email_absent (html : string) (self : Monitor.monitor) :
  (Monitor.print "ERROR: GMAIL_APP_PASSWORD environment variable not set";;
   Monitor.print "Saving report to file instead...";;
   Monitor.save_to_file html) self
  = Monitor.save_to_file html
      (Monitor.Monitor_ (Monitor.permits self) (Monitor.osha_incidents self)
         (Monitor.out self ++
          [ Monitor.Print "ERROR: GMAIL_APP_PASSWORD environment variable not set";
            Monitor.Print "Saving report to file instead..." ])).
Proof.
  erewrite bind_ok by reflexivity. erewrite bind_ok by reflexivity.
  cbn [Monitor.permits Monitor.osha_incidents Monitor.out].
  by rewrite <- app_assoc.
Qed.

Lemma send_email_char (html : string) (self : Monitor.monitor) :
  Monitor.send_email html self =
  let after events :=
    Monitor.Monitor_ (Monitor.permits self) (Monitor.osha_incidents self)
                     (Monitor.out self ++ events) in
  let absent :=
    Monitor.save_to_file html
      (after [ Monitor.Print "ERROR: GMAIL_APP_PASSWORD environment variable not set";
               Monitor.Print "Saving report to file instead..." ]) in
  match Monitor.environ_get "GMAIL_APP_PASSWORD" with
  | None | Some EmptyString => absent
  | Some password =>
      match Monitor.smtp_deliver (email_message html) password with
      | Ok _ =>
          (Ok tt, after [ Monitor.SmtpSend (email_message html);
                          Monitor.Print "Email sent successfully to Dhead20@gmail.com" ])
      | Raise e =>
          Monitor.save_to_file html
            (after [ Monitor.SmtpSend (email_message html);
                     Monitor.Print (cat ["Error sending email: "; e]) ])
      end
  end.
Proof.
  cbv zeta. unfold Monitor.send_email.
  destruct (Monitor.environ_get "GMAIL_APP_PASSWORD") as [[|c pw]|];
    try apply send_email_absent.
  unfold try_except. cbv zeta.
  change (Monitor.Message _ _ _ html) with (email_message html).
  erewrite bind_ok by reflexivity.
  destruct (Monitor.smtp_deliver (email_message html) (String c pw)) as [[]|e] eqn:E.
  - erewrite bind_ok by reflexivity.
    unfold Monitor.print, Monitor.emit, modify.
    cbn [Monitor.permits Monitor.osha_incidents Monitor.out].
    by rewrite <- app_assoc.
  - erewrite bind_raise by reflexivity.
    erewrite bind_ok by reflexivity.
    cbn [Monitor.permits Monitor.osha_incidents Monitor.out].
    by rewrite <- app_assoc.
Qed.

(** X9. [send_email] writes the report file exactly when delivery fails:
    with a credential and an SMTP exchange that succeeds it hands the
    message over, prints the confirmation and touches no file; in every
    case the message and the file carry the report it was given, nothing
    is exported, and the two lists of leads stay as they are. *)
Theorem report_file_written_iff_delivery_fails (html : string)
    (self : Monitor.monitor) :
  let r := Monitor.send_email html self in
  Monitor.permits r.2 = Monitor.permits self ∧
  Monitor.osha_incidents r.2 = Monitor.osha_incidents self ∧
  ∃ events,
    Monitor.out r.2 = Monitor.out self ++ events ∧
    Forall (delivers html) events ∧
    (Monitor.FileWrite report_file html ∈ events ↔ DeliveryFails html) ∧
    (¬ DeliveryFails html →
     r.1 = Ok tt ∧
     events = [ Monitor.SmtpSend (email_message html);
                Monitor.Print "Email sent successfully to Dhead20@gmail.com" ]).
Proof.
  cbv zeta. rewrite send_email_char. cbv zeta. unfold DeliveryFails.
  destruct (Monitor.environ_get "GMAIL_APP_PASSWORD") as [[|c pw]|];
    [| destruct (Monitor.smtp_deliver (email_message html) (String c pw))
         as [[]|e] eqn:E |];
    rewrite ?save_to_file_char;
    try destruct (Monitor.file_write report_file html) as [[]|e'];
    cbn [fst snd Monitor.permits Monitor.osha_incidents Monitor.out];
    (split_and!; [done..|]); rewrite <- ?app_assoc;
    (eexists; split; [reflexivity|]); cbn [app];
    (split_and!; [by repeat constructor | | ]).
  all: try (split; [done|intros _; set_solver]).
  all: try (intros Hn; by destruct Hn).
  all: try (split; [intros _; by eexists|intros _; set_solver]).
  all: try (intros Hn; destruct Hn; by eexists).
  all: try (split; [|by intros [e0 He]]; intros Hin;
            apply elem_of_cons in Hin as [Hin|Hin]; [done|];
            by apply list_elem_of_singleton in Hin).
  all: done.
Qed.

Lemma save_to_csv_char (self : Monitor.monitor) :
  Monitor.save_to_csv self =
  let after events :=
    Monitor.Monitor_ (Monitor.permits self) (Monitor.osha_incidents self)
                     (Monitor.out self ++ events) in
  match Monitor.csv_rows self with
  | [] => (Ok tt, self)
  | _ :: _ =>
      match Monitor.to_csv csv_file (Monitor.csv_rows self) with
      | Ok _ =>
          (Ok tt, after [ Monitor.CsvWrite csv_file (Monitor.csv_rows self);
                          Monitor.Print (cat ["Leads saved to "; csv_file]) ])
      | Raise e =>
          (Raise e, after [Monitor.CsvWrite csv_file (Monitor.csv_rows self)])
      end
  end.
Proof.
  cbv zeta. unfold Monitor.save_to_csv. erewrite bind_ok by reflexivity.
  cbv zeta. unfold id.
  destruct (Monitor.csv_rows self) as [|row rows] eqn:Erows; [done|].
  fold csv_file. erewrite bind_ok by reflexivity.
  destruct (Monitor.to_csv csv_file (row :: rows)) as [[]|e] eqn:E.
  - erewrite bind_ok by reflexivity.
    unfold Monitor.print, Monitor.emit, modify.
    cbn [Monitor.permits Monitor.osha_incidents Monitor.out].
    by rewrite <- app_assoc.
  - by erewrite bind_raise by reflexivity.
Qed.

(** X10. [save_to_csv] exports one row for every lead, the permits
    first and in their order, then the incidents: a permit's row has type
    "Permit" and priority "Medium", an incident's row type "OSHA Incident"
    and priority "High", whatever priority the lead itself carries, and
    [details] holds the project type of the one and the description of the
    other. With no lead nothing is exported or printed; otherwise the
    table is handed over once, the call ends as the write ends, and the
    line "Leads saved to ..." is printed when the write succeeds and
    nothing when it raises. The lists of the monitor stay as they are. *)
Theorem save_to_csv_exports_every_lead (self : Monitor.monitor) :
  let r := Monitor.save_to_csv self in
  let rows := Monitor.csv_rows self in
  Monitor.permits r.2 = Monitor.permits self ∧
  Monitor.osha_incidents r.2 = Monitor.osha_incidents self ∧
  length rows
  = length (Monitor.permits self) + length (Monitor.osha_incidents self) ∧
  (∀ i permit, Monitor.permits self !! i = Some permit →
     ∃ row, rows !! i = Some row ∧
            row !! "type" = Some (VStr "Permit") ∧
            row !! "priority" = Some (VStr "Medium") ∧
            row !! "name" = Some (get permit "name") ∧
            row !! "details" = Some (get permit "project_type")) ∧
  (∀ i incident, Monitor.osha_incidents self !! i = Some incident →
     ∃ row, rows !! (length (Monitor.permits self) + i) = Some row ∧
            row !! "type" = Some (VStr "OSHA Incident") ∧
            row !! "priority" = Some (VStr "High") ∧
            row !! "name" = Some (get incident "name") ∧
            row !! "details" = Some (get incident "description")) ∧
  (rows = [] → r = (Ok tt, self)) ∧
  (rows ≠ [] →
   ∃ events,
     Monitor.out r.2
     = Monitor.out self ++ Monitor.CsvWrite csv_file rows :: events ∧
     Forall (λ e, ∃ line, e = Monitor.Print line) events ∧
     r.1 = Monitor.to_csv csv_file rows ∧
     events = match Monitor.to_csv csv_file rows with
              | Ok _ => [Monitor.Print (cat ["Leads saved to "; csv_file])]
              | Raise _ => []
              end).
Proof.
  cbv zeta. rewrite save_to_csv_char. cbv zeta. split_and!.
  - destruct (Monitor.csv_rows self); [done|]. by destruct (Monitor.to_csv _ _).
  - destruct (Monitor.csv_rows self); [done|]. by destruct (Monitor.to_csv _ _).
  - unfold Monitor.csv_rows. by rewrite length_app, !length_fmap.
  - intros i permit Hi. exists (Monitor.permit_row permit). split; [|done].
    unfold Monitor.csv_rows. rewrite lookup_app_l.
    + by rewrite list_lookup_fmap, Hi.
    + rewrite length_fmap. by apply lookup_lt_Some in Hi.
  - intros i incident Hi. exists (Monitor.incident_row incident). split; [|done].
    unfold Monitor.csv_rows. rewrite lookup_app_r; rewrite length_fmap; [|lia].
    replace (length (Monitor.permits self) + i - length (Monitor.permits self))
      with i by lia.
    by rewrite list_lookup_fmap, Hi.
  - by intros ->.
  - intros Hrows. destruct (Monitor.csv_rows self) as [|row rows] eqn:E; [done|].
    destruct (Monitor.to_csv csv_file (row :: rows)) as [[]|e];
      cbn [fst snd Monitor.out]; eexists; (split; [reflexivity|]).
    + split; [|done]. repeat constructor. by eexists.
    + split; [constructor|done].
Qed.

Lemma foldl_append {A} (f : A → string) (xs : list A) (init : string) :
  foldl (λ html x, html +:+ f x) init xs = init +:+ cat (f <$> xs).
Proof.
  revert init. induction xs as [|x xs IH]; intros init; cbn [foldl].
  - simpl. by rewrite app_empty_r.
  - rewrite IH, fmap_cons. unfold cat at 2. cbn [foldr].
    by rewrite app_assoc_str.
Qed.

Lemma substring_refl (p : string) : Substring p p.
Proof. exists "", "". by rewrite app_empty_l, app_empty_r. Qed.

Lemma substring_app_l (p a b : string) : Substring p a → Substring p (a +:+ b).
Proof.
  intros (pre & post & ->). exists pre, (post +:+ b).
  by rewrite !app_assoc_str.
Qed.

Lemma substring_app_r (p a b : string) : Substring p b → Substring p (a +:+ b).
Proof.
  intros (pre & post & ->). exists (a +:+ pre), post.
  by rewrite !app_assoc_str.
Qed.

Lemma substring_cat_elem {A} (f : A → string) (xs : list A) (x : A) :
  x ∈ xs → Substring (f x) (cat (f <$> xs)).
Proof.
  intros (pre & post & ->)%list_elem_of_split.
  rewrite fmap_app, cat_app, fmap_cons. apply substring_app_r.
  unfold cat at 1. cbn [foldr]. apply substring_app_l, substring_refl.
Qed.

Ltac piece_at n m :=
  first [ apply (cat_pieces _ n m); reflexivity
        | apply (cat_pieces_indented _ n m "                "); reflexivity ].

Ltac find_piece_upto n m bound :=
  first [ piece_at n m
        | lazymatch n with
          | bound => fail "no such piece"
          | _ => find_piece_upto (S n) m bound
          end ].

(** X11. The report of [generate_email_report] begins with the head and
    ends with the foot of the template, shows the two counts and their
    sum, and contains the rendering of every permit and of every incident
    of the monitor; a list that is empty is replaced by its "No new ...
    found today." line. Building the report changes nothing. *)
Theorem report_lists_every_lead (self : Monitor.monitor) :
  ∃ html body,
    Monitor.generate_email_report self = (Ok html, self) ∧
    html = Monitor.report_head (Monitor.now_strftime "%B %d, %Y") self
           +:+ body +:+ Monitor.report_foot ∧
    Substring (cat [ "<p><strong>New Building Permits:</strong> ";
                     pretty (length (Monitor.permits self)); "</p>" ]) html ∧
    Substring (cat [ "<p><strong>OSHA Incidents:</strong> ";
                     pretty (length (Monitor.osha_incidents self)); "</p>" ])
              html ∧
    Substring (cat [ "<p><strong>Total Leads:</strong> ";
                     pretty (length (Monitor.permits self)
                             + length (Monitor.osha_incidents self)); "</p>" ])
              html ∧
    (∀ permit, permit ∈ Monitor.permits self →
       Substring (Monitor._format_permit_html permit) body) ∧
    (∀ incident, incident ∈ Monitor.osha_incidents self →
       Substring (Monitor._format_incident_html incident) body) ∧
    (Monitor.permits self = [] →
       Substring "<p>No new permits found today.</p>" body) ∧
    (Monitor.osha_incidents self = [] →
       Substring "<p>No new incidents found today.</p>" body).
Proof.
  set (permits_part :=
    match Monitor.permits self with
    | _ :: _ => "<h2>🏗️ New Building Permits & Renovations</h2>"
                +:+ cat (Monitor._format_permit_html <$> Monitor.permits self)
    | [] => "<h2>🏗️ New Building Permits & Renovations</h2><p>No new permits found today.</p>"
    end).
  set (osha_part :=
    match Monitor.osha_incidents self with
    | _ :: _ => "<h2>⚠️ OSHA Safety Incidents</h2>"
                +:+ cat (Monitor._format_incident_html
                           <$> Monitor.osha_incidents self)
    | [] => "<h2>⚠️ OSHA Safety Incidents</h2><p>No new incidents found today.</p>"
    end).
  set (head := Monitor.report_head (Monitor.now_strftime "%B %d, %Y") self).
  exists (head +:+ (permits_part +:+ osha_part) +:+ Monitor.report_foot),
         (permits_part +:+ osha_part).
  assert (Hhead : ∀ p, Substring p head →
            Substring p (head +:+ (permits_part +:+ osha_part)
                         +:+ Monitor.report_foot)).
  { intros p Hp. by apply substring_app_l. }
  split_and!.
  - unfold Monitor.generate_email_report. erewrite bind_ok by reflexivity.
    cbv zeta. unfold id. fold head. unfold mret, M_ret, ret. f_equal. f_equal.
    subst permits_part osha_part.
    destruct (Monitor.permits self) as [|permit ps] eqn:Ep;
      destruct (Monitor.osha_incidents self) as [|incident os] eqn:Eo;
      rewrite ?foldl_append, !app_assoc_str; reflexivity.
  - done.
  - apply Hhead. unfold head, Monitor.report_head. find_piece_upto 60 3 110.
  - apply Hhead. unfold head, Monitor.report_head. find_piece_upto 60 3 110.
  - apply Hhead. unfold head, Monitor.report_head. find_piece_upto 60 3 110.
  - intros permit Hin. apply substring_app_l. subst permits_part.
    destruct (Monitor.permits self) as [|p0 ps]; [by apply elem_of_nil in Hin|].
    by apply substring_app_r, substring_cat_elem.
  - intros incident Hin. apply substring_app_r. subst osha_part.
    destruct (Monitor.osha_incidents self) as [|p0 ps];
      [by apply elem_of_nil in Hin|].
    by apply substring_app_r, substring_cat_elem.
  - intros E. apply substring_app_l. subst permits_part. rewrite E.
    by exists "<h2>🏗️ New Building Permits & Renovations</h2>", "".
  - intros E. apply substring_app_r. subst osha_part. rewrite E.
    by exists "<h2>⚠️ OSHA Safety Incidents</h2>", "".
Qed.

Lemma send_email_delivers (html : string) (self : Monitor.monitor) :
  ∃ events,
    Monitor.out (Monitor.send_email html self).2 = Monitor.out self ++ events ∧
    (Monitor.SmtpSend (email_message html) ∈ events ∨
     Monitor.FileWrite report_file html ∈ events).
Proof.
  rewrite send_email_char. cbv zeta.
  destruct (Monitor.environ_get "GMAIL_APP_PASSWORD") as [[|c pw]|];
    [| destruct (Monitor.smtp_deliver (email_message html) (String c pw))
         as [[]|e] |];
    rewrite ?save_to_file_char;
    try destruct (Monitor.file_write report_file html) as [[]|e'];
    cbn [fst snd Monitor.out]; rewrite <- ?app_assoc;
    (eexists; split; [reflexivity|]); cbn [app]; set_solver.
Qed.

Lemma tracks_save_to_csv (ps os : list lead) :
  tracks ps os (carries ps os) Monitor.save_to_csv.
Proof.
  intros s Hp Ho. rewrite save_to_csv_char. cbv zeta.
  assert (Hrows : Monitor.csv_rows s
                  = Monitor.csv_rows (Monitor.Monitor_ ps os [])).
  { unfold Monitor.csv_rows. cbn [Monitor.permits Monitor.osha_incidents].
    by rewrite Hp, Ho. }
  destruct (Monitor.csv_rows s) as [|row rows] eqn:E.
  - split_and!; [done..|]. exists []. by rewrite app_nil_r.
  - destruct (Monitor.to_csv csv_file (row :: rows)) as [[]|e];
      cbn [fst snd Monitor.permits Monitor.osha_incidents Monitor.out];
      (split_and!; [done..|]); eexists; (split; [reflexivity|]);
      by repeat constructor.
Qed.

Lemma tracks_bind_events {A B} (ps os : list lead) (P : Monitor.event → Prop)
    (m : M Monitor.monitor A) (k : A → M Monitor.monitor B)
    (s : Monitor.monitor) :
  tracks ps os P m → (∀ a, tracks ps os P (k a)) →
  Monitor.permits s = ps → Monitor.osha_incidents s = os →
  Monitor.permits ((m ≫= k) s).2 = ps ∧
  Monitor.osha_incidents ((m ≫= k) s).2 = os ∧
  ∃ events, Monitor.out ((m ≫= k) s).2 = Monitor.out (m s).2 ++ events ∧
            Forall P events.
Proof.
  intros Hm Hk Hp Ho.
  destruct (Hm s Hp Ho) as (Hp1 & Ho1 & ev1 & Hout1 & HP1).
  destruct (m s) as [[a|e] s1] eqn:E; cbn [fst snd] in *.
  - rewrite (bind_ok _ _ _ _ _ E). by apply Hk.
  - rewrite (bind_raise _ _ _ _ _ E). cbn [fst snd].
    split_and!; [done..|]. exists []. by rewrite app_nil_r.
Qed.

(** X12. [run] leaves in the monitor the collected permits and incidents
    that match a target industry, and everything it hands to the outside
    is built from these two filtered lists: the message it sends and the
    file it writes carry the report of these lists, the table it exports
    holds their rows, and the report is either handed to the SMTP server
    or written to the report file. This holds whether or not a write
    raises. *)
Theorem run_reports_the_filtered_leads (self : Monitor.monitor) :
  let r := Monitor.run self in
  let ps := Monitor.filter_by_industry (Monitor.permits self ++ collected_permits) in
  let os := Monitor.filter_by_industry
              (Monitor.osha_incidents self ++ queried_incidents) in
  Monitor.permits r.2 = ps ∧
  Monitor.osha_incidents r.2 = os ∧
  ∃ events,
    Monitor.out r.2 = Monitor.out self ++ events ∧
    Forall (carries ps os) events ∧
    (Monitor.SmtpSend (email_message (report_of ps os)) ∈ events ∨
     Monitor.FileWrite report_file (report_of ps os) ∈ events).
Proof.
  intros r ps os. subst r. unfold Monitor.run.
  do 4 erewrite bind_ok by reflexivity.
  erewrite bind_ok by apply search_ma_permits_char.
  erewrite bind_ok by apply search_osha_incidents_char.
  do 4 erewrite bind_ok by reflexivity.
  erewrite bind_ok by apply generate_email_report_char.
  cbn [Monitor.permits Monitor.osha_incidents Monitor.out].
  fold ps os.
  match goal with
  | |- context [(Monitor.send_email ?html ≫= ?k) ?s] =>
      set (s4 := s); set (tail := k)
  end.
  destruct (tracks_bind_events ps os (carries ps os)
              (Monitor.send_email (report_of ps os)) tail s4)
    as (Hp & Ho & ev2 & Hout2 & Hall2); [| |done|done|].
  { eapply tracks_weaken; [|apply tracks_send_email].
    intros [line|msg|f c|f rows]; done. }
  { intros a. subst tail. cbv beta.
    apply tracks_bind; [apply tracks_save_to_csv|]. intros _.
    do 2 (apply tracks_bind; [by apply tracks_emit|]; intros _).
    apply tracks_bind; [apply tracks_gets|]. intros ?.
    apply tracks_bind; [by apply tracks_emit|]. intros _.
    apply tracks_bind; [apply tracks_gets|]. intros ?.
    apply tracks_bind; [by apply tracks_emit|]. intros _.
    by apply tracks_emit. }
  destruct (send_email_delivers (report_of ps os) s4) as (ev1 & Hout1 & Hin1).
  destruct (tracks_send_email ps os (report_of ps os) s4 eq_refl eq_refl)
    as (_ & _ & ev1' & Hout1' & Hall1).
  assert (ev1' = ev1) as -> by (eapply app_inv_head; by rewrite <- Hout1', Hout1).
  split_and!; [done..|].
  rewrite Hout2, Hout1. subst s4. cbn [Monitor.out].
  rewrite <- !app_assoc. eexists. split; [reflexivity|]. split.
  - repeat (apply Forall_app; split); try by repeat constructor.
    + constructor; [done|]. unfold collected_warnings.
      apply Forall_concat, Forall_fmap, Forall_true. intros entry.
      unfold compose.
      apply Forall_concat, Forall_fmap, Forall_true. intros city.
      unfold compose, city_warning.
      destruct (Monitor._search_city_permits city entry.1);
        by repeat constructor.
    + constructor; [done|].
      unfold query_warning. destruct Monitor._query_osha_data;
        by repeat constructor.
    + eapply Forall_impl; [|exact Hall1].
      intros [line|msg|f c|f rows]; done.
  - repeat (rewrite elem_of_app || rewrite elem_of_cons). tauto.
Qed.

End MonitorPipeline.

(* ===================================================================== *)
(** * production_monitor.py: the scan and the e-mail body *)
(* ===================================================================== *)

Section ProductionScan.
Context {W : Production.Web}.

Lemma query_leads_length (query : string) (leads : list lead) :
  query_leads query = Ok leads → length leads ≤ 5.
Proof.
  unfold query_leads.
  destruct (Production.session_get _ 10) as [resp|]; [|done].
  destruct (Production.status_code resp =? 200).
  - destruct (Production.find_all_item resp) as [items|]; [|done].
    intros [= <-]. rewrite length_fmap, length_take. lia.
  - intros [= <-]. simpl. lia.
Qed.

Lemma news_collect_length (queries : list string) :
  length (news_collect queries).1 ≤ 5 * length queries.
Proof.
  induction queries as [|q qs IH]; cbn [news_collect]; [simpl; lia|].
  destruct (query_leads q) as [leads|e] eqn:E; cbn [fst length].
  - rewrite length_app. apply query_leads_length in E. lia.
  - lia.
Qed.

Lemma news_collect_elem_query (queries : list string) (d : lead) :
  d ∈ (news_collect queries).1 →
  ∃ item query, query ∈ queries ∧ d = Production.news_lead item query.
Proof.
  induction queries as [|q qs IH]; cbn [news_collect].
  - by intros ?%elem_of_nil.
  - destruct (query_leads q) as [leads|e] eqn:E; cbn [fst].
    + rewrite elem_of_app. intros [Hd|Hd].
      * unfold query_leads in E.
        destruct (Production.session_get _ 10) as [resp|]; [|done].
        destruct (Production.status_code resp =? 200).
        -- destruct (Production.find_all_item resp) as [items|]; [|done].
           injection E as <-. apply list_elem_of_fmap in Hd as (item & -> & _).
           exists item, q. split; [apply list_elem_of_here|done].
        -- injection E as <-. by apply elem_of_nil in Hd.
      * destruct (IH Hd) as (item & query & Hq & ->).
        exists item, query. split; [by apply list_elem_of_further|done].
    + by intros ?%elem_of_nil.
Qed.

Lemma query_leads_elem (query : string) (leads : list lead) (d : lead) :
  query_leads query = Ok leads → d ∈ leads →
  d !! "search_query" = Some (VStr query).
Proof.
  unfold query_leads.
  destruct (Production.session_get _ 10) as [resp|]; [|done].
  destruct (Production.status_code resp =? 200).
  - destruct (Production.find_all_item resp) as [items|]; [|done].
    intros [= <-] (item & -> & _)%list_elem_of_fmap. done.
  - intros [= <-] Hd. by apply elem_of_nil in Hd.
Qed.

Lemma filter_nothing {A} (P : A → Prop) `{∀ x, Decision (P x)} (l : list A) :
  (∀ x, x ∈ l → ¬ P x) → filter P l = [].
Proof.
  induction l as [|x l IH]; intros Hl; [done|].
  rewrite filter_cons_False by (apply Hl, list_elem_of_here).
  apply IH. intros y Hy. by apply Hl, list_elem_of_further.
Qed.

Lemma news_collect_other_query (queries : list string) (q : string) :
  q ∉ queries →
  filter (λ d : lead, d !! "search_query" = Some (VStr q))
         (news_collect queries).1 = [].
Proof.
  intros Hq. apply filter_nothing. intros d Hd Hdq.
  apply news_collect_elem_query in Hd as (item & query & Hquery & ->).
  assert (query = q) as -> by (by injection Hdq). done.
Qed.

Lemma news_collect_per_query (queries : list string) (q : string) :
  NoDup queries →
  length (filter (λ d : lead, d !! "search_query" = Some (VStr q))
                 (news_collect queries).1) ≤ 5.
Proof.
  induction 1 as [|q0 qs Hq0 Hqs IH]; cbn [news_collect]; [simpl; lia|].
  destruct (query_leads q0) as [leads|e] eqn:E; cbn [fst]; [|simpl; lia].
  rewrite list.filter_app, length_app.
  destruct (decide (q = q0)) as [->|Hne].
  - rewrite (news_collect_other_query qs q0 Hq0). cbn [length].
    pose proof (length_filter
                  (λ d : lead, d !! "search_query" = Some (VStr q0)) leads).
    apply query_leads_length in E. lia.
  - rewrite (filter_nothing _ leads); [cbn [length]; lia|].
    intros d Hd Hdq. rewrite (query_leads_elem _ _ _ E Hd) in Hdq.
    by injection Hdq.
Qed.

Lemma search_queries_NoDup (location : string) :
  NoDup (Production.search_queries location).
Proof.
  unfold Production.search_queries.
  repeat (apply list.NoDup_cons; split;
          [repeat (rewrite elem_of_cons); rewrite elem_of_nil;
           unfold cat; cbn [foldr]; intros H;
           repeat (destruct H as [H|H]; [discriminate H|]); exact H|]).
  apply NoDup_nil_2.
Qed.

(** X13. [search_google_news] always returns, with at most five leads
    for each of its six queries, thirty in all; every lead has source
    "Google News", type "News Mention", one of the six queries built from
    [location] as [search_query], and no [priority]. Its parameter
    [query] is shadowed by the loop variable: the call does the same for
    every value of it. *)
Theorem search_google_news_bounds (query location : string)
    (fr : Production.frame) :
  ∃ leads fr',
    Production.search_google_news query location fr = (Ok leads, fr') ∧
    Production.acc fr' = leads ∧
    length leads ≤ 30 ∧
    (∀ q, length (filter (λ d : lead, d !! "search_query" = Some (VStr q))
                         leads) ≤ 5) ∧
    Forall (λ d : lead,
              d !! "source" = Some (VStr "Google News") ∧
              d !! "type" = Some (VStr "News Mention") ∧
              d !! "priority" = None ∧
              ∃ q, q ∈ Production.search_queries location ∧
                   d !! "search_query" = Some (VStr q)) leads ∧
    ∀ query', Production.search_google_news query' location fr
              = (Ok leads, fr').
Proof.
  eexists _, _. split; [apply search_google_news_char|].
  split_and!.
  - done.
  - etrans; [apply news_collect_length|]. simpl. lia.
  - intros q. apply news_collect_per_query, search_queries_NoDup.
  - apply list.Forall_forall. intros d Hd.
    apply news_collect_elem_query in Hd as (item & q & Hq & ->).
    split_and!; [done..|]. by exists q.
  - intros query'. apply search_google_news_char.
Qed.

Lemma run_full_scan_returns (fr : Production.frame) :
  ∃ fr',
    Production.run_full_scan fr =
    (Ok (Production.filter_by_target_industries
           (heap_of ((news_collect (Production.search_queries "Massachusetts")).1
                     ++ osha_incidents_of "MA"))
           (locs_of ((news_collect (Production.search_queries "Massachusetts")).1
                     ++ osha_incidents_of "MA"))
           Production.target_keywords), fr').
Proof.
  exists (Production.run_full_scan fr).2.
  rewrite <- (run_full_scan_char fr). apply surjective_pairing.
Qed.

Lemma stamp_keyword_lookup_other (text_of : lead → string) (ks : list string)
    (d : lead) (k : string) :
  k ≠ "matched_keyword" → stamp_keyword text_of ks d !! k = d !! k.
Proof.
  intros Hk. unfold stamp_keyword.
  destruct (first_match ks (text_of d)); [|done].
  by rewrite lookup_insert_ne.
Qed.

(** X14. [run_full_scan] always returns; it returns at most fifty
    leads, each of them once, each with source "Google News" or "OSHA"
    and each stamped, as [matched_keyword], with the first target keyword
    that occurs in its title, description, company and category. *)
Theorem run_full_scan_invariants (fr : Production.frame) :
  ∃ h ls fr',
    Production.run_full_scan fr = (Ok (h, ls), fr') ∧
    NoDup ls ∧
    length ls ≤ 50 ∧
    Forall (λ l,
              (h l !! "source" = Some (VStr "Google News") ∨
               h l !! "source" = Some (VStr "OSHA")) ∧
              ∃ k, k ∈ Production.target_keywords ∧
                   h l !! "matched_keyword" = Some (VStr k) ∧
                   CISubstring k (Production.industry_fields (h l))) ls.
Proof.
  destruct (run_full_scan_returns fr) as [fr' Hrun].
  set (all_leads := (news_collect (Production.search_queries "Massachusetts")).1
                    ++ osha_incidents_of "MA") in *.
  destruct (production_industry_char (heap_of all_leads) (locs_of all_leads)
              Production.target_keywords) as [Hout Hheap].
  destruct (Production.filter_by_target_industries _ _ _) as [h ls].
  cbn [fst snd] in Hout, Hheap.
  exists h, ls, fr'. split; [done|]. split_and!.
  - rewrite Hout. apply list.NoDup_filter, list.NoDup_seq.
  - rewrite Hout. etrans; [apply length_filter|].
    unfold locs_of. rewrite length_seq. unfold all_leads. rewrite length_app.
    pose proof (news_collect_length (Production.search_queries "Massachusetts"))
      as Hn.
    change (length (Production.search_queries "Massachusetts")) with 6 in Hn.
    pose proof (osha_incidents_of_length "MA"). lia.
  - apply list.Forall_forall. intros l Hl.
    rewrite Hout, list_elem_of_filter in Hl. destruct Hl as [Hkept Hl].
    rewrite Hheap. rewrite decide_True; [|exact (conj Hl Hkept)].
    clear Hrun Hout Hheap. split.
    + rewrite stamp_keyword_lookup_other; [|discriminate].
      apply heap_of_locs_of in Hl. unfold all_leads in Hl.
      apply elem_of_app in Hl as [Hn|Ho].
      * left. apply news_collect_elem in Hn as (item & q & Hn).
        unfold all_leads. rewrite Hn. reflexivity.
      * right. apply osha_incidents_of_elem in Ho as [d Hd].
        apply incident_of_fields in Hd as (Hsrc & _). exact Hsrc.
    + destruct (stamp_keyword_lookup Production.industry_fields
                  Production.target_keywords (heap_of all_leads l) Hkept)
        as (k & (pre & post & Hks & Hci & _) & Hk).
      exists k. split_and!.
      * rewrite Hks. apply elem_of_app. right. apply list_elem_of_here.
      * exact Hk.
      * unfold stamp_keyword.
        destruct (first_match _ _); [|exact Hci].
        rewrite production_industry_fields_insert; [exact Hci|discriminate..].
Qed.

(** X15. The e-mail body of [format_leads_for_email] is the head, the
    OSHA part, the heading of the news part, the news part and the foot:
    every lead whose source is "OSHA" is rendered in the first part and
    every lead whose source is "Google News" in the second, a part
    without a lead is its "No ... found today." line, and a lead of any
    other source is rendered in neither part. *)
Theorem email_lists_leads_by_source (now : string) (leads : list lead) :
  ∃ osha_part news_part,
    Production.format_leads_for_email now leads
    = Production.report_head now leads
        (Production.by_source "OSHA" leads)
        (Production.by_source "Google News" leads)
      +:+ osha_part +:+ "<h2>📰 New Business Activities</h2>"
      +:+ news_part +:+ Production.report_foot ∧
    osha_part
    = (if decide (Production.by_source "OSHA" leads = [])
       then "<p>No OSHA incidents found today.</p>"
       else cat (Production.osha_entry <$> Production.by_source "OSHA" leads)) ∧
    news_part
    = (if decide (Production.by_source "Google News" leads = [])
       then "<p>No news mentions found today.</p>"
       else cat (Production.news_entry
                   <$> Production.by_source "Google News" leads)) ∧
    (∀ lead_, lead_ ∈ leads → get lead_ "source" = VStr "OSHA" →
       Substring (Production.osha_entry lead_) osha_part) ∧
    (∀ lead_, lead_ ∈ leads → get lead_ "source" = VStr "Google News" →
       Substring (Production.news_entry lead_) news_part) ∧
    (∀ other,
       get other "source" ≠ VStr "OSHA" →
       get other "source" ≠ VStr "Google News" →
       ∀ before after,
         leads = before ++ other :: after →
         Production.by_source "OSHA" leads
         = Production.by_source "OSHA" (before ++ after) ∧
         Production.by_source "Google News" leads
         = Production.by_source "Google News" (before ++ after)).
Proof.
  eexists _, _. split_and!; [|reflexivity|reflexivity|..].
  - unfold Production.format_leads_for_email. cbv zeta.
    destruct (Production.by_source "OSHA" leads) as [|o os] eqn:Eo;
      destruct (Production.by_source "Google News" leads) as [|n ns] eqn:En;
      rewrite ?foldl_append; cbn [decide_rel]; rewrite ?decide_True by done;
      rewrite ?decide_False by done; by rewrite !app_assoc_str.
  - intros lead_ Hin Hsrc.
    assert (Hl : lead_ ∈ Production.by_source "OSHA" leads)
      by (by apply list_elem_of_filter).
    rewrite decide_False by (intros E; rewrite E in Hl; by apply elem_of_nil in Hl).
    by apply substring_cat_elem.
  - intros lead_ Hin Hsrc.
    assert (Hl : lead_ ∈ Production.by_source "Google News" leads)
      by (by apply list_elem_of_filter).
    rewrite decide_False by (intros E; rewrite E in Hl; by apply elem_of_nil in Hl).
    by apply substring_cat_elem.
  - intros other H1 H2 before after ->. unfold Production.by_source.
    rewrite !list.filter_app, !filter_cons_False by done. done.
Qed.

End ProductionScan.

(* ===================================================================== *)
(** * historical_data_collector.py: the collection and the run *)
(* ===================================================================== *)

Section HistoricalCollection.
Context {W : Production.Web}.
Variable today : string.
Variable soup_get_text : Production.response → result string.

Lemma append_each_char {A} (f : A → lead) (items : list A)
    (fr : Production.frame) :
  for_each items (λ item, Production.append (f item)) fr
  = (Ok tt, Production.Frame (Production.acc fr ++ (f <$> items))
                             (Production.stdout fr)).
Proof.
  revert fr. induction items as [|item items IH]; intros fr.
  - simpl. unfold ret. destruct fr. by rewrite app_nil_r.
  - cbn [for_each]. unfold bind at 1. unfold Production.append at 1, modify.
    rewrite IH. simpl. by rewrite <- app_assoc.
Qed.

Lemma search_google_news_by_month_char (query : string) (year month : nat)
    (fr : Production.frame) :
  ∃ lines,
    HistoricalRun.search_google_news_by_month today query year month fr
    = (Ok (month_leads today query year month),
       Production.Frame (month_leads today query year month)
                        (Production.stdout fr ++ lines)) ∧
    match Production.session_get (HistoricalRun.month_url query year month) 15
    with
    | Raise e => list.last lines = Some (cat ["    Error: "; e])
    | Ok _ => True
    end.
Proof.
  unfold HistoricalRun.search_google_news_by_month, month_leads.
  unfold try_except, mbind, M_bind. unfold bind at 1 2 3 4.
  unfold Production.reset, Production.print at 1, modify, lift at 1.
  destruct (Production.session_get _ 15) as [resp|e].
  - destruct (Production.status_code resp =? 200).
    + unfold bind at 1. unfold lift at 1.
      destruct (Production.find_all_item resp) as [items|e].
      * unfold bind at 1. rewrite append_each_char.
        eexists. split; [|done]. unfold Production.print, modify, gets.
        cbn [Production.acc Production.stdout app].
        rewrite <- app_assoc. reflexivity.
      * eexists. split; [|done]. unfold Production.print, modify, gets.
        cbn [Production.acc Production.stdout app].
        rewrite <- app_assoc. reflexivity.
    + eexists. split; [|done]. unfold mret, M_ret, ret, gets.
      cbn [Production.acc Production.stdout]. reflexivity.
  - eexists. split.
    + unfold Production.print, modify, gets.
      cbn [Production.acc Production.stdout app].
      rewrite <- app_assoc. reflexivity.
    + done.
Qed.

Lemma month_lead_fields (item : Production.rss_item) (query : string)
    (year month : nat) :
  let d := HistoricalRun.month_lead today item query year month in
  d !! "source" = Some (VStr "Google News") ∧
  d !! "type" = Some (VStr "News Mention") ∧
  d !! "search_query" = Some (VStr query) ∧
  d !! "search_month" = Some (VStr (HistoricalRun.year_month year month)) ∧
  d !! "date_found" = Some (VStr today).
Proof. done. Qed.

Lemma month_leads_elem (query : string) (year month : nat) (d : lead) :
  d ∈ month_leads today query year month →
  ∃ item, d = HistoricalRun.month_lead today item query year month.
Proof.
  unfold month_leads.
  destruct (Production.session_get _ 15) as [resp|e];
    [|by intros ?%elem_of_nil].
  destruct (Production.status_code resp =? 200); [|by intros ?%elem_of_nil].
  destruct (Production.find_all_item resp) as [items|e];
    [|by intros ?%elem_of_nil].
  intros (item & -> & _)%list_elem_of_fmap. by exists item.
Qed.

(** X16. A call of [search_google_news_by_month] always returns. On a
    feed that is fetched with status 200 and parsed it returns one lead
    for every item, in order and without a cap; when the request raises it
    returns no lead and prints the error. Every lead carries the query,
    the month as "year-mm", the date of the call, source "Google News" and
    type "News Mention". *)
Theorem news_by_month_postcondition (query : string) (year month : nat)
    (fr : Production.frame) :
  ∃ leads fr',
    HistoricalRun.search_google_news_by_month today query year month fr
    = (Ok leads, fr') ∧
    Production.acc fr' = leads ∧
    Forall (λ d : lead,
              d !! "source" = Some (VStr "Google News") ∧
              d !! "type" = Some (VStr "News Mention") ∧
              d !! "search_query" = Some (VStr query) ∧
              d !! "search_month"
                = Some (VStr (HistoricalRun.year_month year month)) ∧
              d !! "date_found" = Some (VStr today)) leads ∧
    (∀ resp items,
       Production.session_get (HistoricalRun.month_url query year month) 15
         = Ok resp →
       Production.status_code resp = 200 →
       Production.find_all_item resp = Ok items →
       leads = (λ item, HistoricalRun.month_lead today item query year month)
                 <$> items) ∧
    (∀ e,
       Production.session_get (HistoricalRun.month_url query year month) 15
         = Raise e →
       leads = [] ∧
       list.last (Production.stdout fr') = Some (cat ["    Error: "; e])).
Proof.
  destruct (search_google_news_by_month_char query year month fr)
    as (lines & Hrun & Hlines).
  eexists _, _. split; [exact Hrun|]. split_and!.
  - done.
  - apply list.Forall_forall. intros d (item & ->)%month_leads_elem.
    apply month_lead_fields.
  - intros resp items Hget Hstatus Hitems. unfold month_leads.
    by rewrite Hget, Hstatus, Hitems.
  - intros e Hget. rewrite Hget in Hlines. unfold month_leads. rewrite Hget.
    split; [done|]. cbn [Production.stdout].
    destruct lines as [|line lines] using rev_ind; [done|].
    rewrite app_assoc, last_snoc. by rewrite last_snoc in Hlines.
Qed.

Lemma extend_each_char {A} (xs : list A)
    (call : A → M Production.frame (list lead)) (g : A → list lead) :
  (∀ x fr, ∃ fr', call x fr = (Ok (g x), fr')) →
  ∀ all fr, ∃ fr',
    HistoricalRun.extend_each xs call all fr
    = (Ok (all ++ concat (g <$> xs)), fr').
Proof.
  intros Hcall. induction xs as [|x xs IH]; intros all fr.
  - exists fr. simpl. by rewrite app_nil_r.
  - cbn [HistoricalRun.extend_each]. destruct (Hcall x fr) as [fr1 H1].
    erewrite bind_ok by exact H1.
    destruct (IH (all ++ g x) fr1) as [fr2 ->]. exists fr2.
    by rewrite fmap_cons, concat_cons, app_assoc.
Qed.

Lemma collect_news_historical_char (fr : Production.frame) :
  ∃ fr', HistoricalRun.collect_news_historical today fr
         = (Ok (collected_news today), fr').
Proof.
  unfold HistoricalRun.collect_news_historical.
  do 3 erewrite bind_ok by reflexivity.
  match goal with |- ∃ fr', (_ ≫= _) ?s = _ => generalize s end. intros fr0.
  assert (Hquery : ∀ (month : nat) (query : string) (fr : Production.frame),
    ∃ fr', HistoricalRun.search_google_news_by_month today query 2025 month fr
           = (Ok (month_leads today query 2025 month), fr')).
  { intros month query fr1.
    destruct (search_google_news_by_month_char query 2025 month fr1)
      as (lines & Hrun & _).
    eexists. exact Hrun. }
  assert (Hmonth : ∀ (month : nat) (fr : Production.frame), ∃ fr',
    (Production.print (cat [nl; "📅 Month: 2025-"; HistoricalRun.pad2 month]);;
     HistoricalRun.extend_each HistoricalRun.queries (λ query,
       HistoricalRun.search_google_news_by_month today query 2025 month) []) fr
    = (Ok (concat ((λ query, month_leads today query 2025 month)
                     <$> HistoricalRun.queries)), fr')).
  { intros month fr1. erewrite bind_ok by reflexivity.
    match goal with |- ∃ fr', _ ?s = _ => generalize s end. intros fr2.
    destruct (extend_each_char HistoricalRun.queries _ _ (Hquery month) [] fr2)
      as [fr3 H3].
    rewrite app_nil_l in H3. exists fr3. exact H3. }
  destruct (extend_each_char (seq 1 10) _ _ Hmonth [] fr0) as [fr1 H1].
  rewrite app_nil_l in H1.
  rewrite (bind_ok _ _ _ _ _ H1).
  erewrite bind_ok by reflexivity.
  eexists. reflexivity.
Qed.

Lemma elem_of_concat {A} (x : A) (ls : list (list A)) :
  x ∈ concat ls ↔ ∃ l, x ∈ l ∧ l ∈ ls.
Proof.
  induction ls as [|l0 ls IH]; simpl.
  - split; [by intros ?%elem_of_nil|by intros (l & _ & ?%elem_of_nil)].
  - rewrite elem_of_app, IH. split.
    + intros [H|(l & H1 & H2)].
      * exists l0. split; [done|apply list_elem_of_here].
      * exists l. split; [done|by apply list_elem_of_further].
    + intros (l & H1 & [->|H2]%elem_of_cons); [by left|].
      right. by exists l.
Qed.

Lemma collected_news_elem (d : lead) :
  d ∈ collected_news today ↔
  ∃ query month, query ∈ HistoricalRun.queries ∧ 1 ≤ month ≤ 10 ∧
                 d ∈ month_leads today query 2025 month.
Proof.
  unfold collected_news. rewrite elem_of_concat. split.
  - intros (l & Hd & (month & -> & Hm)%list_elem_of_fmap).
    apply elem_of_concat in Hd as (l & Hd & (query & -> & Hq)%list_elem_of_fmap).
    exists query, month. apply elem_of_seq in Hm. split_and!; [done|lia|lia|done].
  - intros (query & month & Hq & Hm & Hd).
    exists (concat ((λ query, month_leads today query 2025 month)
                      <$> HistoricalRun.queries)).
    split.
    + apply elem_of_concat. eexists. split; [exact Hd|].
      apply list_elem_of_fmap. by exists query.
    + apply list_elem_of_fmap. exists month. split; [done|].
      apply elem_of_seq. lia.
Qed.

(** X17. [collect_news_historical] always returns, and what it returns
    is, month by month from January to October and query by query, what
    each of the 110 calls contributes: a call that fails contributes
    nothing and takes nothing away from the others. *)
Theorem collect_news_historical_isolates_requests (fr : Production.frame) :
  ∃ fr',
    HistoricalRun.collect_news_historical today fr
    = (Ok (collected_news today), fr') ∧
    length HistoricalRun.queries * length (seq 1 10) = 110 ∧
    (∀ d, d ∈ collected_news today ↔
          ∃ query month, query ∈ HistoricalRun.queries ∧ 1 ≤ month ≤ 10 ∧
                         d ∈ month_leads today query 2025 month) ∧
    Forall (λ d : lead,
              d !! "source" = Some (VStr "Google News") ∧
              ∃ query month,
                query ∈ HistoricalRun.queries ∧ 1 ≤ month ≤ 10 ∧
                d !! "search_query" = Some (VStr query) ∧
                d !! "search_month"
                  = Some (VStr (HistoricalRun.year_month 2025 month)))
           (collected_news today).
Proof.
  destruct (collect_news_historical_char fr) as [fr' Hrun].
  exists fr'. split_and!; [done|done|apply collected_news_elem|].
  apply list.Forall_forall. intros d Hd.
  apply collected_news_elem in Hd as (query & month & Hq & Hm & Hd).
  apply month_leads_elem in Hd as (item & ->).
  split; [done|]. by exists query, month.
Qed.

Lemma search_osha_historical_char (fr : Production.frame) :
  ∃ osha_leads fr',
    HistoricalRun.search_osha_historical soup_get_text fr = (Ok osha_leads, fr') ∧
    (osha_leads = [] ∨ osha_leads = [HistoricalRun.osha_note]).
Proof.
  unfold HistoricalRun.search_osha_historical.
  do 4 erewrite bind_ok by reflexivity.
  unfold try_except, mbind, M_bind, bind, lift, gets, mret, M_ret, ret,
    Production.print, Production.append, modify.
  destruct (Production.session_get _ 15) as [resp|e].
  - destruct (Production.status_code resp =? 200).
    + destruct (soup_get_text resp) as [text|e];
        eexists _, _; (split; [reflexivity|]); cbn [Production.acc app]; auto.
    + eexists _, _. split; [reflexivity|]. cbn [Production.acc]. auto.
  - eexists _, _. split; [reflexivity|]. cbn [Production.acc]. auto.
Qed.

Lemma cisubstring_app_r (k a b : string) :
  CISubstring k b → CISubstring k (a +:+ b).
Proof.
  intros (pre & mid & post & -> & Hmid). exists (a +:+ pre), mid, post.
  split; [by rewrite !app_assoc_str|done].
Qed.

Lemma queries_name_an_industry (query : string) :
  query ∈ HistoricalRun.queries →
  ∃ k, k ∈ Historical.TARGET_INDUSTRIES ∧ CISubstring k query.
Proof.
  intros Hq.
  assert (Hall : forallb (λ q, existsb (λ k, substringb (lower k) (lower q))
                                       Historical.TARGET_INDUSTRIES)
                         HistoricalRun.queries = true)
    by (vm_compute; reflexivity).
  rewrite forallb_forall in Hall.
  apply list_elem_of_In, Hall, existsb_exists in Hq as (k & Hk & Hsub).
  exists k. split; [by apply list_elem_of_In|].
  by apply substringb_lower_spec.
Qed.

Lemma hist_kept_month_lead (item : Production.rss_item) (query : string)
    (year month : nat) :
  query ∈ HistoricalRun.queries →
  hist_kept (HistoricalRun.month_lead today item query year month) = true.
Proof.
  intros (k & Hk & Hci)%queries_name_an_industry.
  unfold hist_kept, has_keyword, Historical.industry_text.
  apply bool_decide_eq_true, first_match_is_Some. exists k. split; [done|].
  change (Historical.industry_fields
            (HistoricalRun.month_lead today item query year month))
    with (Production.text_or_empty (Production.item_title item) +:+ " " +:+
          Production.text_or_empty (Production.item_description item) +:+ " " +:+
          query).
  rewrite <- !app_assoc_str. by apply cisubstring_app_r.
Qed.

Lemma filter_all {A} (P : A → bool) (l : list A) :
  Forall (λ x, P x = true) l → filter (λ x, P x) l = l.
Proof.
  induction 1 as [|x l Hx Hl IH]; [done|].
  rewrite filter_cons_True by (by rewrite Hx). by rewrite IH.
Qed.

Lemma filter_none {A} (P : A → bool) (l : list A) :
  Forall (λ x, P x = false) l → filter (λ x, P x) l = [].
Proof.
  induction 1 as [|x l Hx Hl IH]; [done|].
  rewrite filter_cons_False; [exact IH|]. intros Hc. by rewrite Hx in Hc.
Qed.

Lemma industry_filter_collected (news osha : list lead) :
  Forall (λ d, hist_kept d = true) news →
  Forall (λ d, hist_kept d = false) osha →
  filter (λ l, hist_kept (heap_of (news ++ osha) l)) (locs_of (news ++ osha))
  = seq 0 (length news).
Proof.
  intros Hnews Hosha. unfold locs_of. rewrite length_app, seq_app.
  rewrite list.filter_app, filter_all, filter_none.
  - by rewrite app_nil_r.
  - apply list.Forall_forall. intros l [Hl1 Hl2]%elem_of_seq.
    unfold heap_of. rewrite lookup_app_r by lia.
    destruct (lookup_lt_is_Some_2 osha (l - length news)) as [d Hd]; [lia|].
    rewrite Hd. cbn [default].
    rewrite list.Forall_forall in Hosha. apply Hosha.
    by eapply list_elem_of_lookup_2.
  - apply list.Forall_forall. intros l [Hl1 Hl2]%elem_of_seq.
    unfold heap_of. rewrite lookup_app_l by lia.
    destruct (lookup_lt_is_Some_2 news l) as [d Hd]; [lia|].
    rewrite Hd. cbn [default].
    rewrite list.Forall_forall in Hnews. apply Hnews.
    by eapply list_elem_of_lookup_2.
Qed.

Lemma collected_news_kept :
  Forall (λ d, hist_kept d = true) (collected_news today).
Proof.
  apply list.Forall_forall. intros d Hd.
  apply collected_news_elem in Hd as (query & month & Hq & _ & Hd).
  apply month_leads_elem in Hd as (item & ->).
  by apply hist_kept_month_lead.
Qed.

(** X18. [run] always reaches its final list. Every query of the
    collection names a target industry and the industry filter reads the
    query of a lead, so that filter keeps every collected news lead and
    drops nothing but the OSHA note; the final list is what the county
    filter keeps of the news leads, each with source "Google News", a
    target industry as [matched_keyword] and a target county as
    [county]. *)
Theorem historical_run_keeps_every_news_lead (fr : Production.frame) :
  ∃ final fr' osha_leads,
    HistoricalRun.run_final_leads today soup_get_text fr = (Ok final, fr') ∧
    (osha_leads = [] ∨ osha_leads = [HistoricalRun.osha_note]) ∧
    let all_leads := collected_news today ++ osha_leads in
    let filtered :=
      Historical.filter_by_target_industries (heap_of all_leads)
                                             (locs_of all_leads) in
    filtered.2 = seq 0 (length (collected_news today)) ∧
    final = Historical.filter_by_target_counties filtered.1 filtered.2 ∧
    Forall (λ l,
              final.1 l !! "source" = Some (VStr "Google News") ∧
              (∃ k, k ∈ Historical.TARGET_INDUSTRIES ∧
                    final.1 l !! "matched_keyword" = Some (VStr k)) ∧
              (∃ county, county ∈ Historical.TARGET_COUNTIES ∧
                         final.1 l !! "county" = Some (VStr county)))
           final.2.
Proof.
  unfold HistoricalRun.run_final_leads.
  do 5 erewrite bind_ok by reflexivity.
  match goal with |- context [(_ ≫= _) ?s] => generalize s end. intros fr0.
  destruct (collect_news_historical_char fr0) as [fr1 Hnews].
  rewrite (bind_ok _ _ _ _ _ Hnews).
  destruct (search_osha_historical_char fr1) as (osha_leads & fr2 & Hosha & Hnote).
  rewrite (bind_ok _ _ _ _ _ Hosha). cbv zeta.
  do 5 erewrite bind_ok by reflexivity.
  eexists _, _, osha_leads. split; [reflexivity|]. split; [exact Hnote|].
  clear Hnews Hosha fr fr0 fr1 fr2.
  set (all_leads := collected_news today ++ osha_leads).
  destruct (historical_industry_char (heap_of all_leads) (locs_of all_leads))
    as [Hout Hheap].
  fold hist_kept hist_stamp in Hout, Hheap.
  destruct (Historical.filter_by_target_industries _ _) as [h1 ls1].
  cbn [fst snd] in *.
  assert (Hls1 : ls1 = seq 0 (length (collected_news today))).
  { rewrite Hout. apply industry_filter_collected; [apply collected_news_kept|].
    destruct Hnote as [-> | ->]; repeat constructor. }
  split; [exact Hls1|]. split; [reflexivity|].
  destruct (county_filter_char h1 ls1) as (Hgeo & Hmem & _).
  destruct (Historical.filter_by_target_counties h1 ls1) as [h2 ls2].
  cbn [fst snd] in *.
  apply list.Forall_forall. intros l Hl.
  destruct (Hmem l Hl) as [Hl1 Hgk]. rewrite Hgeo.
  rewrite decide_True; [|exact Hl1].
  assert (Hkept : hist_kept (heap_of all_leads l) = true).
  { rewrite Hout in Hl1. apply list_elem_of_filter in Hl1 as [Hk _].
    by apply Is_true_eq_true. }
  assert (Hin : l ∈ locs_of all_leads).
  { rewrite Hout in Hl1. by apply list_elem_of_filter in Hl1 as [_ ?]. }
  assert (Hh1 : h1 l = hist_stamp (heap_of all_leads l)).
  { rewrite Hheap. rewrite decide_True; [done|]. split; [exact Hin|].
    by rewrite Hkept. }
  assert (Hnews : heap_of all_leads l ∈ collected_news today).
  { rewrite Hls1 in Hl1. apply elem_of_seq in Hl1 as [_ Hlt].
    unfold heap_of, all_leads. rewrite lookup_app_l by lia.
    destruct (lookup_lt_is_Some_2 (collected_news today) l) as [d Hd]; [lia|].
    rewrite Hd. cbn [default]. by eapply list_elem_of_lookup_2. }
  clear Hout Hheap Hgeo Hmem Hl Hl1 Hin Hls1.
  unfold geo_stamp. split_and!.
  - rewrite geo_stamps_lookup_ne; [|discriminate..]. rewrite Hh1.
    unfold hist_stamp. rewrite stamp_keyword_lookup_other; [|discriminate].
    apply collected_news_elem in Hnews as (query & month & _ & _ & Hd).
    apply month_leads_elem in Hd as (item & ->). reflexivity.
  - rewrite geo_stamps_lookup_ne; [|discriminate..]. rewrite Hh1.
    destruct (stamp_keyword_lookup Historical.industry_fields
                Historical.TARGET_INDUSTRIES (heap_of all_leads l))
      as (k & (pre & post & Hks & _) & Hk).
    { exact (Is_true_eq_left _ Hkept). }
    exists k. split; [|exact Hk].
    rewrite Hks. apply elem_of_app. right. apply list_elem_of_here.
  - unfold geo_kept in Hgk.
    apply bool_decide_eq_true in Hgk. apply geo_stamps_has_county in Hgk.
    destruct (assign_lookup_last _ (h1 l) _ Hgk) as (v & Hv & Hlook).
    apply geo_stamps_county in Hv as (c & -> & Hc). by exists c.
Qed.

End HistoricalCollection.

(* ===================================================================== *)
(** * historical_data_collector.py: the groups of the summary report *)
(* ===================================================================== *)

Section Grouping.
Context {A : Type}.
Implicit Types (k : value) (x : A) (groups : list (value * list A)).

Lemma group_add_keys k x groups :
  (HistoricalRun.group_add k x groups).*1
  = if decide (k ∈ (groups.*1)) then groups.*1 else (groups.*1) ++ [k].
Proof.
  induction groups as [|[k0 xs0] rest IH]; cbn [HistoricalRun.group_add].
  - rewrite decide_False; [done|]. by intros ?%elem_of_nil.
  - destruct (decide (k = k0)) as [->|Hne]; cbn [fmap list_fmap fst].
    + rewrite decide_True; [done|]. apply list_elem_of_here.
    + change (((k0, xs0) :: HistoricalRun.group_add k x rest).*1)
        with (k0 :: (HistoricalRun.group_add k x rest).*1).
      rewrite IH. change (((k0, xs0) :: rest).*1) with (k0 :: rest.*1).
      destruct (decide (k ∈ rest.*1)) as [Hin|Hnin].
      * rewrite decide_True; [done|]. by apply list_elem_of_further.
      * rewrite decide_False; [done|].
        intros [?|?]%elem_of_cons; congruence.
Qed.

Lemma group_add_elem k x groups k' (grp' : list A) :
  NoDup groups.*1 →
  (k', grp') ∈ HistoricalRun.group_add k x groups →
  (k' ≠ k ∧ (k', grp') ∈ groups) ∨
  (k' = k ∧ ((∃ grp, (k, grp) ∈ groups ∧ grp' = grp ++ [x]) ∨
             ((k ∉ groups.*1) ∧ grp' = [x]))).
Proof.
  induction groups as [|[k0 xs0] rest IH]; cbn [HistoricalRun.group_add].
  - intros _ [= -> ->]%list_elem_of_singleton. right. split; [done|]. right.
    split; [by intros ?%elem_of_nil|done].
  - change (((k0, xs0) :: rest).*1) with (k0 :: rest.*1).
    intros [Hk0 Hnd]%list.NoDup_cons.
    destruct (decide (k = k0)) as [->|Hne].
    + intros [[= -> ->]|Hin]%elem_of_cons.
      * right. split; [done|]. left. exists xs0.
        split; [apply list_elem_of_here|done].
      * left. split; [|by apply list_elem_of_further].
        intros ->. apply Hk0. apply list_elem_of_fmap. by exists (k0, grp').
    + intros [[= -> ->]|Hin]%elem_of_cons.
      * left. split; [congruence|apply list_elem_of_here].
      * destruct (IH Hnd Hin) as [[Hk Hg]|[-> [(grp & Hg & ->)|[Hk ->]]]].
        -- left. split; [done|by apply list_elem_of_further].
        -- right. split; [done|]. left. exists grp.
           split; [by apply list_elem_of_further|done].
        -- right. split; [done|]. right. split; [|done].
           intros [?|?]%elem_of_cons; congruence.
Qed.

Lemma group_add_concat k x groups :
  concat (HistoricalRun.group_add k x groups).*2 ≡ₚ concat groups.*2 ++ [x].
Proof.
  induction groups as [|[k0 xs0] rest IH]; cbn [HistoricalRun.group_add].
  - done.
  - destruct (decide (k = k0)) as [->|Hne].
    + change (concat ((k0, xs0 ++ [x]) :: rest).*2)
        with ((xs0 ++ [x]) ++ concat rest.*2).
      change (concat ((k0, xs0) :: rest).*2) with (xs0 ++ concat rest.*2).
      rewrite <- !app_assoc. apply Permutation_app_head, Permutation_app_comm.
    + change (concat ((k0, xs0) :: HistoricalRun.group_add k x rest).*2)
        with (xs0 ++ concat (HistoricalRun.group_add k x rest).*2).
      change (concat ((k0, xs0) :: rest).*2) with (xs0 ++ concat rest.*2).
      rewrite IH. by rewrite app_assoc.
Qed.

Lemma group_by_snoc (key : A → value) (xs : list A) x :
  HistoricalRun.group_by key (xs ++ [x])
  = HistoricalRun.group_add (key x) x (HistoricalRun.group_by key xs).
Proof. unfold HistoricalRun.group_by. by rewrite foldl_app. Qed.

Lemma filter_no_elem (P : A → Prop) `{∀ x, Decision (P x)} (l : list A) :
  (∀ x, x ∈ l → ¬ P x) → filter P l = [].
Proof.
  induction l as [|x l IH]; intros Hl; [done|].
  rewrite filter_cons_False by (apply Hl, list_elem_of_here).
  apply IH. intros y Hy. by apply Hl, list_elem_of_further.
Qed.

Lemma group_by_spec (key : A → value) (xs : list A) :
  let groups := HistoricalRun.group_by key xs in
  NoDup groups.*1 ∧
  (∀ x, x ∈ xs → key x ∈ groups.*1) ∧
  (∀ k grp, (k, grp) ∈ groups →
            grp ≠ [] ∧ grp = filter (λ x, key x = k) xs) ∧
  concat groups.*2 ≡ₚ xs.
Proof.
  cbv zeta. induction xs as [|x xs IH] using rev_ind.
  - split_and!; [constructor| |by intros ?? ?%elem_of_nil|done].
    by intros ? ?%elem_of_nil.
  - destruct IH as (Hnd & Hkeys & Hgrp & Hperm).
    rewrite group_by_snoc. set (groups := HistoricalRun.group_by key xs) in *.
    split_and!.
    + rewrite group_add_keys. case_decide as Hin; [done|].
      apply list.NoDup_app. split_and!; [done| |apply list.NoDup_singleton].
      intros k Hk ->%list_elem_of_singleton. done.
    + intros y Hy. rewrite group_add_keys.
      apply elem_of_app in Hy as [Hy | ->%list_elem_of_singleton].
      * case_decide; [by apply Hkeys|].
        apply elem_of_app. left. by apply Hkeys.
      * case_decide; [done|]. apply elem_of_app. right. apply list_elem_of_here.
    + intros k grp Hin. rewrite list.filter_app.
      apply group_add_elem in Hin
        as [[Hk Hg]|[-> [(grp0 & Hg & ->)|[Hk ->]]]]; [| | |done].
      * destruct (Hgrp k grp Hg) as [Hne ->]. split; [done|].
        rewrite (filter_cons_False _ x) by congruence.
        by rewrite filter_nil, app_nil_r.
      * destruct (Hgrp (key x) grp0 Hg) as [Hne ->]. split.
        -- intros Hnil. by apply app_eq_nil in Hnil as [_ ?].
        -- rewrite (filter_cons_True _ x) by done. by rewrite filter_nil.
      * split; [done|].
        rewrite (filter_no_elem (λ y, key y = key x) xs).
        -- rewrite (filter_cons_True _ x) by done. by rewrite filter_nil.
        -- intros y Hy Heq. apply Hk. rewrite <- Heq. by apply Hkeys.
    + rewrite group_add_concat. by rewrite Hperm.
Qed.

End Grouping.

Section SummaryGroups.

(** X19. The two groupings of [create_summary_report] partition the
    leads: the keys of [by_month] (the [search_month] of a lead, or
    "Unknown") and of [by_industry] (its [matched_keyword], or "Other")
    are distinct, the group of a key is not empty and holds the leads with
    that key in the order of the input, and the groups together hold every
    lead exactly once. *)
Theorem summary_groups_partition_leads (leads : list lead) :
  let month lead_ := get_default lead_ "search_month" (VStr "Unknown") in
  let industry lead_ := get_default lead_ "matched_keyword" (VStr "Other") in
  (NoDup (HistoricalRun.by_month leads).*1 ∧
   (∀ k grp, (k, grp) ∈ HistoricalRun.by_month leads →
             grp ≠ [] ∧ grp = filter (λ lead_, month lead_ = k) leads) ∧
   concat (HistoricalRun.by_month leads).*2 ≡ₚ leads) ∧
  (NoDup (HistoricalRun.by_industry leads).*1 ∧
   (∀ k grp, (k, grp) ∈ HistoricalRun.by_industry leads →
             grp ≠ [] ∧ grp = filter (λ lead_, industry lead_ = k) leads) ∧
   concat (HistoricalRun.by_industry leads).*2 ≡ₚ leads).
Proof.
  intros month industry. split.
  - destruct (group_by_spec month leads) as (Hnd & _ & Hgrp & Hperm).
    by split_and!.
  - destruct (group_by_spec industry leads) as (Hnd & _ & Hgrp & Hperm).
    by split_and!.
Qed.

End SummaryGroups.

(* ===================================================================== *)
(** * osha_scraper.py: the scraper as a whole *)
(* ===================================================================== *)

Section OshaScraper.

Lemma search_establishments_char (state : string) (days_back : nat)
    (out : list string) :
  Osha.search_establishments state days_back out
  = (Ok [], out ++ [cat [ "Searching OSHA database for "; state;
                          " incidents in last "; pretty days_back;
                          " days..." ]]).
Proof. reflexivity. Qed.

Lemma scraper_county_loop_char (counties : list string) (state : string)
    (all_incidents : list lead) (out : list string) :
  ∃ lines,
    Osha.county_loop counties state all_incidents out
    = (Ok all_incidents, out ++ lines) ∧
    length lines = 2 * length counties.
Proof.
  revert all_incidents out.
  induction counties as [|county rest IH]; intros all_incidents out.
  - exists []. split; [|done]. simpl. unfold ret. by rewrite app_nil_r.
  - cbn [Osha.county_loop]. erewrite bind_ok by reflexivity.
    erewrite bind_ok by apply search_establishments_char.
    cbv zeta. rewrite filter_nil, app_nil_r.
    destruct (IH all_incidents
                ((out ++ [cat ["Searching "; county; " County, "; state; "..."]])
                 ++ [cat [ "Searching OSHA database for "; state;
                           " incidents in last "; pretty 30; " days..." ]]))
      as (lines & Hrun & Hlen).
    rewrite Hrun. eexists. split.
    + rewrite <- !app_assoc. reflexivity.
    + cbn [app length]. rewrite Hlen. lia.
Qed.

(** X20. [scrape_osha_incidents] never yields an incident: for every list
    of counties [search_establishments] returns its empty list, so the
    call returns no incident, touches no dict and reports zero found and
    zero related, after two printed lines for each county. *)
Theorem scrape_osha_incidents_finds_nothing (counties : list string)
    (out : list string) :
  ∃ h lines,
    Osha.scrape_osha_incidents counties out
    = (Ok (h, []),
       out ++ lines ++ ["Total incidents found: 0"; "Slip/fall related: 0"]) ∧
    (∀ l, h l = ∅) ∧
    length lines = 2 * length counties ∧
    ∀ state days_back out0,
      (Osha.search_establishments state days_back out0).1 = Ok [].
Proof.
  unfold Osha.scrape_osha_incidents, Osha.search_by_county.
  destruct (scraper_county_loop_char counties "MA" [] out) as (lines & Hrun & Hlen).
  rewrite (bind_ok _ _ _ _ _ Hrun). cbv zeta.
  do 2 erewrite bind_ok by reflexivity.
  eexists _, lines. split_and!.
  - unfold mret, M_ret, ret. rewrite <- !app_assoc. reflexivity.
  - done.
  - exact Hlen.
  - done.
Qed.

End OshaScraper.

(* ===================================================================== *)
(** * lead_monitor.py: [filter_by_industry] as a list operation *)
(* ===================================================================== *)

Section MonitorFilter.

(** X21. [filter_by_industry] returns its matching items unchanged and
    in the order of the input, each as often as the input lists it; it
    treats every item on its own, so that filtering a concatenation gives
    the concatenation of the filtered lists, and filtering a second time
    changes nothing. *)
Theorem filter_by_industry_is_a_plain_filter (data more : list lead) :
  Monitor.filter_by_industry data `sublist_of` data ∧
  Monitor.filter_by_industry (data ++ more)
  = Monitor.filter_by_industry data ++ Monitor.filter_by_industry more ∧
  Monitor.filter_by_industry (Monitor.filter_by_industry data)
  = Monitor.filter_by_industry data ∧
  (∀ item, item ∈ Monitor.filter_by_industry data ↔
           item ∈ data ∧
           ∃ k, k ∈ Monitor.TARGET_INDUSTRIES ∧
                CISubstring k (Monitor.industry_fields item)).
Proof.
  rewrite !monitor_industry_char. split_and!.
  - apply sublist_filter.
  - apply list.filter_app.
  - apply list_filter_filter_l. auto.
  - intros item. rewrite list_elem_of_filter. unfold has_keyword.
    rewrite bool_decide_spec. unfold Monitor.industry_text.
    rewrite first_match_is_Some. tauto.
Qed.

End MonitorFilter.

(* ===================================================================== *)
(** * The county filter over any case mapping *)
(* ===================================================================== *)

Section CasedCountyFilter.
Variable str_lower : string → string.























End CasedCountyFilter.

(* ===================================================================== *)
(** * The geography filter: contract and frame *)
(* ===================================================================== *)

Section GeographyContractCased.

Lemma cased_county_loop_ascii (counties : list string) (text : string)
    (l : loc) (st : heap * list loc) :
  Cased.county_loop lower counties text l st
  = Historical.county_loop counties text l st.
Proof.
  induction counties as [|c cs IH]; simpl; [done|].
  by destruct (substringb (lower c) text).
Qed.

(** At the ASCII case mapping the county filter of [Cased] is that of
    [Historical]. *)
Lemma cased_county_filter_ascii (h : heap) (leads : list loc) :
  Cased.filter_by_target_counties lower h leads
  = Historical.filter_by_target_counties h leads.
Proof.
  unfold Cased.filter_by_target_counties, Historical.filter_by_target_counties.
  apply foldl_ext_step. intros st l.
  unfold Cased.county_step, Historical.county_step, Cased.county_text,
    Historical.county_text. cbn zeta.
  by rewrite cased_county_loop_ascii.
Qed.




End GeographyContractCased.

(* ===================================================================== *)
(** * osha_scraper.py: [filter_slip_fall_incidents] over any case mapping *)
(* ===================================================================== *)

Section CasedSlipFall.
Variable str_lower : string → string.

Lemma cased_description_insert (d : lead) (k : string) (v : value) :
  k ≠ "violations" → k ≠ "hazards" →
  Cased.description str_lower (<[k:=v]> d) = Cased.description str_lower d.
Proof.
  intros. unfold Cased.description. by rewrite !get_default_insert_ne.
Qed.

Lemma slip_fall_named_stamp (d : lead) :
  slip_fall_named str_lower (slip_fall_stamp d) = slip_fall_named str_lower d.
Proof.
  unfold slip_fall_named, slip_fall_stamp.
  by rewrite !cased_description_insert.
Qed.

Lemma cased_slip_fall_step_heap (st : heap * list loc) (l x : loc) :
  (Cased.slip_fall_step str_lower st l).1 x =
  if decide (x = l ∧ slip_fall_named str_lower (st.1 l))
  then slip_fall_stamp (st.1 l) else st.1 x.
Proof.
  unfold Cased.slip_fall_step. fold (slip_fall_named str_lower (st.1 l)).
  destruct (slip_fall_named str_lower (st.1 l)) eqn:E; cbn [fst].
  - destruct (decide (x = l)) as [->|Hne].
    + rewrite decide_True by done. by rewrite !store_same.
    + rewrite decide_False by (by intros [? _]). by rewrite !store_other.
  - rewrite decide_False; [done|]. by intros [_ ?].
Qed.

Lemma cased_slip_fall_step_list (st : heap * list loc) (l : loc) :
  (Cased.slip_fall_step str_lower st l).2 =
  if slip_fall_named str_lower (st.1 l) then st.2 ++ [l] else st.2.
Proof.
  unfold Cased.slip_fall_step. fold (slip_fall_named str_lower (st.1 l)).
  by destruct (slip_fall_named str_lower (st.1 l)).
Qed.

Lemma cased_slip_fall_filter (ls : list loc) (h : heap) (acc : list loc) :
  (foldl (Cased.slip_fall_step str_lower) (h, acc) ls).2
  = acc ++ filter (λ l, slip_fall_named str_lower (h l)) ls ∧
  (∀ x, (foldl (Cased.slip_fall_step str_lower) (h, acc) ls).1 x =
        if decide (x ∈ ls ∧ slip_fall_named str_lower (h x))
        then slip_fall_stamp (h x) else h x).
Proof.
  revert h acc. induction ls as [|l ls IH]; intros h acc.
  - cbn [foldl fst snd]. split; [by rewrite app_nil_r|].
    intros x. rewrite decide_False; [done|]. by intros [?%elem_of_nil _].
  - cbn [foldl].
    pose proof (cased_slip_fall_step_heap (h, acc) l) as Hh.
    pose proof (cased_slip_fall_step_list (h, acc) l) as Hl.
    destruct (Cased.slip_fall_step str_lower (h, acc) l) as [h1 acc1].
    cbn [fst snd] in Hh, Hl. destruct (IH h1 acc1) as [IH1 IH2].
    assert (Hk : ∀ x, slip_fall_named str_lower (h1 x)
                      = slip_fall_named str_lower (h x)).
    { intros x. rewrite Hh. case_decide as Hc; [|done].
      destruct Hc as [-> _]. apply slip_fall_named_stamp. }
    split.
    + rewrite IH1. subst acc1.
      rewrite (list_filter_iff _ (λ l, slip_fall_named str_lower (h l)))
        by (intros x; by rewrite Hk).
      destruct (slip_fall_named str_lower (h l)) eqn:E.
      * rewrite filter_cons_True by (by rewrite E). by rewrite <- app_assoc.
      * rewrite filter_cons_False; [done|]. intros Hc. by rewrite E in Hc.
    + intros x. rewrite IH2, Hk, Hh.
      destruct (decide (x = l)) as [->|Hne].
      * destruct (slip_fall_named str_lower (h l)) eqn:E.
        -- rewrite (decide_True (P := l = l ∧ true)) by done.
           rewrite slip_fall_stamp_idemp.
           rewrite (decide_True (P := l ∈ l :: ls ∧ true)).
           ++ by case_decide.
           ++ split; [apply list_elem_of_here|done].
        -- rewrite !decide_False; [done|by intros [_ ?]..].
      * rewrite (decide_False (P := x = l ∧ _)) by (by intros [? _]).
        apply decide_ext. rewrite elem_of_cons.
        split; [intros [? ?]; auto|]. by intros [[?|?] ?].
Qed.

(** X8. For every case mapping [str_lower] in the place of
    [str.lower()], [filter_slip_fall_incidents] returns, in the order of
    its input, the incidents in whose lower-cased violations and hazards
    one of the eleven keywords occurs; it writes [priority] "High" and the
    match reason into these and nothing else, and leaves every other
    incident as it was. *)
Theorem slip_fall_filter_contract (h : heap) (incidents : list loc) :
  let r := Cased.filter_slip_fall_incidents str_lower h incidents in
  let fields d := cat [ py_str (get_default d "violations" (VStr "")); " ";
                        py_str (get_default d "hazards" (VStr "")) ] in
  r.2 = filter (λ l, slip_fall_named str_lower (h l)) incidents ∧
  (∀ d, slip_fall_named str_lower d = true ↔
        ∃ keyword, keyword ∈ Osha.slip_fall_keywords ∧
                   Substring keyword (str_lower (fields d))) ∧
  (∀ x, x ∈ r.2 →
        r.1 x !! "priority" = Some (VStr "High") ∧
        r.1 x !! "match_reason"
          = Some (VStr "Slip/trip/fall related incident")) ∧
  (∀ x k, k ≠ "priority" → k ≠ "match_reason" → r.1 x !! k = h x !! k) ∧
  (∀ x, x ∉ r.2 → r.1 x = h x).
Proof.
  intros r fields.
  destruct (cased_slip_fall_filter incidents h []) as [Hout Hheap].
  fold (Cased.filter_slip_fall_incidents str_lower h incidents) in Hout, Hheap.
  fold r in Hout, Hheap. clearbody r. rewrite app_nil_l in Hout. split_and!.
  - done.
  - intros d. unfold slip_fall_named. rewrite existsb_exists. split.
    + intros (k & Hk%list_elem_of_In & Hs). exists k. split; [done|].
      by apply substringb_spec.
    + intros (k & Hk & Hs). exists k. split; [by apply list_elem_of_In|].
      by apply substringb_spec.
  - intros x Hx. rewrite Hout, list_elem_of_filter in Hx.
    rewrite Hheap, decide_True by tauto. unfold slip_fall_stamp. split.
    + rewrite lookup_insert_ne by done. apply lookup_insert_eq.
    + apply lookup_insert_eq.
  - intros x k H1 H2. rewrite Hheap. case_decide; [|done].
    unfold slip_fall_stamp. by rewrite !lookup_insert_ne.
  - intros x Hx. rewrite Hheap. case_decide as Hc; [|done].
    destruct Hx. rewrite Hout, list_elem_of_filter. tauto.
Qed.

End CasedSlipFall.

Section CasedSlipFallAscii.

(** At the ASCII case mapping the slip/fall filter of [Cased] is that of
    [Osha]. *)
Lemma cased_slip_fall_filter_ascii (h : heap) (incidents : list loc) :
  Cased.filter_slip_fall_incidents lower h incidents
  = Osha.filter_slip_fall_incidents h incidents.
Proof. reflexivity. Qed.

End CasedSlipFallAscii.
